(** * asgard-sdk-go: the SSE streaming client and its data model

    A shallow embedding of [pkg/models] and [pkg/client] of the Go SDK.

    - Go strings are byte strings: [string].
    - A nilable pointer or interface is an [option]; a pointer to a decoded
      event is an address into the [heap] of decoded events.
    - [int], [int64] are [Z]; a [float64] is kept as its IEEE-754 bit pattern.
    - Slices are lists (a nil slice and an empty one are both [[]]).
    - The libraries the SDK calls (encoding/json, net/http, net/url, go-sse)
      are the fields of the class [External]: every statement below holds
      for each implementation of them.
    - A method either returns, parks on a blocking operation, or panics:
      [outcome]. *)

From stdpp Require Import base option list strings pretty gmap.

Local Open Scope string_scope.
Local Open Scope Z_scope.
Local Open Scope list_scope.

(** ** The Go runtime notions the SDK relies on *)

Module go.

(** Error values. [fmt.Errorf] with one [%w] builds a [wrapError] that keeps
    the formatted text and the wrapped error; without it an [errorString]. *)
Inductive error : Type :=
| io_EOF
| context_Canceled
| context_DeadlineExceeded
| errorString (s : string)
| wrapError (msg : string) (err : error).

(** [err.Error()] *)
Definition Error (e : error) : string :=
  match e with
  | io_EOF => "EOF"
  | context_Canceled => "context canceled"
  | context_DeadlineExceeded => "context deadline exceeded"
  | errorString s => s
  | wrapError msg _ => msg
  end.

(** [errors.Is(err, io.EOF)]: follows the [Unwrap] chain; a nil error is not
    [io.EOF]. *)
Fixpoint Is_EOF (e : error) : bool :=
  match e with
  | io_EOF => true
  | wrapError _ inner => Is_EOF inner
  | _ => false
  end.

Definition errors_Is_EOF (e : option error) : bool :=
  match e with
  | Some e => Is_EOF e
  | None => false
  end.

(** [fmt.Errorf(prefix + "%w", err)]. With a nil operand fmt prints the
    bad-verb marker and nothing is wrapped. *)
Definition Errorf_w (prefix : string) (err : option error) : error :=
  match err with
  | Some e => wrapError (prefix +:+ Error e) e
  | None => errorString (prefix +:+ "%!w(<nil>)")
  end.

(** [strings.Contains(s, substr)] *)
Fixpoint strings_Contains (s substr : string) : bool :=
  if String.prefix substr s then true
  else match s with
       | EmptyString => false
       | String _ s' => strings_Contains s' substr
       end.

(** How a call ends. *)
Inductive outcome (A : Type) : Type :=
| Returns (a : A)
| Blocks
| Panics.
Arguments Returns {A} a.
Arguments Blocks {A}.
Arguments Panics {A}.

#[global] Instance outcome_ret : MRet outcome := fun A a => Returns a.

#[global] Instance outcome_bind : MBind outcome := fun A B k m =>
  match m with
  | Returns a => k a
  | Blocks => Blocks
  | Panics => Panics
  end.

(** A buffered channel: the queued items, the capacity, and whether
    [close] was called. *)
Record chan (A : Type) : Type := mkChan {
  chan_buf : list A;
  chan_cap : nat;
  chan_closed : bool
}.
Arguments mkChan {A} _ _ _.
Arguments chan_buf {A} _.
Arguments chan_cap {A} _.
Arguments chan_closed {A} _.

(** [make(chan A, cap)] *)
Definition make_chan {A} (cap : nat) : chan A := mkChan [] cap false.

(** [c <- x]: panics on a closed channel, parks while the buffer is full. *)
Definition chan_send {A} (c : chan A) (x : A) : outcome (chan A) :=
  if chan_closed c then Panics
  else if (length (chan_buf c) <? chan_cap c)%nat
       then Returns (mkChan (chan_buf c ++ [x]) (chan_cap c) false)
       else Blocks.

(** [x, ok := <-c]: [Some x] is [(x, true)], [None] is [(zero, false)]. *)
Definition chan_recv {A} (c : chan A) : outcome (option A * chan A) :=
  match chan_buf c with
  | x :: rest => Returns (Some x, mkChan rest (chan_cap c) (chan_closed c))
  | [] => if chan_closed c then Returns (None, c) else Blocks
  end.

(** [close(c)] *)
Definition chan_close {A} (c : chan A) : outcome (chan A) :=
  if chan_closed c then Panics
  else Returns (mkChan (chan_buf c) (chan_cap c) true).

(** A [context.Context]: [ctx.Err()]; [ctx.Done()] is closed exactly when it
    is non-nil. *)
Record context : Type := mkContext { ctx_Err : option error }.

(** Cancelling (or timing out) a context; the first cause stays. *)
Definition cancel (cause : error) (c : context) : context :=
  match ctx_Err c with
  | Some _ => c
  | None => mkContext (Some cause)
  end.

(** [errors.Unwrap(err)] *)
Definition errors_Unwrap (e : error) : option error :=
  match e with
  | wrapError _ inner => Some inner
  | _ => None
  end.

End go.

(** ** Package models *)

Module models.

(** What an [interface{}] holds once encoding/json has filled it. *)
#[warnings="-register-all"]
Inductive any : Type :=
| any_nil
| any_bool (b : bool)
| any_float64 (bits : Z)
| any_string (s : string)
| any_slice (l : list any)
| any_map (m : list (string * any)).

(** *** Enumerations: named string types and their constants *)

Definition SseEventType : Type := string.

Definition SseEventTypeRunInit : SseEventType := "asgard.run.init".
Definition SseEventTypeRunDone : SseEventType := "asgard.run.done".
Definition SseEventTypeRunError : SseEventType := "asgard.run.error".
Definition SseEventTypeProcessStart : SseEventType := "asgard.process.start".
Definition SseEventTypeProcessComplete : SseEventType := "asgard.process.complete".
Definition SseEventTypeMessageStart : SseEventType := "asgard.message.start".
Definition SseEventTypeMessageDelta : SseEventType := "asgard.message.delta".
Definition SseEventTypeMessageComplete : SseEventType := "asgard.message.complete".
Definition SseEventTypeToolCallStart : SseEventType := "asgard.tool_call.start".
Definition SseEventTypeToolCallComplete : SseEventType := "asgard.tool_call.complete".

(** The [const] block of [SseEventType], in declaration order. *)
Definition SseEventType_constants : list SseEventType :=
  [ SseEventTypeRunInit; SseEventTypeRunDone; SseEventTypeRunError;
    SseEventTypeProcessStart; SseEventTypeProcessComplete;
    SseEventTypeMessageStart; SseEventTypeMessageDelta;
    SseEventTypeMessageComplete;
    SseEventTypeToolCallStart; SseEventTypeToolCallComplete ].

Definition MessageTemplateType : Type := string.
Definition MessageTemplateTypeText : MessageTemplateType := "TEXT".
Definition MessageTemplateTypeImage : MessageTemplateType := "IMAGE".
Definition MessageTemplateTypeVideo : MessageTemplateType := "VIDEO".
Definition MessageTemplateTypeAudio : MessageTemplateType := "AUDIO".
Definition MessageTemplateTypeLocation : MessageTemplateType := "LOCATION".
Definition MessageTemplateTypeButton : MessageTemplateType := "BUTTON".
Definition MessageTemplateTypeCarousel : MessageTemplateType := "CAROUSEL".
Definition MessageTemplateTypeChart : MessageTemplateType := "CHART".
Definition MessageTemplateTypeTable : MessageTemplateType := "TABLE".

Definition MessageTemplateActionType : Type := string.
Definition MessageTemplateActionTypeMessage : MessageTemplateActionType := "MESSAGE".
Definition MessageTemplateActionTypeUri : MessageTemplateActionType := "URI".
Definition MessageTemplateActionTypeEmit : MessageTemplateActionType := "EMIT".

Definition ImageAspectRatio : Type := string.
Definition ImageAspectRatioRectangle : ImageAspectRatio := "rectangle".
Definition ImageAspectRatioSquare : ImageAspectRatio := "square".

Definition ImageSize : Type := string.
Definition ImageSizeCover : ImageSize := "cover".
Definition ImageSizeContain : ImageSize := "contain".

Definition MessageTemplateRowType : Type := string.
Definition MessageTemplateRowTypeObject : MessageTemplateRowType := "OBJECT".
Definition MessageTemplateRowTypeArray : MessageTemplateRowType := "ARRAY".

Definition MessageTemplateTableColumnFormat : Type := string.
Definition MessageTemplateTableColumnFormatDate : MessageTemplateTableColumnFormat := "DATE".
Definition MessageTemplateTableColumnFormatDateTime : MessageTemplateTableColumnFormat := "DATE_TIME".
Definition MessageTemplateTableColumnFormatCurrency : MessageTemplateTableColumnFormat := "CURRENCY".

Definition PostBackAction : Type := string.
Definition PostBackActionNone : PostBackAction := "NONE".
Definition PostBackActionResetChanel : PostBackAction := "RESET_CHANNEL".

Definition FileType : Type := string.
Definition FileTypeBinary : FileType := "BINARY".
Definition FileTypeImage : FileType := "IMAGE".
Definition FileTypeVideo : FileType := "VIDEO".
Definition FileTypeAudio : FileType := "AUDIO".
Definition FileTypeDocument : FileType := "DOCUMENT".

(** *** Structs. Each struct has a module of its own, so that fields keep
    their Go names; the struct type is the module's [t]. A field whose Go
    name is a reserved word here carries a trailing underscore. *)

Module ErrorLocation.
Record t : Type := mk {
  Namespace : string;
  WorkflowName : string;
  ProcessorName : string;
  ProcessorType : string;
  ProcessorConfigName : string;
  ProcessId : string
}.
End ErrorLocation.
Abbreviation ErrorLocation := ErrorLocation.t.

Module ErrorDetail.
Record t : Type := mk {
  Message : string;
  Code : string;
  Inner : string;
  Location : ErrorLocation
}.
End ErrorDetail.
Abbreviation ErrorDetail := ErrorDetail.t.

(** [func (e *ErrorDetail) Error() string] *)
Definition ErrorDetail_Error (e : ErrorDetail) : string :=
  let loc := ErrorDetail.Location e in
  if String.eqb (ErrorDetail.Inner e) "" then
    ErrorDetail.Code e +:+ ": " +:+ ErrorDetail.Message e
      +:+ " (at namespace=" +:+ ErrorLocation.Namespace loc
      +:+ ", workflowName=" +:+ ErrorLocation.WorkflowName loc
      +:+ ", processorName=" +:+ ErrorLocation.ProcessorName loc
      +:+ ", processorType=" +:+ ErrorLocation.ProcessorType loc +:+ ")"
  else
    ErrorDetail.Code e +:+ ": " +:+ ErrorDetail.Message e
      +:+ " (at namespace=" +:+ ErrorLocation.Namespace loc
      +:+ ", workflowName=" +:+ ErrorLocation.WorkflowName loc
      +:+ ", processorName=" +:+ ErrorLocation.ProcessorName loc
      +:+ ", processorType=" +:+ ErrorLocation.ProcessorType loc
      +:+ ") - caused by: " +:+ ErrorDetail.Inner e.

(** What [fmt] prints for an [ErrorLocation] value under [%s]: the struct
    has no methods, so its fields are printed in order between braces. *)
Definition fmt_s_ErrorLocation (l : ErrorLocation) : string :=
  "{" +:+ ErrorLocation.Namespace l
    +:+ " " +:+ ErrorLocation.WorkflowName l
    +:+ " " +:+ ErrorLocation.ProcessorName l
    +:+ " " +:+ ErrorLocation.ProcessorType l
    +:+ " " +:+ ErrorLocation.ProcessorConfigName l
    +:+ " " +:+ ErrorLocation.ProcessId l +:+ "}".

(** What [fmt] prints for an [ErrorDetail] VALUE under [%s]. [Error] is
    declared on the pointer receiver, so the method set of the value type
    does not have it and the value is no [error] (nor a [Stringer]) for
    fmt: the operand is printed as a struct, field by field. *)
Definition fmt_s_ErrorDetail (e : ErrorDetail) : string :=
  "{" +:+ ErrorDetail.Message e
    +:+ " " +:+ ErrorDetail.Code e
    +:+ " " +:+ ErrorDetail.Inner e
    +:+ " " +:+ fmt_s_ErrorLocation (ErrorDetail.Location e) +:+ "}".

Module QuickReply.
Record t : Type := mk { Text : string }.
End QuickReply.
Abbreviation QuickReply := QuickReply.t.

Module MessageTemplateAction.
Record t : Type := mk {
  Type_ : MessageTemplateActionType;
  Text : option string;
  Uri : option string;
  EventName : option string;
  Payload : option any
}.
End MessageTemplateAction.
Abbreviation MessageTemplateAction := MessageTemplateAction.t.

Module MessageTemplateButton.
Record t : Type := mk {
  Label : string;
  Action : MessageTemplateAction
}.
End MessageTemplateButton.
Abbreviation MessageTemplateButton := MessageTemplateButton.t.

Module MessageTemplateColumn.
Record t : Type := mk {
  Title : string;
  Text : string;
  ThumbnailImageUrl : option string;
  ImageAspectRatio : option models.ImageAspectRatio;
  ImageSize : option models.ImageSize;
  ImageBackgroundColor : option string;
  Buttons : list MessageTemplateButton;
  DefaultAction : option MessageTemplateAction
}.
End MessageTemplateColumn.
Abbreviation MessageTemplateColumn := MessageTemplateColumn.t.

Module MessageTemplateChartOption.
Record t : Type := mk {
  Type_ : string;
  Title : string;
  Spec : list (string * any)
}.
End MessageTemplateChartOption.
Abbreviation MessageTemplateChartOption := MessageTemplateChartOption.t.

Module MessageTemplateTableColumn.
Record t : Type := mk {
  Header : string;
  Key : string;
  Format : option MessageTemplateTableColumnFormat
}.
End MessageTemplateTableColumn.
Abbreviation MessageTemplateTableColumn := MessageTemplateTableColumn.t.

Module MessageTemplateTablePagination.
Record t : Type := mk { Size : Z }.
End MessageTemplateTablePagination.
Abbreviation MessageTemplateTablePagination := MessageTemplateTablePagination.t.

Module MessageTemplateTable.
Record t : Type := mk {
  RowType : MessageTemplateRowType;
  Columns : list MessageTemplateTableColumn;
  Pagination : option MessageTemplateTablePagination;
  Data : list any
}.
End MessageTemplateTable.
Abbreviation MessageTemplateTable := MessageTemplateTable.t.

Module MessageTemplateReference.
Record t : Type := mk {
  Title : string;
  Uri : string
}.
End MessageTemplateReference.
Abbreviation MessageTemplateReference := MessageTemplateReference.t.

Module MessageTemplate.
Record t : Type := mk {
  Type_ : MessageTemplateType;
  Text : option string;
  QuickReplies : list QuickReply;
  OriginalContentUrl : option string;
  PreviewImageUrl : option string;
  Duration : option Z;
  Title : option string;
  Latitude : option Z;
  Longitude : option Z;
  ThumbnailImageUrl : option string;
  ImageAspectRatio : option models.ImageAspectRatio;
  ImageSize : option models.ImageSize;
  ImageBackgroundColor : option string;
  Buttons : option (list MessageTemplateButton);
  DefaultAction : option MessageTemplateAction;
  Columns : option (list MessageTemplateColumn);
  Data : option any;
  ChartOptions : option (list MessageTemplateChartOption);
  DefaultChart : option string;
  Table : option MessageTemplateTable;
  References : list MessageTemplateReference;
  Description : option string
}.
End MessageTemplate.
Abbreviation MessageTemplate := MessageTemplate.t.

Module GenericBotMessage.
Record t : Type := mk {
  CustomChannelId : string;
  CustomMessageId : string;
  Text : string;
  Action : PostBackAction;
  BlobIds : list string;
  Payload : gmap string any
}.
End GenericBotMessage.
Abbreviation GenericBotMessage := GenericBotMessage.t.

Module BufferedMessage.
Record t : Type := mk {
  MessageId : string;
  ReplyToCustomMessageId : string;
  Text : string;
  Payload : any;
  IsDebug : bool;
  Idx : option Z;
  Template : option MessageTemplate
}.
End BufferedMessage.
Abbreviation BufferedMessage := BufferedMessage.t.

Module Blob.
Record t : Type := mk {
  ChannelId : string;
  BlobId : string;
  FileType : models.FileType;
  FileName : option string;
  Size : Z;
  Mime : string
}.
End Blob.
Abbreviation Blob := Blob.t.

Module GenericBotReply.
Record t : Type := mk {
  RequestId : string;
  Namespace : string;
  BotProviderName : string;
  CustomChannelId : string;
  Messages : list BufferedMessage;
  ErrorDetail : option models.ErrorDetail
}.
End GenericBotReply.
Abbreviation GenericBotReply := GenericBotReply.t.

Module ToolCall.
Record t : Type := mk {
  ToolsetName : string;
  ToolName : string;
  Parameter_ : any
}.
End ToolCall.
Abbreviation ToolCall := ToolCall.t.

Module GenericBotSseEventFactRunInit.
Record t : Type := mk { }.
End GenericBotSseEventFactRunInit.
Abbreviation GenericBotSseEventFactRunInit := GenericBotSseEventFactRunInit.t.

Module GenericBotSseEventFactRunDone.
Record t : Type := mk { }.
End GenericBotSseEventFactRunDone.
Abbreviation GenericBotSseEventFactRunDone := GenericBotSseEventFactRunDone.t.

Module GenericBotSseEventFactRunError.
Record t : Type := mk { Error : ErrorDetail }.
End GenericBotSseEventFactRunError.
Abbreviation GenericBotSseEventFactRunError := GenericBotSseEventFactRunError.t.

Module GenericBotSseEventFactProcessStart.
Record t : Type := mk {
  ProcessId : string;
  Task : option any
}.
End GenericBotSseEventFactProcessStart.
Abbreviation GenericBotSseEventFactProcessStart := GenericBotSseEventFactProcessStart.t.

Module GenericBotSseEventFactProcessComplete.
Record t : Type := mk {
  ProcessId : string;
  TaskResult : option any
}.
End GenericBotSseEventFactProcessComplete.
Abbreviation GenericBotSseEventFactProcessComplete := GenericBotSseEventFactProcessComplete.t.

Module GenericBotSseEventFactMessage.
Record t : Type := mk { Message : BufferedMessage }.
End GenericBotSseEventFactMessage.
Abbreviation GenericBotSseEventFactMessage := GenericBotSseEventFactMessage.t.

Module GenericBotSseEventFactToolCallStart.
Record t : Type := mk {
  ProcessId : string;
  CallSeq : Z;
  ToolCall : models.ToolCall
}.
End GenericBotSseEventFactToolCallStart.
Abbreviation GenericBotSseEventFactToolCallStart := GenericBotSseEventFactToolCallStart.t.

Module GenericBotSseEventFactToolCallComplete.
Record t : Type := mk {
  ProcessId : string;
  CallSeq : Z;
  ToolCall : models.ToolCall;
  ToolCallResult : any
}.
End GenericBotSseEventFactToolCallComplete.
Abbreviation GenericBotSseEventFactToolCallComplete := GenericBotSseEventFactToolCallComplete.t.

(** The polymorphic event data: ten nilable pointers, nothing in the type
    ties the populated one to the event type. *)
Module GenericBotSseEventFact.
Record t : Type := mk {
  RunInit : option GenericBotSseEventFactRunInit;
  RunDone : option GenericBotSseEventFactRunDone;
  RunError : option GenericBotSseEventFactRunError;
  ProcessStart : option GenericBotSseEventFactProcessStart;
  ProcessComplete : option GenericBotSseEventFactProcessComplete;
  MessageStart : option GenericBotSseEventFactMessage;
  MessageDelta : option GenericBotSseEventFactMessage;
  MessageComplete : option GenericBotSseEventFactMessage;
  ToolCallStart : option GenericBotSseEventFactToolCallStart;
  ToolCallComplete : option GenericBotSseEventFactToolCallComplete
}.
End GenericBotSseEventFact.
Abbreviation GenericBotSseEventFact := GenericBotSseEventFact.t.

Module GenericBotSseEvent.
Record t : Type := mk {
  EventType : SseEventType;
  RequestId : string;
  EventId : string;
  Namespace : string;
  BotProviderName : string;
  CustomChannelId : string;
  Fact : GenericBotSseEventFact
}.
End GenericBotSseEvent.
Abbreviation GenericBotSseEvent := GenericBotSseEvent.t.

(** Decoded events live on the heap; a [*GenericBotSseEvent] is an address
    into it. Events are allocated once (by the producer) and the SDK never
    writes to them afterwards. *)
Abbreviation ptr := nat (only parsing).
Abbreviation heap := (list GenericBotSseEvent) (only parsing).

(** Allocating a fresh event: the new address and the extended heap. *)
Definition alloc (h : heap) (e : GenericBotSseEvent) : ptr * heap :=
  (length h, h ++ [e]).

Module GenericBotSseEventWrapper.
Record t : Type := mk {
  Event : option ptr;
  ConnectionError : option go.error
}.
End GenericBotSseEventWrapper.
Abbreviation GenericBotSseEventWrapper := GenericBotSseEventWrapper.t.

End models.

(** ** Package client *)

Module client.
Import go models.

(** *** net/http and go-sse values the client builds *)

(** [http.Client]: only the timeout (a [time.Duration], in nanoseconds) is
    set by the SDK. *)
Record http_Client : Type := mkClient { Timeout : Z }.

(** [300 * time.Second] *)
Definition defaultHTTPTimeout : Z := 300 * 1000000000.

(** One part written to a multipart body. A [NilReaderPart] is a file part
    whose header is written and whose data are then copied from a nil
    reader. *)
Inductive Part : Type :=
| FormField (name value : string)
| FilePart (disposition contentType : string) (data : string)
| NilReaderPart (disposition contentType : string).

(** A request body: a byte buffer, or the read end of a pipe that a
    goroutine fills with a multipart form. *)
Inductive Body : Type :=
| BytesBody (b : string)
| PipeBody (parts : list Part).

Module Request.
Record t : Type := mk {
  Method : string;
  URL : string;
  Header : list (string * string);
  Body : client.Body
}.
End Request.
Abbreviation Request := Request.t.

Module Response.
Record t : Type := mk {
  StatusCode : Z;
  Body : string + error
}.
End Response.
Abbreviation Response := Response.t.

(** bot_provider.go: [apiResponse[T]], the envelope of the synchronous
    endpoints. *)
Module apiResponse.
Record t (T : Type) : Type := mk {
  IsSuccess : bool;
  Data : T;
  Error : option string;
  ErrorCode : option string
}.
Arguments mk {T} _ _ _ _.
Arguments IsSuccess {T} _.
Arguments Data {T} _.
Arguments Error {T} _.
Arguments ErrorCode {T} _.
End apiResponse.
Abbreviation apiResponse := apiResponse.t.

(** The libraries behind the client. A call that returns [(T, error)]
    is a sum: [inl] the value, [inr] the non-nil error. *)
Class External : Type := {
  (** [json.Marshal] of a [*GenericBotMessage] *)
  json_Marshal_message : GenericBotMessage -> string + error;
  (** [json.Marshal] of a [map[string]interface{}] *)
  json_Marshal_payload : gmap string any -> string + error;
  (** [json.Unmarshal] into a [GenericBotSseEvent] *)
  json_Unmarshal_event : string -> GenericBotSseEvent + error;
  (** [json.Unmarshal] into an [interface{}] *)
  json_Unmarshal_any : string -> any + error;
  (** [json.Unmarshal] into the three instances of the envelope; a
      [json.RawMessage] is the bytes of the data *)
  json_Unmarshal_reply : string -> apiResponse GenericBotReply + error;
  json_Unmarshal_raw : string -> apiResponse string + error;
  json_Unmarshal_blobs : string -> apiResponse (list Blob) + error;
  (** the check [http.NewRequestWithContext] makes of context, method and URL *)
  http_NewRequest_check : context -> string -> string -> option error;
  (** [textproto.CanonicalMIMEHeaderKey] *)
  CanonicalMIMEHeaderKey : string -> string;
  (** [url.PathEscape] *)
  url_PathEscape : string -> string;
  (** the boundary [multipart.NewWriter] draws *)
  multipart_boundary : string;
  (** [Do] of [http.Client]: the answer of the server to a request *)
  http_Do : http_Client -> Request -> Response + error;
  (** whether, during that [Do], the transport reads the body of the
      request as far as the data of its file part *)
  http_reads_body : http_Client -> Request -> bool
}.

(** [http.NewRequestWithContext(ctx, method, url, body)] *)
Definition http_NewRequestWithContext `{External}
    (ctx : context) (method url : string) (body : Body) : Request + error :=
  match http_NewRequest_check ctx method url with
  | Some e => inr e
  | None => inl (Request.mk method url [] body)
  end.

(** [req.Header.Set(key, value)] *)
Definition Header_Set `{External} (req : Request) (key value : string) : Request :=
  let k := CanonicalMIMEHeaderKey key in
  Request.mk (Request.Method req) (Request.URL req)
    (filter (fun kv => kv.1 ≠ k) (Request.Header req) ++ [(k, value)])
    (Request.Body req).

(** [sse.Client] with its [Backoff.MaxRetries] *)
Module sse_Client.
Record t : Type := mk {
  HTTPClient : option http_Client;
  MaxRetries : Z
}.
End sse_Client.
Abbreviation sse_Client := sse_Client.t.

(** [sse.Connection]: the request it will send and its read buffer. *)
Module sse_Connection.
Record t : Type := mk {
  client : sse_Client;
  request : Request;
  bufCap : Z;
  maxToken : Z
}.
End sse_Connection.
Abbreviation sse_Connection := sse_Connection.t.

(** *** config.go *)

Module BotProviderConfig.
Record t : Type := mk {
  HTTPClient : option http_Client;
  EdgeServerHost : string;
  Namespace : string;
  BotProviderName : string;
  BotProviderApiKey : string
}.
End BotProviderConfig.
Abbreviation BotProviderConfig := BotProviderConfig.t.

Module BotProviderClient.
Record t : Type := mk { config : BotProviderConfig }.
End BotProviderClient.
Abbreviation BotProviderClient := BotProviderClient.t.

(** [NewBotProviderClientWithConfig]: a nil config becomes the zero config,
    a nil HTTP client the default one. *)
Definition NewBotProviderClientWithConfig (config : option BotProviderConfig)
  : BotProviderClient :=
  let config := default (BotProviderConfig.mk None "" "" "" "") config in
  let config :=
    match BotProviderConfig.HTTPClient config with
    | None =>
        BotProviderConfig.mk (Some (mkClient defaultHTTPTimeout))
          (BotProviderConfig.EdgeServerHost config)
          (BotProviderConfig.Namespace config)
          (BotProviderConfig.BotProviderName config)
          (BotProviderConfig.BotProviderApiKey config)
    | Some _ => config
    end in
  BotProviderClient.mk config.

(** [NewBotProviderClient] *)
Definition NewBotProviderClient
    (edgeServerHost namespace botProviderName botProviderAPIKey : string)
  : BotProviderClient :=
  NewBotProviderClientWithConfig
    (Some (BotProviderConfig.mk (Some (mkClient defaultHTTPTimeout))
             edgeServerHost namespace botProviderName botProviderAPIKey)).

(** *** streamer.go *)

(** [botProviderStream]. The fields [ctx] and [eventChan] hold the state of
    the context and of the channel they refer to; [mu] is [true] while the
    mutex is locked. *)
Module botProviderStream.
Record t : Type := mk {
  ctx : context;
  config : BotProviderConfig;
  message : GenericBotMessage;
  sseClient : sse_Client;
  connection : option sse_Connection;
  eventChan : chan GenericBotSseEventWrapper;
  currentEvent : option ptr;
  err : option error;
  closed : bool;
  mu : bool
}.

Definition with_ctx (c : context) (s : t) : t :=
  mk c (config s) (message s) (sseClient s) (connection s) (eventChan s)
     (currentEvent s) (err s) (closed s) (mu s).
Definition with_connection (c : option sse_Connection) (s : t) : t :=
  mk (ctx s) (config s) (message s) (sseClient s) c (eventChan s)
     (currentEvent s) (err s) (closed s) (mu s).
Definition with_eventChan (c : chan GenericBotSseEventWrapper) (s : t) : t :=
  mk (ctx s) (config s) (message s) (sseClient s) (connection s) c
     (currentEvent s) (err s) (closed s) (mu s).
Definition with_currentEvent (p : option ptr) (s : t) : t :=
  mk (ctx s) (config s) (message s) (sseClient s) (connection s) (eventChan s)
     p (err s) (closed s) (mu s).
Definition with_err (e : option error) (s : t) : t :=
  mk (ctx s) (config s) (message s) (sseClient s) (connection s) (eventChan s)
     (currentEvent s) e (closed s) (mu s).
Definition with_closed (b : bool) (s : t) : t :=
  mk (ctx s) (config s) (message s) (sseClient s) (connection s) (eventChan s)
     (currentEvent s) (err s) b (mu s).
Definition with_mu (b : bool) (s : t) : t :=
  mk (ctx s) (config s) (message s) (sseClient s) (connection s) (eventChan s)
     (currentEvent s) (err s) (closed s) b.
End botProviderStream.
Abbreviation botProviderStream := botProviderStream.t.
Import botProviderStream.

(** What [connect] sets in motion: the goroutine that runs
    [connection.Connect()] and closes the channel when it returns. *)
Inductive effect : Type :=
| go_Connect (conn : sse_Connection).

Section Streaming.
Context `{External}.

(** [connect]: the stream with its connection, the error, and the
    goroutine started. *)
Definition connect (s : botProviderStream)
  : botProviderStream * option error * list effect :=
  match json_Marshal_message (message s) with
  | inr e => (s, Some (Errorf_w "failed to marshal bot message: " (Some e)), [])
  | inl messageBytes =>
      let url :=
        BotProviderConfig.EdgeServerHost (config s) +:+ "/ns/"
          +:+ BotProviderConfig.Namespace (config s) +:+ "/bot-provider/"
          +:+ BotProviderConfig.BotProviderName (config s) +:+ "/message/sse" in
      match http_NewRequestWithContext (ctx s) "POST" url (BytesBody messageBytes) with
      | inr e => (s, Some (Errorf_w "failed to create SSE request: " (Some e)), [])
      | inl req =>
          let req := Header_Set req "Content-Type" "application/json" in
          let req := Header_Set req "x-api-key"
                       (BotProviderConfig.BotProviderApiKey (config s)) in
          let conn :=
            sse_Connection.mk (sseClient s) req (1024 * 1024) (1024 * 1024 * 10) in
          (with_connection (Some conn) s, None, [go_Connect conn])
      end
  end.

(** [NewStreaming(ctx, config, message)]: the handle, the error, and what
    was started. *)
Definition NewStreaming (ctx : context) (config : option BotProviderConfig)
    (message : option GenericBotMessage)
  : option botProviderStream * option error * list effect :=
  match config with
  | None => (None, Some (errorString "config cannot be nil"), [])
  | Some config =>
      match message with
      | None => (None, Some (errorString "message cannot be nil"), [])
      | Some message =>
          let sseClient :=
            sse_Client.mk (BotProviderConfig.HTTPClient config) (-1) in
          let stream :=
            botProviderStream.mk ctx config message sseClient None
              (make_chan 100) None None false false in
          match connect stream with
          | (_, Some e, effs) =>
              (None, Some (Errorf_w "failed to establish SSE connection: " (Some e)), effs)
          | (stream, None, effs) => (Some stream, None, effs)
          end
      end
  end.

(** The function [connect] subscribes: one call per SSE frame, with the
    frame's data. It decodes the event and sends one item; a decoded event
    is a fresh heap object. *)
Definition onEvent (data : string) (h : heap)
    (ch : chan GenericBotSseEventWrapper)
  : outcome (heap * chan GenericBotSseEventWrapper) :=
  match json_Unmarshal_event data with
  | inr e =>
      ch' ← chan_send ch
              (GenericBotSseEventWrapper.mk None
                 (Some (Errorf_w "failed to unmarshal event: " (Some e))));
      mret (h, ch')
  | inl edgeEvent =>
      let '(p, h') := alloc h edgeEvent in
      ch' ← chan_send ch (GenericBotSseEventWrapper.mk (Some p) None);
      mret (h', ch')
  end.

End Streaming.

(** The cases of the select statement of [Next]. When both are ready the
    runtime chooses one of them at random. *)
Inductive select_case : Type :=
| case_eventChan
| case_ctxDone.

(** [case ev, ok := <-s.eventChan]. It panics where the Go code
    dereferences a nil pointer: [ev.Event] when an item has neither event
    nor error, and [ev.Event.Fact.RunError] when an event of type
    [run.error] has no such fact. An address with no object behind it is
    handled like a nil pointer; no sane system has one. *)
Definition Next_recv (h : heap) (s : botProviderStream)
    (r : option GenericBotSseEventWrapper * chan GenericBotSseEventWrapper)
  : outcome (bool * botProviderStream) :=
  let s := with_eventChan r.2 s in
  match r.1 with
  | None => Returns (false, s)
  | Some ev =>
      match GenericBotSseEventWrapper.ConnectionError ev with
      | Some e => Returns (false, with_err (Some e) s)
      | None =>
          match GenericBotSseEventWrapper.Event ev with
          | None => Panics
          | Some p =>
              match h !! p with
              | None => Panics
              | Some event =>
                  if String.eqb (GenericBotSseEvent.EventType event)
                       SseEventTypeRunError
                  then
                    match GenericBotSseEventFact.RunError
                            (GenericBotSseEvent.Fact event) with
                    | None => Panics
                    | Some runError =>
                        Returns
                          (false,
                           with_err
                             (Some (errorString
                                      ("SSE stream error: " +:+
                                       fmt_s_ErrorDetail
                                         (GenericBotSseEventFactRunError.Error runError))))
                             s)
                    end
                  else Returns (true, with_currentEvent (Some p) s)
              end
          end
      end
  end.

(** [case <-s.ctx.Done()] *)
Definition Next_done (s : botProviderStream) (e : error)
  : outcome (bool * botProviderStream) :=
  Returns (false, with_err (Some e) s).

(** The select statement of [Next]: it parks while no case is ready, takes
    the ready case when there is one, and [pick] when both are. *)
Definition Next_select (pick : select_case) (h : heap) (s : botProviderStream)
  : outcome (bool * botProviderStream) :=
  match chan_recv (eventChan s), ctx_Err (ctx s) with
  | Blocks, None => Blocks
  | Blocks, Some e => Next_done s e
  | Returns r, None => Next_recv h s r
  | Returns r, Some e =>
      match pick with
      | case_eventChan => Next_recv h s r
      | case_ctxDone => Next_done s e
      end
  | Panics, _ => Panics
  end.

(** The body of [Next], between [s.mu.Lock()] and the deferred unlock. *)
Definition Next_locked (pick : select_case) (h : heap) (s : botProviderStream)
  : outcome (bool * botProviderStream) :=
  if closed s || bool_decide (err s ≠ None) then Returns (false, s)
  else Next_select pick h s.

(** The body of [Close]. *)
Definition Close_locked (s : botProviderStream) : option error * botProviderStream :=
  if closed s then (None, s)
  else (None, with_currentEvent None (with_closed true s)).

(** How a call of a method of the stream ends: it returns (the mutex is
    free again), it is parked inside the select with the mutex held, it
    waits for the mutex, or it panics. *)
Inductive call (R : Type) : Type :=
| Done (r : R) (s : botProviderStream)
| Parked (s : botProviderStream)
| WaitsForLock
| Panicked.
Arguments Done {R} r s.
Arguments Parked {R} s.
Arguments WaitsForLock {R}.
Arguments Panicked {R}.

(** [func (s *botProviderStream) Next() bool] *)
Definition Next (pick : select_case) (h : heap) (s : botProviderStream) : call bool :=
  if mu s then WaitsForLock
  else
    let s := with_mu true s in
    match Next_locked pick h s with
    | Returns (b, s') => Done b (with_mu false s')
    | Blocks => Parked s
    | Panics => Panicked
    end.

(** A parked [Next] is woken: its select is tried again, the mutex still
    held. *)
Definition Next_resume (pick : select_case) (h : heap) (s : botProviderStream)
  : call bool :=
  match Next_select pick h s with
  | Returns (b, s') => Done b (with_mu false s')
  | Blocks => Parked s
  | Panics => Panicked
  end.

(** [func (s *botProviderStream) Current() *models.GenericBotSseEvent] *)
Definition Current (s : botProviderStream) : call (option ptr) :=
  if mu s then WaitsForLock
  else Done (currentEvent s) s.

(** [func (s *botProviderStream) Err() error] *)
Definition Err (s : botProviderStream) : call (option error) :=
  if mu s then WaitsForLock
  else Done (err s) s.

(** [func (s *botProviderStream) Close() error] *)
Definition Close (s : botProviderStream) : call (option error) :=
  if mu s then WaitsForLock
  else
    let '(r, s') := Close_locked (with_mu true s) in
    Done r (with_mu false s').

(** *** One stream at run time: the producer goroutine, the consumer's
    calls and the caller's context *)

(** What the server does on one connection, as go-sse presents it: the
    data of the frames it dispatches to the subscriber, in wire order, and
    then the error [Connect] returns ([io.EOF] on a clean end). *)
Record Wire : Type := mkWire {
  frames : list string;
  result : option error
}.

(** Where the goroutine started by [connect] stands: inside
    [connection.Connect()], with the frames still to dispatch; past it,
    with the deferred [close(s.eventChan)] still to run; or gone. *)
Inductive producer : Type :=
| Connecting (frames : list string) (result : option error)
| Closing
| Exited.

Record system : Type := mkSystem {
  sys_heap : heap;
  sys_stream : botProviderStream;
  sys_producer : producer
}.

Section Running.
Context `{External}.

(** One step of the goroutine: the subscriber handles the next frame;
    or [Connect] returns and, unless its error is [io.EOF], the final item
    is sent; or the channel is closed. A send on a full channel parks the
    goroutine where it is. An exited goroutine has no step. *)
Definition producer_step (h : heap) (ch : chan GenericBotSseEventWrapper)
    (p : producer)
  : outcome (heap * chan GenericBotSseEventWrapper * producer) :=
  match p with
  | Connecting (data :: rest) r =>
      '(h', ch') ← onEvent data h ch;
      mret (h', ch', Connecting rest r)
  | Connecting [] r =>
      if errors_Is_EOF r then mret (h, ch, Closing)
      else
        ch' ← chan_send ch
                (GenericBotSseEventWrapper.mk None
                   (Some (Errorf_w "SSE connection failed: " r)));
        mret (h, ch', Closing)
  | Closing =>
      ch' ← chan_close ch;
      mret (h, ch', Exited)
  | Exited => Blocks
  end.

(** The system just after [NewStreaming] returned the handle [s]. *)
Definition launch (w : Wire) (s : botProviderStream) : system :=
  mkSystem [] s (Connecting (frames w) (result w)).

(** What the scheduler may run next. *)
Inductive action : Type :=
| producer_runs
| calls_Next (pick : select_case)
| resumes_Next (pick : select_case)
| calls_Current
| calls_Err
| calls_Close
| ctx_cancelled (cause : error).

(** What a caller sees when its call returns. *)
Inductive observation : Type :=
| Next_returned (b : bool)
| Current_returned (p : option ptr)
| Err_returned (e : option error)
| Close_returned (e : option error).

Inductive step : Type :=
| Stepped (o : list observation) (sys : system)
| NotEnabled
| Crashed.

Definition on_call {R} (sys : system) (obs : R -> observation) (c : call R) : step :=
  match c with
  | Done r s => Stepped [obs r] (mkSystem (sys_heap sys) s (sys_producer sys))
  | Parked s => Stepped [] (mkSystem (sys_heap sys) s (sys_producer sys))
  | WaitsForLock => NotEnabled
  | Panicked => Crashed
  end.

Definition exec (sys : system) (a : action) : step :=
  let s := sys_stream sys in
  match a with
  | producer_runs =>
      match producer_step (sys_heap sys) (eventChan s) (sys_producer sys) with
      | Returns (h', ch', p') => Stepped [] (mkSystem h' (with_eventChan ch' s) p')
      | Blocks => NotEnabled
      | Panics => Crashed
      end
  | calls_Next pick => on_call sys Next_returned (Next pick (sys_heap sys) s)
  | resumes_Next pick =>
      if mu s then on_call sys Next_returned (Next_resume pick (sys_heap sys) s)
      else NotEnabled
  | calls_Current => on_call sys Current_returned (Current s)
  | calls_Err => on_call sys Err_returned (Err s)
  | calls_Close => on_call sys Close_returned (Close s)
  | ctx_cancelled cause =>
      Stepped [] (mkSystem (sys_heap sys) (with_ctx (cancel cause (ctx s)) s)
                    (sys_producer sys))
  end.

(** Running a schedule: an action that is not enabled waits (nothing
    happens); [None] when the program crashed. *)
Fixpoint run (sched : list action) (sys : system)
  : option (list observation * system) :=
  match sched with
  | [] => Some ([], sys)
  | a :: sched =>
      match exec sys a with
      | Stepped o sys' =>
          match run sched sys' with
          | Some (obs, sys'') => Some (o ++ obs, sys'')
          | None => None
          end
      | NotEnabled => run sched sys
      | Crashed => None
      end
  end.

(** The results of the [Next] calls among the observations. *)
Definition Next_results (obs : list observation) : list bool :=
  omap (fun o => match o with Next_returned b => Some b | _ => None end) obs.

(** The event [Current()] points to, if any. *)
Definition current_event (sys : system) : option GenericBotSseEvent :=
  p ← currentEvent (sys_stream sys); sys_heap sys !! p.

(** Schedules in which the consumer only iterates: nobody closes the
    stream or cancels the context. *)
Definition iterates (a : action) : bool :=
  match a with
  | calls_Close | ctx_cancelled _ => false
  | _ => true
  end.

End Running.

(** *** bot_provider.go: the synchronous calls *)

(** The double quote, for the Content-Disposition header. *)
Definition dquote : string := String (Ascii.ascii_of_nat 34) EmptyString.

(** [responseError(errMsg, errCode)] *)
Definition responseError (errMsg errCode : option string) : string :=
  match errMsg, errCode with
  | None, None => "unknown error"
  | Some m, Some c => m +:+ " (" +:+ c +:+ ")"
  | Some m, None => m
  | None, Some c => c
  end.

(** [fmt.Errorf(what + " failed (%d): %s", status, responseError(...))] *)
Definition failed (what : string) (status : Z) (errMsg errCode : option string) : error :=
  errorString (what +:+ " failed (" +:+ pretty status +:+ "): "
               +:+ responseError errMsg errCode).

Section Synchronous.
Context `{External}.

(** The path every endpoint shares:
    [{host}/ns/{namespace}/bot-provider/{provider}] with both names escaped. *)
Definition endpoint (c : BotProviderClient) (suffix : string) : string :=
  let config := BotProviderClient.config c in
  BotProviderConfig.EdgeServerHost config +:+ "/ns/"
    +:+ url_PathEscape (BotProviderConfig.Namespace config) +:+ "/bot-provider/"
    +:+ url_PathEscape (BotProviderConfig.BotProviderName config) +:+ suffix.

(** [c.config.HTTPClient.Do(req)]: a nil client is dereferenced. *)
Definition Do (c : BotProviderClient) (req : Request) : outcome (Response + error) :=
  match BotProviderConfig.HTTPClient (BotProviderClient.config c) with
  | None => Panics
  | Some httpClient => Returns (http_Do httpClient req)
  end.

(** The file part the multipart goroutines write. *)
Definition file_part (filename : string) (mime : option string) (data : string) : Part :=
  FilePart
    ("form-data; name=" +:+ dquote +:+ "file" +:+ dquote +:+ "; filename="
       +:+ dquote +:+ filename +:+ dquote)
    (match mime with
     | Some m => if String.eqb m "" then "application/octet-stream" else m
     | None => "application/octet-stream"
     end)
    data.

(** [writer.FormDataContentType()] *)
Definition FormDataContentType : string :=
  "multipart/form-data; boundary=" +:+ multipart_boundary.

(** [SendMessage(ctx, message, isDebug)] *)
Definition SendMessage (c : BotProviderClient) (ctx : context)
    (message : option GenericBotMessage) (isDebug : bool)
  : outcome (option GenericBotReply * option error) :=
  match message with
  | None => mret (None, Some (errorString "message cannot be nil"))
  | Some message =>
      let u := endpoint c "/message" in
      let u := if isDebug then u +:+ "?is_debug=true" else u in
      match json_Marshal_message message with
      | inr e => mret (None, Some (Errorf_w "failed to marshal message: " (Some e)))
      | inl body =>
      match http_NewRequestWithContext ctx "POST" u (BytesBody body) with
      | inr e => mret (None, Some (Errorf_w "failed to create request: " (Some e)))
      | inl req =>
      let req := Header_Set req "Content-Type" "application/json" in
      let req := Header_Set req "X-API-KEY"
                   (BotProviderConfig.BotProviderApiKey (BotProviderClient.config c)) in
      r ← Do c req;
      match r with
      | inr e => mret (None, Some (Errorf_w "failed to send message: " (Some e)))
      | inl resp =>
      match Response.Body resp with
      | inr e => mret (None, Some (Errorf_w "failed to read response body: " (Some e)))
      | inl respBytes =>
      match json_Unmarshal_reply respBytes with
      | inr e => mret (None, Some (Errorf_w "failed to decode response: " (Some e)))
      | inl payload =>
      if negb (Response.StatusCode resp =? 200) || negb (apiResponse.IsSuccess payload)
      then mret (None, Some (failed "send message" (Response.StatusCode resp)
                               (apiResponse.Error payload) (apiResponse.ErrorCode payload)))
      else mret (Some (apiResponse.Data payload), None)
      end end end end end
  end.

(** What [TriggerJSON] and [TriggerForm] do with the answer. *)
Definition trigger_response (what : string) (r : Response + error)
  : any * option error :=
  match r with
  | inr e => (any_nil, Some (Errorf_w ("failed to " +:+ what +:+ " api: ") (Some e)))
  | inl resp =>
  match Response.Body resp with
  | inr e => (any_nil, Some (Errorf_w "failed to read response body: " (Some e)))
  | inl respBytes =>
  match json_Unmarshal_raw respBytes with
  | inr e => (any_nil, Some (Errorf_w "failed to decode response: " (Some e)))
  | inl wrapper =>
  if negb (Response.StatusCode resp =? 200) || negb (apiResponse.IsSuccess wrapper)
  then (any_nil, Some (failed what (Response.StatusCode resp)
                         (apiResponse.Error wrapper) (apiResponse.ErrorCode wrapper)))
  else if (String.length (apiResponse.Data wrapper) =? 0)%nat
          || String.eqb (apiResponse.Data wrapper) "null"
  then (any_nil, None)
  else
    match json_Unmarshal_any (apiResponse.Data wrapper) with
    | inr e => (any_nil, Some (Errorf_w "failed to decode response data: " (Some e)))
    | inl result => (result, None)
    end
  end end end.

(** [TriggerJSON(ctx, payload)] *)
Definition TriggerJSON (c : BotProviderClient) (ctx : context)
    (payload : gmap string any)
  : outcome (any * option error) :=
  let u := endpoint c "/json" in
  match json_Marshal_payload payload with
  | inr e => mret (any_nil, Some (Errorf_w "failed to marshal json payload: " (Some e)))
  | inl body =>
  match http_NewRequestWithContext ctx "POST" u (BytesBody body) with
  | inr e => mret (any_nil, Some (Errorf_w "failed to create request: " (Some e)))
  | inl req =>
  let req := Header_Set req "Content-Type" "application/json" in
  let req := Header_Set req "X-API-KEY"
               (BotProviderConfig.BotProviderApiKey (BotProviderClient.config c)) in
  r ← Do c req;
  mret (trigger_response "trigger json" r)
  end end.

(** [TriggerForm(ctx, payload, reader, filename, mime)]; [reader] is what
    the reader yields, [None] a nil reader. *)
Definition TriggerForm (c : BotProviderClient) (ctx : context)
    (payload : gmap string any) (reader : option string) (filename : string)
    (mime : option string)
  : outcome (any * option error) :=
  let u := endpoint c "/form" in
  match json_Marshal_payload payload with
  | inr e => mret (any_nil, Some (Errorf_w "failed to marshal form json payload: " (Some e)))
  | inl jsonPayload =>
  let parts :=
    FormField "json" jsonPayload ::
    match reader with
    | None => []
    | Some data => [file_part filename mime data]
    end in
  match http_NewRequestWithContext ctx "POST" u (PipeBody parts) with
  | inr e => mret (any_nil, Some (Errorf_w "failed to create request: " (Some e)))
  | inl req =>
  let req := Header_Set req "Content-Type" FormDataContentType in
  let req := Header_Set req "X-API-KEY"
               (BotProviderConfig.BotProviderApiKey (BotProviderClient.config c)) in
  r ← Do c req;
  mret (trigger_response "trigger form" r)
  end end.

(** The file part [UploadBlob] writes: the goroutine creates the part and
    copies from the reader without a nil check. *)
Definition upload_part (filename : string) (mime : option string)
    (reader : option string) : Part :=
  match reader with
  | Some data => file_part filename mime data
  | None =>
      NilReaderPart
        ("form-data; name=" +:+ dquote +:+ "file" +:+ dquote +:+ "; filename="
           +:+ dquote +:+ filename +:+ dquote)
        (match mime with
         | Some m => if String.eqb m "" then "application/octet-stream" else m
         | None => "application/octet-stream"
         end)
  end.

(** Whether the goroutine that writes the form panics: it does when it
    gets as far as [io.Copy] from a nil reader, that is when the transport
    reads the parts before it. An unrecovered panic in a goroutine ends the
    program. *)
Definition writer_panics (c : BotProviderClient) (req : Request) : bool :=
  match Request.Body req with
  | PipeBody parts =>
      existsb (fun part => match part with NilReaderPart _ _ => true | _ => false end)
        parts
      && match BotProviderConfig.HTTPClient (BotProviderClient.config c) with
         | Some httpClient => http_reads_body httpClient req
         | None => false
         end
  | BytesBody _ => false
  end.

(** [UploadBlob(ctx, customChannelID, reader, filename, mime)]; [reader] is
    what the reader yields, [None] a nil reader. *)
Definition UploadBlob (c : BotProviderClient) (ctx : context)
    (customChannelID : string) (reader : option string) (filename : string)
    (mime : option string)
  : outcome (option Blob * option error) :=
  let u := endpoint c "/blob" in
  let parts :=
    [FormField "customChannelId" customChannelID; upload_part filename mime reader] in
  match http_NewRequestWithContext ctx "POST" u (PipeBody parts) with
  | inr e => mret (None, Some (Errorf_w "failed to create request: " (Some e)))
  | inl req =>
  let req := Header_Set req "Content-Type" FormDataContentType in
  let req := Header_Set req "X-API-KEY"
               (BotProviderConfig.BotProviderApiKey (BotProviderClient.config c)) in
  r ← Do c req;
  if writer_panics c req then Panics else
  match r with
  | inr e => mret (None, Some (Errorf_w "failed to upload blob: " (Some e)))
  | inl resp =>
  match Response.Body resp with
  | inr e => mret (None, Some (Errorf_w "failed to read response body: " (Some e)))
  | inl respBytes =>
  match json_Unmarshal_blobs respBytes with
  | inr e => mret (None, Some (Errorf_w "failed to decode response: " (Some e)))
  | inl payload =>
  if negb (Response.StatusCode resp =? 200) || negb (apiResponse.IsSuccess payload)
  then mret (None, Some (failed "upload blob" (Response.StatusCode resp)
                           (apiResponse.Error payload) (apiResponse.ErrorCode payload)))
  else
    match apiResponse.Data payload with
    | [] => mret (None, Some (errorString
                                "upload blob succeeded but no blob metadata returned"))
    | blob :: _ => mret (Some blob, None)
    end
  end end end end.

End Synchronous.

(** *** bot_provider.go: [NewStreamer]; agents.go *)

(** [func (c *BotProviderClient) NewStreamer(ctx, message)] *)
Definition BotProviderClient_NewStreamer `{External} (c : BotProviderClient)
    (ctx : context) (message : option GenericBotMessage)
  : option botProviderStream * option error * list effect :=
  NewStreaming ctx (Some (BotProviderClient.config c)) message.

(** [botAgent]: its [client] is what [NewBotProviderClientWithConfig]
    returns, a [*BotProviderClient]. *)
Module botAgent.
Record t : Type := mk { client : BotProviderClient }.
End botAgent.
Abbreviation botAgent := botAgent.t.

(** [NewBotAgentWithConfig(config)] *)
Definition NewBotAgentWithConfig (config : option BotProviderConfig) : botAgent :=
  botAgent.mk (NewBotProviderClientWithConfig config).

(** [NewBotAgent(edgeServerHost, namespace, botProviderName, botProviderAPIKey)]:
    the config it builds has no HTTP client. *)
Definition NewBotAgent
    (edgeServerHost namespace botProviderName botProviderAPIKey : string)
  : botAgent :=
  NewBotAgentWithConfig
    (Some (BotProviderConfig.mk None edgeServerHost namespace botProviderName
             botProviderAPIKey)).

Section Agents.
Context `{External}.

(** [func (a *botAgent) NewStreamer(ctx, message)] *)
Definition botAgent_NewStreamer (a : botAgent) (ctx : context)
    (message : option GenericBotMessage)
  : option botProviderStream * option error * list effect :=
  BotProviderClient_NewStreamer (botAgent.client a) ctx message.

(** [func (a *botAgent) SendMessage(ctx, message, isDebug)] *)
Definition botAgent_SendMessage (a : botAgent) (ctx : context)
    (message : option GenericBotMessage) (isDebug : bool)
  : outcome (option GenericBotReply * option error) :=
  SendMessage (botAgent.client a) ctx message isDebug.

(** [func (a *botAgent) UploadBlob(ctx, customChannelID, reader, filename, mime)] *)
Definition botAgent_UploadBlob (a : botAgent) (ctx : context)
    (customChannelID : string) (reader : option string) (filename : string)
    (mime : option string)
  : outcome (option Blob * option error) :=
  UploadBlob (botAgent.client a) ctx customChannelID reader filename mime.

End Agents.

End client.

(** ** The command-line client (package main) *)

Module cli.
Import go models client.

(** [botSession] *)
Module botSession.
Record t : Type := mk {
  channelID : string;
  transport : string;
  debug : bool;
  blobIDs : list string;
  seq : Z
}.

Definition with_channelID (c : string) (s : t) : t :=
  mk c (transport s) (debug s) (blobIDs s) (seq s).
Definition with_transport (x : string) (s : t) : t :=
  mk (channelID s) x (debug s) (blobIDs s) (seq s).
Definition with_debug (b : bool) (s : t) : t :=
  mk (channelID s) (transport s) b (blobIDs s) (seq s).
Definition with_blobIDs (l : list string) (s : t) : t :=
  mk (channelID s) (transport s) (debug s) l (seq s).
Definition with_seq (n : Z) (s : t) : t :=
  mk (channelID s) (transport s) (debug s) (blobIDs s) n.
End botSession.
Abbreviation botSession := botSession.t.
Import botSession.

(** Go's [int] is 64 bits wide here: arithmetic wraps around. *)
Definition int_wrap (z : Z) : Z := (z + 2 ^ 63) `mod` 2 ^ 64 - 2 ^ 63.

(** What happens next while [sendBySSE] runs: the goroutine of the stream
    takes a step, the loop of [sendBySSE] goes on to its next call of
    [Next] ([pick] is the case its select takes when both are ready), or
    the caller's context is cancelled. *)
Inductive tick : Type :=
| goroutine_runs
| loop_runs (pick : select_case)
| context_done (cause : error).

(** What the client takes from its surroundings: the libraries, and for
    each message sent over SSE what the server answers on the stream and
    how the Go scheduler interleaves the goroutine of the stream with the
    loop that reads it. *)
Class Runtime : Type := {
  (** [strings.Fields] *)
  strings_Fields : string -> list string;
  (** [strings.TrimSpace] *)
  strings_TrimSpace : string -> string;
  (** [strings.ToLower] *)
  strings_ToLower : string -> string;
  (** [os.Open]: what the file yields when read, or the error *)
  os_Open : string -> string + error;
  (** [filepath.Base] *)
  filepath_Base : string -> string;
  (** what the server sends on the stream opened for a message *)
  sse_Wire : GenericBotMessage -> Wire;
  (** the interleaving while the answer to a message is read *)
  sse_schedule : GenericBotMessage -> list tick
}.

(** What [fmt.Println()] writes. *)
Definition newline : string := String (Ascii.ascii_of_nat 10) EmptyString.

(** The body of the loop of [sendBySSE] on the event [e]: what it writes
    to the standard output, and the error it returns with, if it does.
    The debug log is left out. *)
Definition sendBySSE_body (e : GenericBotSseEvent) : list string * option error :=
  let fact := GenericBotSseEvent.Fact e in
  if String.eqb (GenericBotSseEvent.EventType e) SseEventTypeMessageDelta then
    match GenericBotSseEventFact.MessageDelta fact with
    | Some delta =>
        let text := BufferedMessage.Text (GenericBotSseEventFactMessage.Message delta) in
        if String.eqb text "" then ([], None) else ([text], None)
    | None => ([], None)
    end
  else if String.eqb (GenericBotSseEvent.EventType e) SseEventTypeMessageComplete then
    ([newline], None)
  else if String.eqb (GenericBotSseEvent.EventType e) SseEventTypeRunError then
    match GenericBotSseEventFact.RunError fact with
    | Some runError =>
        ([], Some (errorString
                     ("run error: " +:+
                      ErrorDetail.Message (GenericBotSseEventFactRunError.Error runError))))
    | None => ([], None)
    end
  else ([], None).

(** Where [sendBySSE] stands after a step of its loop: at the next call
    of [Next] (or inside it, parked: then the mutex is held), with what it
    has written so far; or returned. *)
Inductive progress : Type :=
| Looping (sys : system) (out : list string)
| Returned (out : list string) (err : option error).

(** [defer stream.Close()]: it runs when [sendBySSE] returns, and its
    result is dropped. *)
Definition sendBySSE_return (s : botProviderStream) (out : list string)
    (err : option error) : outcome progress :=
  match Close s with
  | Done _ _ => Returns (Returned out err)
  | Parked _ | WaitsForLock => Blocks
  | Panicked => Panics
  end.

(** One step of [for stream.Next() { e := stream.Current(); switch ... }]
    and of what follows the loop. The loop is the only caller of the
    stream: when the mutex is held, its own call of [Next] is parked and
    is resumed. [e.EventType] follows the pointer [Current] returned. The
    goroutine may run between the return of [Next] and the call of
    [Current]; it touches the channel and adds to the heap, which neither
    [Current] nor the body reads, so the two are taken in one step. *)
Definition sendBySSE_step (pick : select_case) (sys : system) (out : list string)
  : outcome progress :=
  let h := sys_heap sys in
  let s := sys_stream sys in
  match (if botProviderStream.mu s then Next_resume pick h s else Next pick h s) with
  | Panicked => Panics
  | WaitsForLock => Blocks
  | Parked s1 => Returns (Looping (mkSystem h s1 (sys_producer sys)) out)
  | Done true s1 =>
      match Current s1 with
      | Done (Some p) s2 =>
          match h !! p with
          | None => Panics
          | Some e =>
              let '(printed, r) := sendBySSE_body e in
              match r with
              | Some err => sendBySSE_return s2 (out ++ printed) (Some err)
              | None =>
                  Returns (Looping (mkSystem h s2 (sys_producer sys)) (out ++ printed))
              end
          end
      | Done None _ => Panics
      | Parked _ | WaitsForLock => Blocks
      | Panicked => Panics
      end
  | Done false s1 =>
      match Err s1 with
      | Done err s2 => sendBySSE_return s2 out err
      | Parked _ | WaitsForLock => Blocks
      | Panicked => Panics
      end
  end.

(** [strings.TrimPrefix(s, prefix)] *)
Definition strings_TrimPrefix (s prefix : string) : string :=
  if String.prefix prefix s
  then String.substring (String.length prefix)
         (String.length s - String.length prefix) s
  else s.

(** [fmt.Sprintf("cli-message-%d-%d", time.Now().Unix(), session.seq)] *)
Definition messageID (now seq : Z) : string :=
  "cli-message-" +:+ pretty now +:+ "-" +:+ pretty seq.

Section Client.
Context `{External} `{Runtime}.

(** [uploadBlob(ctx, a, channelID, filePath, mimeType)] *)
Definition uploadBlob (ctx : context) (a : botAgent)
    (channelID filePath mimeType : string)
  : outcome (option Blob * option error) :=
  match os_Open filePath with
  | inr e => mret (None, Some (Errorf_w "failed to open file: " (Some e)))
  | inl file =>
      let filename := filepath_Base filePath in
      let mime := if String.eqb mimeType "" then None else Some mimeType in
      botAgent_UploadBlob a ctx channelID (Some file) filename mime
  end.

(** [sendByREST(ctx, a, msg, debug)]. What it prints is left out. The
    reply is dereferenced for the debug log whenever the error is nil. *)
Definition sendByREST (ctx : context) (a : botAgent) (msg : GenericBotMessage)
    (debug : bool) : outcome (option error) :=
  r ← botAgent_SendMessage a ctx (Some msg) debug;
  match r with
  | (_, Some err) => mret (Some err)
  | (Some reply, None) => mret None
  | (None, None) => Panics
  end.

(** The loop of [sendBySSE] under an interleaving, from the system the
    stream and its goroutine make up: what was written and the error
    returned. When the interleaving ends before the function returned, it
    has not returned: [Blocks]. *)
Fixpoint sendBySSE_loop (sched : list tick) (sys : system) (out : list string)
  : outcome (list string * option error) :=
  match sched with
  | [] => Blocks
  | goroutine_runs :: sched =>
      match exec sys producer_runs with
      | Stepped _ sys' => sendBySSE_loop sched sys' out
      | NotEnabled => sendBySSE_loop sched sys out
      | Crashed => Panics
      end
  | context_done cause :: sched =>
      match exec sys (ctx_cancelled cause) with
      | Stepped _ sys' => sendBySSE_loop sched sys' out
      | NotEnabled => sendBySSE_loop sched sys out
      | Crashed => Panics
      end
  | loop_runs pick :: sched =>
      match sendBySSE_step pick sys out with
      | Returns (Looping sys' out') => sendBySSE_loop sched sys' out'
      | Returns (Returned out' err) => Returns (out', err)
      | Blocks => Blocks
      | Panics => Panics
      end
  end.

(** [sendBySSE(ctx, a, msg)] with what it writes to the standard output.
    A nil stream with a nil error would be dereferenced by the deferred
    call. *)
Definition sendBySSE_output (ctx : context) (a : botAgent) (msg : GenericBotMessage)
  : outcome (list string * option error) :=
  match botAgent_NewStreamer a ctx (Some msg) with
  | (_, Some err, _) => Returns ([], Some err)
  | (None, None, _) => Panics
  | (Some stream, None, _) =>
      sendBySSE_loop (sse_schedule msg) (launch (sse_Wire msg) stream) []
  end.

(** [sendBySSE(ctx, a, msg)] *)
Definition sendBySSE (ctx : context) (a : botAgent) (msg : GenericBotMessage)
  : outcome (option error) :=
  r ← sendBySSE_output ctx a msg; mret r.2.

(** [sendBotMessage(ctx, a, session, text, action)]; [now] is what
    [time.Now().Unix()] reads. It returns the session as it leaves it. *)
Definition sendBotMessage (ctx : context) (a : botAgent) (session : botSession)
    (text : string) (action : PostBackAction) (now : Z)
  : outcome (botSession * option error) :=
  let session := with_seq (int_wrap (seq session + 1)) session in
  let msg :=
    GenericBotMessage.mk (channelID session) (messageID now (seq session))
      text action (blobIDs session) ∅ in
  if String.eqb (transport session) "rest" then
    e ← sendByREST ctx a msg (debug session); mret (session, e)
  else if String.eqb (transport session) "sse" then
    e ← sendBySSE ctx a msg; mret (session, e)
  else
    mret (session,
          Some (errorString ("unsupported transport: " +:+ transport session))).

(** [handleBotCommand(ctx, a, session, input)]: the session as it leaves
    it, whether the loop goes on, and the error. [parts[0]] panics when
    the input has no field. *)
Definition handleBotCommand (ctx : context) (a : botAgent) (session : botSession)
    (input : string) (now : Z)
  : outcome (botSession * bool * option error) :=
  match strings_Fields input with
  | [] => Panics
  | cmd :: args =>
      if String.eqb cmd "/help" then mret (session, true, None)
      else if String.eqb cmd "/exit" || String.eqb cmd "/quit" then
        mret (session, false, None)
      else if String.eqb cmd "/transport" then
        match args with
        | [t] =>
            if String.eqb t "sse" || String.eqb t "rest"
            then mret (with_transport t session, true, None)
            else mret (session, true, Some (errorString "usage: /transport sse|rest"))
        | _ => mret (session, true, Some (errorString "usage: /transport sse|rest"))
        end
      else if String.eqb cmd "/debug" then
        match args with
        | [d] =>
            if String.eqb d "on" || String.eqb d "off"
            then mret (with_debug (String.eqb d "on") session, true, None)
            else mret (session, true, Some (errorString "usage: /debug on|off"))
        | _ => mret (session, true, Some (errorString "usage: /debug on|off"))
        end
      else if String.eqb cmd "/blob" then
        match args with
        | [] => mret (session, true, Some (errorString "usage: /blob <path> [mime]"))
        | path :: more =>
            let mimeType := match more with m :: _ => m | [] => "" end in
            r ← uploadBlob ctx a (channelID session) path mimeType;
            match r with
            | (_, Some err) => mret (session, true, Some err)
            | (Some blob, None) =>
                mret (with_blobIDs (blobIDs session ++ [Blob.BlobId blob]) session,
                      true, None)
            | (None, None) => Panics
            end
        end
      else if String.eqb cmd "/blobs" then mret (session, true, None)
      else if String.eqb cmd "/clear-blobs" then
        mret (with_blobIDs [] session, true, None)
      else if String.eqb cmd "/channel" then
        match args with
        | [] => mret (session, true, None)
        | c :: _ => mret (with_channelID c session, true, None)
        end
      else if String.eqb cmd "/reset" then
        let msg :=
          match args with
          | [] => "reset"
          | _ :: _ => strings_TrimSpace (strings_TrimPrefix input "/reset")
          end in
        '(session', err) ← sendBotMessage ctx a session msg PostBackActionResetChanel now;
        mret (session', true, err)
      else
        mret (session, true,
              Some (errorString ("unknown command: " +:+ cmd +:+ " (use /help)")))
  end.

(** One turn of the loop of [runBotREPL] on a line read from the input,
    after the check of the context: the session, whether the loop goes on,
    and the error the loop logs. *)
Definition runBotREPL_turn (ctx : context) (a : botAgent) (session : botSession)
    (line : string) (now : Z)
  : outcome (botSession * bool * option error) :=
  let input := strings_TrimSpace line in
  if String.eqb input "" then mret (session, true, None)
  else if String.prefix "/" input then handleBotCommand ctx a session input now
  else
    '(session', err) ← sendBotMessage ctx a session input PostBackActionNone now;
    mret (session', true, err).

(** [runBotREPL(ctx, a, session)]. Each turn comes with the context as it
    stands when the turn starts, the line read and the clock; [finally] is
    the context when the input ends and [scanErr] the error of the
    scanner. It returns the session as it leaves it and its error. *)
Fixpoint runBotREPL (a : botAgent) (session : botSession)
    (turns : list (context * string * Z)) (finally : context)
    (scanErr : option error)
  : outcome (botSession * option error) :=
  match turns with
  | [] =>
      match ctx_Err finally with
      | Some err => mret (session, Some err)
      | None =>
          match scanErr with
          | Some e => mret (session, Some (Errorf_w "failed to read input: " (Some e)))
          | None => mret (session, None)
          end
      end
  | (ctx, line, now) :: turns =>
      match ctx_Err ctx with
      | Some err => mret (session, Some err)
      | None =>
          match runBotREPL_turn ctx a session line now with
          | Returns (session', keepGoing, _) =>
              if keepGoing then runBotREPL a session' turns finally scanErr
              else mret (session', None)
          | Blocks => Blocks
          | Panics => Panics
          end
      end
  end.

End Client.

(** The session [runBot] starts with, from the flags [-channel],
    [-transport] and [-debug]; [None] where it stops with [log.Fatalf]. *)
Definition runBot_session `{Runtime}
    (channelFlag transportFlag : string) (debugFlag : bool) (now : Z)
  : option botSession :=
  let initialChannelID := strings_TrimSpace channelFlag in
  let initialChannelID :=
    if String.eqb initialChannelID "" then "cli-channel-" +:+ pretty now
    else initialChannelID in
  let initialTransport := strings_ToLower (strings_TrimSpace transportFlag) in
  if negb (String.eqb initialTransport "sse") && negb (String.eqb initialTransport "rest")
  then None
  else Some (botSession.mk initialChannelID initialTransport debugFlag [] 0).

End cli.

(** ** The event types as the specification lists them *)

Module spec.

(** The ten wire values, in the words of the specification. *)
Definition event_type_values : list string :=
  [ "run.init"; "run.done"; "run.error"; "process.start"; "process.complete";
    "message.start"; "message.delta"; "message.complete";
    "tool_call.start"; "tool_call.complete" ].

End spec.

(** ** A concrete implementation of the libraries, for running examples:
    a frame's data stands for the event type of the event it decodes to,
    and the frame [!] is not JSON. *)

Module sample.
Import go models client.

Definition location : ErrorLocation :=
  ErrorLocation.mk "default" "wf" "llm" "LLM" "cfg" "p-1".

Definition detail : ErrorDetail :=
  ErrorDetail.mk "quota exceeded" "E429" "" location.

Definition fact_of (eventType : string) : GenericBotSseEventFact :=
  GenericBotSseEventFact.mk
    (if String.eqb eventType SseEventTypeRunInit
     then Some GenericBotSseEventFactRunInit.mk else None)
    (if String.eqb eventType SseEventTypeRunDone
     then Some GenericBotSseEventFactRunDone.mk else None)
    (if String.eqb eventType SseEventTypeRunError
     then Some (GenericBotSseEventFactRunError.mk detail) else None)
    None None None None None None None.

Definition event_of (eventType : string) : GenericBotSseEvent :=
  GenericBotSseEvent.mk eventType "req-1" "ev-1" "default" "my-bot" "c1"
    (fact_of eventType).

(** An event of the given type whose fact object is empty. *)
Definition bare_event_of (eventType : string) : GenericBotSseEvent :=
  GenericBotSseEvent.mk eventType "req-1" "ev-1" "default" "my-bot" "c1"
    (GenericBotSseEventFact.mk None None None None None None None None None None).

(** A frame [-T] decodes to the event of type [T] with an empty fact: what
    encoding/json yields for a payload whose fact object has no member. *)
Definition unmarshal_event (data : string) : GenericBotSseEvent + error :=
  if String.eqb data "!"
  then inr (errorString "invalid character '!' looking for beginning of value")
  else match data with
       | String c eventType =>
           if Ascii.eqb c (Ascii.ascii_of_nat 45)
           then inl (bare_event_of eventType)
           else inl (event_of data)
       | EmptyString => inl (event_of data)
       end.


Definition envelope {T} (data : T) (body : string) : apiResponse T + error :=
  if String.eqb body "!"
  then inr (errorString "invalid character '!' looking for beginning of value")
  else inl (apiResponse.mk false data (Some "bad payload") (Some "E400")).

#[local] Instance external : External := {|
  json_Marshal_message := fun m => inl (GenericBotMessage.Text m);
  json_Marshal_payload := fun _ => inl "{}";
  json_Unmarshal_event := unmarshal_event;
  json_Unmarshal_any := fun s => inl (any_string s);
  json_Unmarshal_reply :=
    envelope (GenericBotReply.mk "" "" "" "" [] None);
  json_Unmarshal_raw := envelope "";
  json_Unmarshal_blobs := envelope [];
  http_NewRequest_check := fun _ _ _ => None;
  CanonicalMIMEHeaderKey := fun k => k;
  url_PathEscape := fun s => s;
  multipart_boundary := "b";
  http_Do := fun _ _ => inl (Response.mk 200 (inl "{}"));
  http_reads_body := fun _ _ => true
|}.

Definition config : BotProviderConfig :=
  BotProviderConfig.mk None "http://localhost:8080" "default" "my-bot" "key".

Definition message : GenericBotMessage :=
  GenericBotMessage.mk "c1" "m1" "hi" PostBackActionNone [] ∅.

Definition background : context := mkContext None.

(** The handle [NewStreaming] returns for them. *)
Definition stream : botProviderStream :=
  match NewStreaming background (Some config) (Some message) with
  | (Some s, _, _) => s
  | _ => botProviderStream.mk background config message
           (sse_Client.mk None (-1)) None (make_chan 100) None None false false
  end.

(** The stream with one item queued. *)
Definition holding (w : GenericBotSseEventWrapper) : botProviderStream :=
  botProviderStream.with_eventChan (mkChan [w] 100 false) stream.

(** The stream after the caller cancelled its context. *)
Definition cancelled (s : botProviderStream) : botProviderStream :=
  botProviderStream.with_ctx (cancel context_Canceled (botProviderStream.ctx s)) s.

End sample.

(** ** Systems the sample stream reaches, for running examples *)

Module scenario.
Import go models client.

(** The system the sample stream is in after a schedule, on a wire. *)
Definition after (sched : list action) (w : Wire) : system :=
  match @run sample.external sched (launch w sample.stream) with
  | Some (_, sys) => sys
  | None => launch w sample.stream
  end.

(** One event and a clean end. *)
Definition one_event : Wire := mkWire ["asgard.run.init"] (Some io_EOF).

(** A clean end with no event. *)
Definition no_event : Wire := mkWire [] (Some io_EOF).

(** More events than the channel holds. *)
Definition many_events : Wire :=
  mkWire (replicate 101 "asgard.message.delta") (Some io_EOF).

(** A [run.error] event whose fact object is empty. *)
Definition bare_run_error : Wire := mkWire ["-asgard.run.error"] (Some io_EOF).

(** One event, then the connection breaks. *)
Definition broken : Wire :=
  mkWire ["asgard.run.init"] (Some (errorString "unexpected EOF")).

End scenario.

(** ** A server that accepts, for running examples: every request is
    answered with status 200 and an envelope with [isSuccess] true. *)

Module accepting.
Import go models client.

Definition reply : GenericBotReply := GenericBotReply.mk "" "" "" "" [] None.

Definition blob : Blob := Blob.mk "c1" "blob-1" FileTypeBinary None 0 "".

#[local] Instance external : External := {|
  json_Marshal_message := fun m => inl (GenericBotMessage.Text m);
  json_Marshal_payload := fun _ => inl "{}";
  json_Unmarshal_event := sample.unmarshal_event;
  json_Unmarshal_any := fun s => inl (any_string s);
  json_Unmarshal_reply := fun _ => inl (apiResponse.mk true reply None None);
  json_Unmarshal_raw := fun body => inl (apiResponse.mk true body None None);
  json_Unmarshal_blobs :=
    fun body => inl (apiResponse.mk true
                       (if String.eqb body "[]" then [] else [blob]) None None);
  http_NewRequest_check := fun _ _ _ => None;
  CanonicalMIMEHeaderKey := fun k => k;
  url_PathEscape := fun s => s;
  multipart_boundary := "b";
  http_Do := fun _ _ => inl (Response.mk 200 (inl "{}"));
  http_reads_body := fun _ _ => true
|}.

End accepting.

(** ** A server that cannot be reached: the transport fails. *)

Module refusing.
Import go models client.

Definition cause : error := errorString "dial tcp: connection refused".

#[local] Instance external : External := {|
  json_Marshal_message := @json_Marshal_message sample.external;
  json_Marshal_payload := @json_Marshal_payload sample.external;
  json_Unmarshal_event := @json_Unmarshal_event sample.external;
  json_Unmarshal_any := @json_Unmarshal_any sample.external;
  json_Unmarshal_reply := @json_Unmarshal_reply sample.external;
  json_Unmarshal_raw := @json_Unmarshal_raw sample.external;
  json_Unmarshal_blobs := @json_Unmarshal_blobs sample.external;
  http_NewRequest_check := fun _ _ _ => None;
  CanonicalMIMEHeaderKey := fun k => k;
  url_PathEscape := fun s => s;
  multipart_boundary := "b";
  http_Do := fun _ _ => inr cause;
  http_reads_body := fun _ _ => false
|}.

End refusing.

(** ** A message that cannot be marshalled. *)

Module unmarshallable.
Import go models client.

Definition cause : error := errorString "json: unsupported value: +Inf".

#[local] Instance external : External := {|
  json_Marshal_message := fun _ => inr cause;
  json_Marshal_payload := fun _ => inr cause;
  json_Unmarshal_event := @json_Unmarshal_event sample.external;
  json_Unmarshal_any := @json_Unmarshal_any sample.external;
  json_Unmarshal_reply := @json_Unmarshal_reply sample.external;
  json_Unmarshal_raw := @json_Unmarshal_raw sample.external;
  json_Unmarshal_blobs := @json_Unmarshal_blobs sample.external;
  http_NewRequest_check := fun _ _ _ => None;
  CanonicalMIMEHeaderKey := fun k => k;
  url_PathEscape := fun s => s;
  multipart_boundary := "b";
  http_Do := fun _ _ => inl (Response.mk 200 (inl "{}"));
  http_reads_body := fun _ _ => true
|}.

End unmarshallable.

(** ** A gateway that is down: every request is answered with status 503
    and a body of plain text, which is not JSON. *)

Module unavailable.
Import go models client.

Definition text : string := "Service Unavailable".

Definition cause : error :=
  errorString "invalid character 'S' looking for beginning of value".

(** A body that does not open an object is not an envelope. *)
Definition envelope {T} (data : T) (body : string) : apiResponse T + error :=
  if String.prefix "{" body
  then inl (apiResponse.mk false data (Some "bad payload") (Some "E400"))
  else inr cause.

#[local] Instance external : External := {|
  json_Marshal_message := @json_Marshal_message sample.external;
  json_Marshal_payload := @json_Marshal_payload sample.external;
  json_Unmarshal_event := @json_Unmarshal_event sample.external;
  json_Unmarshal_any := @json_Unmarshal_any sample.external;
  json_Unmarshal_reply := envelope (GenericBotReply.mk "" "" "" "" [] None);
  json_Unmarshal_raw := envelope "";
  json_Unmarshal_blobs := envelope [];
  http_NewRequest_check := fun _ _ _ => None;
  CanonicalMIMEHeaderKey := fun k => k;
  url_PathEscape := fun s => s;
  multipart_boundary := "b";
  http_Do := fun _ _ => inl (Response.mk 503 (inl text));
  http_reads_body := fun _ _ => true
|}.

End unavailable.

(** ** A console, for running examples of the command-line client: fields
    are separated by single spaces, every file can be opened, and the
    server answers every message sent over SSE with two pieces of text.
    The loop of [sendBySSE] starts before the first frame arrives. *)

Module console.
Import go models client cli.

(** The fields of [s], [cur] being the field read so far. *)
Fixpoint fields (s cur : string) : list string :=
  match s with
  | EmptyString => if String.eqb cur "" then [] else [cur]
  | String c rest =>
      if Ascii.eqb c (Ascii.ascii_of_nat 32)
      then (if String.eqb cur "" then fields rest ""
            else cur :: fields rest "")
      else fields rest (cur +:+ String c "")
  end.

(** What the server sends on a stream. *)
Definition answer : Wire :=
  mkWire ["asgard.run.init"; "asgard.message.delta"; "asgard.message.delta";
          "asgard.message.complete"; "asgard.run.done"] (Some io_EOF).

(** The loop and the goroutine take turns. *)
Definition interleaving : list tick :=
  concat (replicate 8 [loop_runs case_eventChan; goroutine_runs]).

(** The console in front of a server that sends [w] on every stream. *)
Definition runtime_on (w : Wire) (sched : list tick) : Runtime := {|
  strings_Fields := fun s => fields s "";
  strings_TrimSpace := fun s => s;
  strings_ToLower := fun s => s;
  os_Open := fun _ => inl "bytes";
  filepath_Base := fun s => s;
  sse_Wire := fun _ => w;
  sse_schedule := fun _ => sched
|}.

#[local] Instance runtime : Runtime := runtime_on answer interleaving.

(** The session [runBot] starts with when no flag is given, at time 0. *)
Definition session : botSession :=
  botSession.mk "cli-channel-0" "sse" false [] 0.

(** The agent of the sample configuration. *)
Definition agent : botAgent :=
  NewBotAgent "http://localhost:8080" "default" "my-bot" "key".

End console.

(** ** Notions the statements below use *)

Module notions.
Import go models client botProviderStream.

(** What an item of the channel stands for once its pointer is followed:
    a decoded event, or an error. *)
Inductive item : Type :=
| item_event (ev : GenericBotSseEvent)
| item_error (e : error).

Definition view (h : heap) (w : GenericBotSseEventWrapper) : option item :=
  match GenericBotSseEventWrapper.ConnectionError w with
  | Some e => Some (item_error e)
  | None =>
      p ← GenericBotSseEventWrapper.Event w;
      ev ← h !! p;
      Some (item_event ev)
  end.

(** An event whose type tag is [run.error]. *)
Definition is_run_error (ev : GenericBotSseEvent) : bool :=
  String.eqb (GenericBotSseEvent.EventType ev) SseEventTypeRunError.

(** The error detail of an event, when its [RunError] fact is present. *)
Definition run_error_detail (ev : GenericBotSseEvent) : option ErrorDetail :=
  GenericBotSseEventFactRunError.Error <$>
    GenericBotSseEventFact.RunError (GenericBotSseEvent.Fact ev).

(** The text of the error [Next] stores for a [run.error] event. *)
Definition stream_error (d : ErrorDetail) : error :=
  errorString ("SSE stream error: " +:+ fmt_s_ErrorDetail d).

(** The item the subscriber sends for a frame. *)
Definition decoded `{External} (data : string) : item :=
  match json_Unmarshal_event data with
  | inl ev => item_event ev
  | inr e => item_error (Errorf_w "failed to unmarshal event: " (Some e))
  end.

(** The items the goroutine still has to send. *)
Definition to_send `{External} (p : producer) : list item :=
  match p with
  | Connecting frames r =>
      (decoded <$> frames) ++
      (if errors_Is_EOF r then []
       else [item_error (Errorf_w "SSE connection failed: " r)])
  | Closing | Exited => []
  end.

(** The steps the goroutine still has to take. *)
Definition steps_left (p : producer) : nat :=
  match p with
  | Connecting frames _ => length frames + 2
  | Closing => 1
  | Exited => 0
  end.

(** What holds of every system a launched stream can reach. *)
Record sane (sys : system) : Prop := mkSane {
  sane_closed :
    chan_closed (eventChan (sys_stream sys)) = true <-> sys_producer sys = Exited;
  sane_cap : (0 < chan_cap (eventChan (sys_stream sys)))%nat;
  sane_mu :
    mu (sys_stream sys) = true ->
    closed (sys_stream sys) = false ∧ err (sys_stream sys) = None;
  sane_items :
    Forall (fun w => is_Some (view (sys_heap sys) w))
      (chan_buf (eventChan (sys_stream sys)));
  sane_current :
    closed (sys_stream sys) = true -> currentEvent (sys_stream sys) = None
}.

(** The error [Next] stores when it receives an item that ends the
    iteration: an error item, or a [run.error] event with its fact. *)
Definition stops (it : item) : option error :=
  match it with
  | item_error e => Some e
  | item_event ev =>
      if is_run_error ev then stream_error <$> run_error_detail ev else None
  end.

(** How a sequence of items that starts where the deliverable events end
    ends the iteration: with no error when there is none, with the error
    of its first item otherwise. *)
Definition ends_with (tail : list item) (ending : option error) : Prop :=
  match tail with
  | [] => ending = None
  | it :: _ => is_Some ending ∧ stops it = ending
  end.

(** The invariant of an iteration over the items [(item_event <$> evs) ++
    tail]: [n] events were delivered so far, and [fin] tells whether [Next]
    has returned false. *)
Record tracks `{External} (evs : list GenericBotSseEvent) (tail : list item)
    (ending : option error) (n : nat) (fin : bool) (sys : system) : Prop := mkTracks {
  tracks_sane : sane sys;
  tracks_open : closed (sys_stream sys) = false;
  tracks_ctx : ctx_Err (ctx (sys_stream sys)) = None;
  tracks_n : (n <= length evs)%nat;
  tracks_current : current_event sys = last (take n evs);
  tracks_nil : n = 0%nat -> currentEvent (sys_stream sys) = None;
  tracks_live :
    fin = false ->
    err (sys_stream sys) = None
    ∧ ∃ its,
        Forall2 (fun w it => view (sys_heap sys) w = Some it)
          (chan_buf (eventChan (sys_stream sys))) its
        ∧ its ++ to_send (sys_producer sys) = drop n ((item_event <$> evs) ++ tail);
  tracks_fin :
    fin = true ->
    n = length evs
    ∧ mu (sys_stream sys) = false
    ∧ err (sys_stream sys) = ending
    ∧ (ending = None ->
       chan_buf (eventChan (sys_stream sys)) = []
       ∧ chan_closed (eventChan (sys_stream sys)) = true)
}.

(** What one step of an iterating schedule shows to the consumer, and how
    it moves the count of delivered events and the flag. *)
Definition moves (sys : system) (n : nat) (fin : bool) (o : list observation)
    (n' : nat) (fin' : bool) : Prop :=
  (o = [] ∧ n' = n ∧ fin' = fin)
  ∨ (o = [Next_returned true] ∧ fin = false ∧ n' = S n ∧ fin' = false)
  ∨ (o = [Next_returned false] ∧ n' = n ∧ fin' = true)
  ∨ (o = [Current_returned (currentEvent (sys_stream sys))] ∧ n' = n ∧ fin' = fin)
  ∨ (o = [Err_returned (err (sys_stream sys))] ∧ n' = n ∧ fin' = fin).

(** What a consumer that iterates over the events [evs] expects to see,
    call by call, after [n] deliveries ([fin]: [Next] has returned false):
    [Next] returns true while events are left, and false only when none
    is; [Current] returns a pointer to the event delivered last (nil
    before the first); [Err] returns nil until [Next] has returned false,
    and [ending] from then on. [h] is the heap the pointers are read in. *)
Fixpoint observes (evs : list GenericBotSseEvent) (ending : option error)
    (h : heap) (n : nat) (fin : bool) (obs : list observation) : Prop :=
  match obs with
  | [] => True
  | Next_returned true :: obs =>
      fin = false ∧ (n < length evs)%nat ∧ observes evs ending h (S n) false obs
  | Next_returned false :: obs =>
      n = length evs ∧ observes evs ending h n true obs
  | Current_returned p :: obs =>
      (p ≫= (h !!.)) = last (take n evs) ∧ observes evs ending h n fin obs
  | Err_returned e :: obs =>
      e = (if fin then ending else None) ∧ observes evs ending h n fin obs
  | Close_returned _ :: obs => observes evs ending h n fin obs
  end.

(** What the consumer of the system [sys0] sees when it only iterates,
    under every schedule. First, the program does not crash and the calls
    returned what a consumer of [evs] expects ([observes]); in particular
    [Next] has returned true [n] times and then false [j] times, [n] is at
    most the number of [evs], the current event is the [n]-th of [evs], no
    error is stored before the first false, and at the first false all of
    [evs] were delivered and the stored error is [ending]. Second, the
    schedule can always be continued so that [Next] has returned true for
    every one of [evs] and then false. *)
Definition delivers `{External} (sys0 : system) (evs : list GenericBotSseEvent)
    (ending : option error) : Prop :=
  ∀ sched, Forall (fun a => iterates a = true) sched ->
    (∃ obs sys' n j,
       run sched sys0 = Some (obs, sys')
       ∧ observes evs ending (sys_heap sys') 0 false obs
       ∧ Next_results obs = replicate n true ++ replicate j false
       ∧ (n <= length evs)%nat
       ∧ current_event sys' = last (take n evs)
       ∧ (j = 0%nat -> err (sys_stream sys') = None)
       ∧ ((0 < j)%nat -> n = length evs ∧ err (sys_stream sys') = ending))
    ∧ (∃ ext obs sys' j,
         Forall (fun a => iterates a = true) ext
         ∧ run (sched ++ ext) sys0 = Some (obs, sys')
         ∧ Next_results obs = replicate (length evs) true ++ replicate (S j) false
         ∧ current_event sys' = last evs
         ∧ err (sys_stream sys') = ending).

(** A stream whose iteration is over: it was closed, it stored an error,
    or its channel is closed and drained. *)
Definition ended (s : botProviderStream) : Prop :=
  closed s = true ∨ err s ≠ None
  ∨ (chan_buf (eventChan s) = [] ∧ chan_closed (eventChan s) = true).

(** A stream [Next] no longer receives from. *)
Definition abandoned (s : botProviderStream) : Prop :=
  closed s = true ∨ err s ≠ None.

(** The items nobody has received: those queued in the channel and those
    the goroutine still has to send. *)
Definition outstanding `{External} (sys : system) : nat :=
  length (chan_buf (eventChan (sys_stream sys)))
  + length (to_send (sys_producer sys)).

(** An event [Next] can process without dereferencing a nil fact. *)
Definition carries_fact (ev : GenericBotSseEvent) : Prop :=
  is_run_error ev = true -> is_Some (run_error_detail ev).

(** A frame that, if it decodes, decodes to such an event. *)
Definition well_formed `{External} (data : string) : Prop :=
  ∀ ev, json_Unmarshal_event data = inl ev -> carries_fact ev.

(** The frames [Connect] has still to dispatch. *)
Definition frames_left (p : producer) : list string :=
  match p with
  | Connecting frames _ => frames
  | Closing | Exited => []
  end.

(** A sane system none of whose events, decoded or still to come, lacks
    its fact. *)
Record safe `{External} (sys : system) : Prop := mkSafe {
  safe_sane : sane sys;
  safe_heap : Forall carries_fact (sys_heap sys);
  safe_frames : Forall well_formed (frames_left (sys_producer sys))
}.

(** The requests of a client a server recognises: a POST to [url] with the
    body [body] that carries the API key of the configuration. *)
Definition posted `{External} (c : BotProviderClient) (url : string)
    (body : Body) (req : Request) : Prop :=
  Request.Method req = "POST"
  ∧ Request.URL req = url
  ∧ Request.Body req = body
  ∧ (CanonicalMIMEHeaderKey "X-API-KEY",
     BotProviderConfig.BotProviderApiKey (BotProviderClient.config c))
    ∈ Request.Header req.

(** The items the goroutine sends on a wire, in order. *)
Definition items_of `{External} (w : Wire) : list item :=
  to_send (Connecting (frames w) (result w)).

(** How often [Next] returned true. *)
Definition deliveries (obs : list observation) : nat :=
  sum_list_with (fun b : bool => if b then 1%nat else 0%nat) (Next_results obs).

(** The invariant of a stream under any schedule, cancellation and
    [Close] included: the [n] events delivered so far are the first [n]
    items of the wire, and what is queued and still to send are the items
    from some later position on (the same position unless the stream was
    given up). *)
Record follows `{External} (all : list item) (n : nat) (sys : system) : Prop :=
  mkFollows {
  follows_sane : sane sys;
  follows_nil : n = 0%nat -> currentEvent (sys_stream sys) = None;
  follows_delivered :
    ∃ dl, length dl = n
          ∧ take n all = item_event <$> dl
          ∧ Forall (fun ev => is_run_error ev = false) dl
          ∧ (closed (sys_stream sys) = false -> current_event sys = last dl);
  follows_rest :
    ∃ m its,
      (n <= m)%nat
      ∧ Forall2 (fun w it => view (sys_heap sys) w = Some it)
          (chan_buf (eventChan (sys_stream sys))) its
      ∧ its ++ to_send (sys_producer sys) = drop m all
      ∧ (m = n ∨ abandoned (sys_stream sys))
}.

(** A session whose transport is one of the two the client knows. *)
Definition valid_transport (session : cli.botSession) : Prop :=
  cli.botSession.transport session = "sse"
  ∨ cli.botSession.transport session = "rest".

End notions.

(** * Properties *)

(** ** Strings *)

Module strings.
Import go.

Lemma prefix_refl_app (s t : string) : String.prefix s (s +:+ t) = true.
Proof.
  induction s as [|a s IH]; simpl.
  - by destruct t.
  - destruct (Ascii.ascii_dec a a); [exact IH | done].
Qed.

Lemma Contains_unfold (s sub : string) :
  strings_Contains s sub =
    if String.prefix sub s then true
    else match s with
         | EmptyString => false
         | String _ s' => strings_Contains s' sub
         end.
Proof. by destruct s. Qed.

Lemma Contains_here (sub post : string) : strings_Contains (sub +:+ post) sub = true.
Proof. by rewrite Contains_unfold, prefix_refl_app. Qed.

Lemma if_same {A} (b : bool) (x : A) : (if b then x else x) = x.
Proof. by destruct b. Qed.

Lemma Contains_app_r (s t sub : string) :
  strings_Contains t sub = true -> strings_Contains (s +:+ t) sub = true.
Proof.
  intros Ht. induction s as [|a s IH]; [done|].
  rewrite Contains_unfold. simpl. rewrite IH. apply if_same.
Qed.

Lemma append_nil_r (s : string) : s +:+ "" = s.
Proof.
  induction s as [|a s IH]; [done|].
  change (String a (s +:+ "") = String a s). by f_equal.
Qed.

Lemma Contains_refl (s : string) : strings_Contains s s = true.
Proof. pose proof (Contains_here s "") as Hs. by rewrite append_nil_r in Hs. Qed.

End strings.

(** ** The constructor *)

Module constructor.
Import go models client.

Section Facts.
Context `{External}.

(** [connect] starts the goroutine exactly when it returns no error. *)
Lemma connect_cases (s : botProviderStream) :
  (∃ e, connect s = (s, Some e, []))
  ∨ (∃ conn, connect s = (botProviderStream.with_connection (Some conn) s, None,
                           [go_Connect conn])).
Proof.
  unfold connect.
  destruct (json_Marshal_message _); [|left; eauto].
  destruct (http_NewRequestWithContext _ _ _ _); [right|left]; eauto.
Qed.

(** [NewStreaming] returns a handle or an error, never both and never
    neither; a goroutine runs exactly when a handle is returned. *)
Lemma NewStreaming_cases (ctx : context) (config : option BotProviderConfig)
    (message : option GenericBotMessage) :
  (∃ e, NewStreaming ctx config message = (None, Some e, []))
  ∨ (∃ s conn, NewStreaming ctx config message = (Some s, None, [go_Connect conn])).
Proof.
  unfold NewStreaming.
  destruct config as [config|]; [|left; eauto].
  destruct message as [message|]; [|left; eauto].
  match goal with |- context [connect ?s] => destruct (connect_cases s) as [[e E]|[conn E]] end;
    rewrite E; [left|right]; eauto.
Qed.

(** C4: with a nil configuration or a nil message [NewStreaming] returns no
    handle and a non-nil error, and nothing was started: no request was
    built and no goroutine runs, so there is no iterator through which the
    problem could surface later. *)
Theorem NewStreaming_nil (ctx : context) (config : option BotProviderConfig)
    (message : option GenericBotMessage) :
  config = None ∨ message = None ->
  ∃ e, NewStreaming ctx config message = (None, Some e, [])
       ∧ (e = errorString "config cannot be nil"
          ∨ e = errorString "message cannot be nil").
Proof.
  unfold NewStreaming. intros [-> | ->].
  - eauto.
  - destruct config; eauto.
Qed.

End Facts.

(** A nil configuration with a message. *)
Lemma NewStreaming_nil_witness :
  ∃ e, @NewStreaming sample.external sample.background None (Some sample.message)
         = (None, Some e, [])
       ∧ (e = errorString "config cannot be nil"
          ∨ e = errorString "message cannot be nil").
Proof. apply NewStreaming_nil. by left. Defined.

End constructor.

(** ** The methods of the stream *)

Module methods.
Import go models client botProviderStream notions.

(** What the receive case does with an item, by what the item stands for. *)
Lemma Next_recv_item (h : heap) (s : botProviderStream)
    (w : GenericBotSseEventWrapper) (ch : chan GenericBotSseEventWrapper)
    (it : item) :
  view h w = Some it ->
  Next_recv h s (Some w, ch) =
    match it with
    | item_error e => Returns (false, with_err (Some e) (with_eventChan ch s))
    | item_event ev =>
        if is_run_error ev then
          match run_error_detail ev with
          | Some d =>
              Returns (false, with_err (Some (stream_error d)) (with_eventChan ch s))
          | None => Panics
          end
        else
          Returns (true,
                   with_currentEvent (GenericBotSseEventWrapper.Event w)
                     (with_eventChan ch s))
    end.
Proof.
  unfold view, Next_recv, is_run_error, run_error_detail, stream_error.
  destruct w as [p [e|]]; simpl.
  - by intros [= <-].
  - destruct p as [p|]; simpl; [|done].
    destruct (h !! p) as [ev|]; simpl; [|done].
    intros [= <-].
    destruct (String.eqb _ _); [|done].
    by destruct (GenericBotSseEventFact.RunError _).
Qed.

(** The select statement when only the channel can be ready, or is chosen. *)
Lemma Next_select_recv (pick : select_case) (h : heap) (s : botProviderStream) :
  ctx_Err (ctx s) = None ∨ pick = case_eventChan ->
  chan_recv (eventChan s) ≠ Blocks ->
  Next_select pick h s = r ← chan_recv (eventChan s); Next_recv h s r.
Proof.
  unfold Next_select. intros Hpick Hready.
  destruct (chan_recv (eventChan s)) as [r| |]; simpl; [|done|done].
  destruct (ctx_Err (ctx s)); [|done].
  by destruct Hpick as [?| ->].
Qed.

(** The select statement when only the context can be ready, or is chosen. *)
Lemma Next_select_done (pick : select_case) (h : heap) (s : botProviderStream)
    (cause : error) :
  ctx_Err (ctx s) = Some cause ->
  chan_recv (eventChan s) = Blocks ∨ pick = case_ctxDone ->
  Next_select pick h s = Returns (false, with_err (Some cause) s).
Proof.
  unfold Next_select, Next_done. intros -> Hpick.
  destruct (chan_recv (eventChan s)) as [r| |] eqn:E.
  - by destruct Hpick as [?| ->].
  - done.
  - unfold chan_recv in E. destruct (chan_buf _); [|done].
    by destruct (chan_closed _).
Qed.

Lemma chan_recv_Blocks {A} (c : chan A) :
  chan_recv c = Blocks <-> chan_buf c = [] ∧ chan_closed c = false.
Proof.
  unfold chan_recv. destruct (chan_buf c); [|by split; [|intros []]].
  destruct (chan_closed c); by split; [|intros []].
Qed.

Lemma with_mu_unlock (s : botProviderStream) :
  mu s = false -> with_mu false (with_mu true s) = s.
Proof. destruct s; simpl; by intros ->. Qed.

(** A stream that is closed or failed: [Next] returns false at once and
    leaves everything as it is. *)
Lemma Next_terminal (pick : select_case) (h : heap) (s : botProviderStream) :
  mu s = false ->
  closed s = true ∨ err s ≠ None ->
  Next pick h s = Done false s.
Proof.
  intros Hmu Hterm. unfold Next, Next_locked. rewrite Hmu. simpl.
  replace (closed s || bool_decide (err s ≠ None)) with true.
  - by rewrite with_mu_unlock.
  - symmetry. destruct Hterm as [->|Herr]; [done|].
    rewrite (bool_decide_eq_true_2 _ Herr). apply orb_true_r.
Qed.

(** A live stream: [Next] is its select statement, run with the mutex
    held. *)
Lemma Next_live (pick : select_case) (h : heap) (s : botProviderStream) :
  mu s = false -> closed s = false -> err s = None ->
  Next pick h s =
    match Next_select pick h (with_mu true s) with
    | Returns (b, s') => Done b (with_mu false s')
    | Blocks => Parked (with_mu true s)
    | Panics => Panicked
    end.
Proof.
  intros Hmu Hclosed Herr. unfold Next, Next_locked. rewrite Hmu. simpl.
  by rewrite Hclosed, Herr.
Qed.

(** The text [Error] would give for an error detail (the method of the
    pointer type) holds code and message too. *)
Lemma ErrorDetail_Error_carries (d : ErrorDetail) :
  strings_Contains (ErrorDetail_Error d) (ErrorDetail.Code d) = true
  ∧ strings_Contains (ErrorDetail_Error d) (ErrorDetail.Message d) = true.
Proof.
  unfold ErrorDetail_Error.
  destruct (String.eqb (ErrorDetail.Inner d) ""); split;
    first [apply strings.Contains_here
          | do 2 apply strings.Contains_app_r; apply strings.Contains_here].
Qed.

(** It is not the text [Next] stores: there the detail is passed to fmt by
    value, and printed as a struct. *)
Example stream_error_prints_the_struct :
  Error (stream_error sample.detail)
  = "SSE stream error: {quota exceeded E429  {default wf llm LLM cfg p-1}}"
  ∧ ErrorDetail_Error sample.detail
    = "E429: quota exceeded (at namespace=default, workflowName=wf, processorName=llm, processorType=LLM)".
Proof. split; reflexivity. Qed.



(** C5, as the specification words it, fails. The caller cancels the
    context while a decoded event is waiting in the channel; both cases of
    the select are ready, the runtime may take the channel case, and the
    next [Next] returns true with no error stored. *)
Lemma cancelled_Next_may_deliver :
  ∃ sys',
    @run sample.external
      [producer_runs; ctx_cancelled context_Canceled;
       calls_Next case_eventChan; calls_Err]
      (launch (mkWire ["asgard.run.init"] (Some io_EOF)) sample.stream)
    = Some ([Next_returned true; Err_returned None], sys')
    ∧ ctx_Err (ctx (sys_stream sys')) = Some context_Canceled.
Proof. eexists. split; reflexivity. Qed.

(** C5, amended: on a stream that is neither closed nor failed and whose
    context is done, a [Next] call (made now, or already parked in the
    select) returns false and stores [ctx.Err()], which [Err] then returns,
    provided the channel holds no item and is not closed, or else provided
    the runtime takes the cancellation case of the select. *)
Theorem Next_after_cancel (pick : select_case) (h : heap) (s : botProviderStream)
    (cause : error) :
  closed s = false -> err s = None ->
  ctx_Err (ctx s) = Some cause ->
  (chan_buf (eventChan s) = [] ∧ chan_closed (eventChan s) = false)
    ∨ pick = case_ctxDone ->
  ∃ s',
    (if mu s then Next_resume pick h s else Next pick h s) = Done false s'
    ∧ mu s' = false
    ∧ err s' = Some cause
    ∧ Err s' = Done (Some cause) s'.
Proof.
  intros Hclosed Herr Hctx Hpick.
  exists (with_mu false (with_err (Some cause) s)).
  split; [|by unfold Err].
  destruct (mu s) eqn:Hmu.
  - unfold Next_resume. rewrite (Next_select_done _ _ _ cause); [done|done|].
    destruct Hpick as [Hempty | ->]; [left|by right].
    by apply chan_recv_Blocks.
  - rewrite Next_live by done.
    rewrite (Next_select_done _ _ _ cause); [done|done|].
    destruct Hpick as [Hempty | ->]; [left|by right].
    by apply chan_recv_Blocks.
Qed.

(** The stream just returned by [NewStreaming], its context cancelled
    before any frame arrived. *)
Lemma Next_after_cancel_witness :
  ∃ s',
    (if mu (sample.cancelled sample.stream)
     then Next_resume case_eventChan [] (sample.cancelled sample.stream)
     else Next case_eventChan [] (sample.cancelled sample.stream)) = Done false s'
    ∧ mu s' = false
    ∧ err s' = Some context_Canceled
    ∧ Err s' = Done (Some context_Canceled) s'.
Proof.
  apply (Next_after_cancel case_eventChan [] (sample.cancelled sample.stream));
    first [reflexivity | by left].
Defined.

(** C9, as the specification words it, fails. The consumer calls [Next]
    before any frame arrived: the call parks in the select with the mutex
    locked, and a [Close] made now cannot proceed. *)
Lemma Close_waits_for_parked_Next :
  ∃ sys',
    @run sample.external [calls_Next case_eventChan]
      (launch (mkWire [] (Some io_EOF)) sample.stream) = Some ([], sys')
    ∧ mu (sys_stream sys') = true
    ∧ @exec sample.external sys' calls_Close = NotEnabled.
Proof. eexists. split; [reflexivity|]. split; reflexivity. Qed.

(** C9, amended: the mutex is held for the whole of each method, the
    blocking select of [Next] included. While a [Next] call is parked
    waiting for an item the mutex is locked, and [Close], [Current], [Err]
    and any further [Next] wait for it; when the parked call returns, the
    mutex is free and [Close] completes. *)
Theorem mutex_held_while_parked (pick : select_case) (h : heap)
    (s s' : botProviderStream) :
  Next pick h s = Parked s' ->
  mu s' = true
  ∧ Close s' = WaitsForLock
  ∧ Current s' = WaitsForLock
  ∧ Err s' = WaitsForLock
  ∧ (∀ pick' h', Next pick' h' s' = WaitsForLock)
  ∧ (∀ pick' h' b s2,
       Next_resume pick' h' s' = Done b s2 ->
       mu s2 = false ∧ ∃ s3, Close s2 = Done None s3).
Proof.
  unfold Next. destruct (mu s); [done|].
  destruct (Next_locked _ _ _) as [[b s1]| |]; [done| |done].
  intros [= <-]. unfold Close, Current, Err, Next. simpl.
  do 5 (split; [done|]). intros pick' h' b s2.
  unfold Next_resume. destruct (Next_select _ _ _) as [[b' s1]| |]; [|done|done].
  intros [= <- <-]. simpl. split; [done|].
  unfold Close_locked; simpl.
  destruct (closed s1); eauto.
Qed.

(** [Next] called on the stream just returned by [NewStreaming], before
    any frame arrived. *)
Lemma mutex_held_while_parked_witness :
  mu (with_mu true sample.stream) = true
  ∧ Close (with_mu true sample.stream) = WaitsForLock
  ∧ Current (with_mu true sample.stream) = WaitsForLock
  ∧ Err (with_mu true sample.stream) = WaitsForLock
  ∧ (∀ pick' h', Next pick' h' (with_mu true sample.stream) = WaitsForLock)
  ∧ (∀ pick' h' b s2,
       Next_resume pick' h' (with_mu true sample.stream) = Done b s2 ->
       mu s2 = false ∧ ∃ s3, Close s2 = Done None s3).
Proof.
  apply (mutex_held_while_parked case_eventChan [] sample.stream). reflexivity.
Defined.

(** What a returning select statement leaves alone. *)
Lemma Next_select_frame (pick : select_case) (h : heap) (s s' : botProviderStream)
    (b : bool) :
  Next_select pick h s = Returns (b, s') ->
  closed s' = closed s ∧ mu s' = mu s ∧ ctx s' = ctx s
  ∧ chan_cap (eventChan s') = chan_cap (eventChan s)
  ∧ chan_closed (eventChan s') = chan_closed (eventChan s)
  ∧ (chan_buf (eventChan s') = chan_buf (eventChan s)
     ∨ ∃ w, chan_buf (eventChan s) = w :: chan_buf (eventChan s')).
Proof.
  unfold Next_select, Next_done, Next_recv, chan_recv.
  destruct s as [c cfg m cl cn [buf cap cc] cur e clo l]; simpl.
  intros Hsel.
  repeat case_match; simplify_eq/=; eauto 10.
Qed.

End methods.

(** ** Event types *)

Module event_types.
Import go models client botProviderStream notions methods.

(** [Next] delivers every event whose type is not [run.error], whatever
    the type is. *)
Lemma Next_delivers_any_other_type (pick : select_case)
    (h : list GenericBotSseEvent) (s : botProviderStream)
    (w : GenericBotSseEventWrapper) (rest : list GenericBotSseEventWrapper)
    (p : nat) (ev : GenericBotSseEvent) :
  mu s = false -> closed s = false -> err s = None ->
  ctx_Err (ctx s) = None ∨ pick = case_eventChan ->
  chan_buf (eventChan s) = w :: rest ->
  GenericBotSseEventWrapper.ConnectionError w = None ->
  GenericBotSseEventWrapper.Event w = Some p ->
  h !! p = Some ev ->
  GenericBotSseEvent.EventType ev ≠ SseEventTypeRunError ->
  ∃ s', Next pick h s = Done true s' ∧ currentEvent s' = Some p.
Proof.
  intros Hmu Hclosed Herr Hpick Hbuf Hce Hev Hp Hty.
  rewrite Next_live by done.
  rewrite Next_select_recv; [|done|];
    simpl; unfold chan_recv; rewrite Hbuf; [|done]. simpl.
  rewrite (Next_recv_item _ _ _ _ (item_event ev)).
  - unfold is_run_error.
    destruct (String.eqb_spec (GenericBotSseEvent.EventType ev) SseEventTypeRunError);
      [done|].
    eexists. split; [done|]. simpl. done.
  - unfold view. by rewrite Hce, Hev; simpl; rewrite Hp.
Qed.

(** C8, as the specification words it, fails. The constants do not have
    the listed values (none of the listed values is even among them); and
    the type of an event is not confined to the constants: [SseEventType]
    is a string type, and [Next] delivers an event of type [ping]. *)
Lemma wire_values_are_not_the_listed_ones :
  SseEventType_constants ≠ spec.event_type_values
  ∧ Forall (fun v => v ∉ SseEventType_constants) spec.event_type_values
  ∧ ("ping" ∉ SseEventType_constants)
  ∧ (∃ s',
       Next case_eventChan [sample.event_of "ping"]
         (sample.holding (GenericBotSseEventWrapper.mk (Some 0%nat) None))
       = Done true s').
Proof.
  split; [discriminate|]. split; [|split].
  - apply (bool_decide_unpack _). by vm_compute.
  - apply (bool_decide_unpack _). by vm_compute.
  - eexists. reflexivity.
Qed.

(** C8, amended: the const block of [SseEventType] declares exactly ten
    constants, pairwise distinct, whose literal values are the ten listed
    names each prefixed with [asgard.], in the listed order. The type
    itself is a string type: [Next] checks an event's type against the
    [run.error] constant only, and delivers an event of any other type. *)
Theorem wire_values :
  SseEventType_constants = (fun v => "asgard." +:+ v) <$> spec.event_type_values
  ∧ length SseEventType_constants = 10%nat
  ∧ NoDup SseEventType_constants
  ∧ ∀ (pick : select_case) (h : list GenericBotSseEvent) (s : botProviderStream)
      (w : GenericBotSseEventWrapper) (rest : list GenericBotSseEventWrapper)
      (p : nat) (ev : GenericBotSseEvent),
      mu s = false -> closed s = false -> err s = None ->
      ctx_Err (ctx s) = None ∨ pick = case_eventChan ->
      chan_buf (eventChan s) = w :: rest ->
      GenericBotSseEventWrapper.ConnectionError w = None ->
      GenericBotSseEventWrapper.Event w = Some p ->
      h !! p = Some ev ->
      GenericBotSseEvent.EventType ev ≠ SseEventTypeRunError ->
      ∃ s', Next pick h s = Done true s' ∧ currentEvent s' = Some p.
Proof.
  split; [reflexivity|]. split; [reflexivity|]. split.
  - apply (bool_decide_unpack _). by vm_compute.
  - apply Next_delivers_any_other_type.
Qed.

(** An event of a type outside the ten constants is delivered. *)
Lemma wire_values_witness :
  ∃ s',
    Next case_eventChan [sample.event_of "ping"]
      (sample.holding (GenericBotSseEventWrapper.mk (Some 0%nat) None))
    = Done true s'
    ∧ currentEvent s' = Some 0%nat.
Proof.
  apply (proj2 (proj2 (proj2 wire_values)) case_eventChan
           [sample.event_of "ping"]
           (sample.holding (GenericBotSseEventWrapper.mk (Some 0%nat) None))
           (GenericBotSseEventWrapper.mk (Some 0%nat) None) [] 0%nat
           (sample.event_of "ping"));
    first [reflexivity | by left | discriminate].
Defined.

End event_types.

(** ** The running stream *)

Module running.
Import go models client botProviderStream notions methods.

Section Facts.
Context `{External}.

Lemma view_app (h h' : heap) (w : GenericBotSseEventWrapper) (it : item) :
  view h w = Some it -> view (h ++ h') w = Some it.
Proof.
  unfold view. destruct (GenericBotSseEventWrapper.ConnectionError w); [done|].
  destruct (GenericBotSseEventWrapper.Event w) as [p|]; simpl; [|done].
  destruct (h !! p) as [ev|] eqn:E; simpl; [|done].
  intros [= <-]. by rewrite (lookup_app_l_Some _ _ _ _ E).
Qed.

(** One step of the goroutine: it never panics; it parks only on a full
    channel; what it sends are the views of the next items to send. *)
Lemma producer_step_spec (h : heap) (ch : chan GenericBotSseEventWrapper)
    (p : producer) :
  (chan_closed ch = true <-> p = Exited) ->
  match producer_step h ch p with
  | Returns (h', ch', p') =>
      (∃ x, h' = h ++ x)
      ∧ chan_cap ch' = chan_cap ch
      ∧ (chan_closed ch' = true <-> p' = Exited)
      ∧ S (steps_left p') = steps_left p
      ∧ ∃ ws its,
          chan_buf ch' = chan_buf ch ++ ws
          ∧ Forall2 (fun w it => view h' w = Some it) ws its
          ∧ its ++ to_send p' = to_send p
  | Blocks => p = Exited ∨ (chan_cap ch <= length (chan_buf ch))%nat
  | Panics => False
  end.
Proof.
  intros Hclosed.
  assert (p ≠ Exited -> chan_closed ch = false) as Hopen.
  { intros Hp. destruct (chan_closed ch); [|done]. by destruct Hp, Hclosed as [-> _]. }
  destruct p as [[|data rest] r| |]; simpl.
  - destruct (errors_Is_EOF r) eqn:Hr; simpl.
    + split_and!; [by exists []; rewrite app_nil_r|done|by rewrite Hopen|done|].
      exists [], []. split_and!; [by rewrite app_nil_r|constructor|done].
    + unfold chan_send. rewrite Hopen by done.
      destruct (Nat.ltb_spec (length (chan_buf ch)) (chan_cap ch)); simpl; [|by right].
      split_and!; [by exists []; rewrite app_nil_r|done|done|done|].
      eexists [_], [_]. split; [done|]. split; [|done].
      by constructor.
  - unfold onEvent, decoded.
    destruct (json_Unmarshal_event data) as [ev|e] eqn:Hdata; simpl;
      unfold chan_send; rewrite Hopen by done;
      destruct (Nat.ltb_spec (length (chan_buf ch)) (chan_cap ch)); simpl;
      try (by right).
    + split_and!; [by eexists|done|done|done|].
      eexists [_], [_]. split; [done|]. split; [|done].
      constructor; [|done]. unfold view. simpl.
      by rewrite list_lookup_middle.
    + split_and!; [by exists []; rewrite app_nil_r|done|done|done|].
      eexists [_], [_]. split; [done|]. split; [|done].
      by constructor.
  - unfold chan_close. rewrite Hopen by done. simpl.
    split_and!; [by exists []; rewrite app_nil_r|done|done|done|].
    exists [], []. split_and!; [by rewrite app_nil_r|constructor|done].
  - by left.
Qed.

Lemma with_mu_id (s : botProviderStream) (b : bool) : mu s = b -> with_mu b s = s.
Proof. destruct s; simpl; by intros ->. Qed.

Lemma Forall2_views (h : heap) (ws : list GenericBotSseEventWrapper)
    (its : list item) :
  Forall2 (fun w it => view h w = Some it) ws its ->
  Forall (fun w => is_Some (view h w)) ws.
Proof. induction 1; constructor; eauto. Qed.

(** A returning select statement keeps a system sane. *)
Lemma sane_select (sys : system) (pick : select_case) (b : bool)
    (s' : botProviderStream) :
  sane sys -> closed (sys_stream sys) = false ->
  Next_select pick (sys_heap sys) (with_mu true (sys_stream sys)) = Returns (b, s') ->
  sane (mkSystem (sys_heap sys) (with_mu false s') (sys_producer sys)).
Proof.
  intros [Hc Hcap Hmu Hitems Hcur] Hopen Hsel.
  apply Next_select_frame in Hsel
    as (Hclosed' & _ & _ & Hcap' & Hcc' & Hbuf').
  destruct sys as [h s p]; simpl in *.
  constructor; simpl.
  - by rewrite Hcc'.
  - by rewrite Hcap'.
  - done.
  - destruct Hbuf' as [->|[w Hw]]; [done|].
    rewrite Hw in Hitems. by apply Forall_cons in Hitems as [_ ?].
  - rewrite Hclosed', Hopen. done.
Qed.

(** Every step keeps a system sane. *)
Lemma sane_exec (sys sys' : system) (a : action) (o : list observation) :
  sane sys -> exec sys a = Stepped o sys' -> sane sys'.
Proof.
  intros Hsane Hexec.
  pose proof Hsane as [Hc Hcap Hmu Hitems Hcur].
  destruct a; simpl in Hexec.
  - pose proof (producer_step_spec (sys_heap sys) (eventChan (sys_stream sys))
                  (sys_producer sys) Hc) as Hp.
    destruct (producer_step _ _ _) as [[[h' ch'] p']| |]; [|done|done].
    injection Hexec as <- <-.
    destruct Hp as ((x & ->) & Hcap' & Hc' & _ & ws & its & Hbuf & Hws & _).
    constructor; simpl; [done|by rewrite Hcap'|done| |done].
    rewrite Hbuf. apply Forall_app. split.
    + eapply Forall_impl; [done|]. intros w [it Hw]. exists it. by apply view_app.
    + by eapply Forall2_views.
  - unfold Next in Hexec. destruct (mu (sys_stream sys)) eqn:Hl; [done|].
    unfold Next_locked in Hexec. simpl in Hexec.
    destruct (closed (sys_stream sys) || bool_decide (err (sys_stream sys) ≠ None))
      eqn:Hterm; simpl in Hexec.
    + injection Hexec as <- <-. rewrite with_mu_unlock by done. by destruct sys.
    + apply orb_false_elim in Hterm as [Hopen Herr].
      apply bool_decide_eq_false in Herr.
      destruct (Next_select _ _ _) as [[b s']| |] eqn:Hsel; simpl in Hexec; [| |done].
      * injection Hexec as <- <-. by eapply sane_select.
      * injection Hexec as <- <-. constructor; simpl; try done.
        intros _. split; [done|]. by destruct (err (sys_stream sys)); [destruct Herr|].
  - destruct (mu (sys_stream sys)) eqn:Hl; [|done].
    destruct (Hmu eq_refl) as [Hopen Herr].
    unfold Next_resume in Hexec.
    destruct (Next_select _ _ _) as [[b s']| |] eqn:Hsel; simpl in Hexec; [| |done].
    + injection Hexec as <- <-. eapply sane_select; [done|done|].
      by rewrite with_mu_id.
    + injection Hexec as <- <-. by destruct sys.
  - unfold Current in Hexec. destruct (mu (sys_stream sys)); [done|].
    injection Hexec as <- <-. by destruct sys.
  - unfold Err in Hexec. destruct (mu (sys_stream sys)); [done|].
    injection Hexec as <- <-. by destruct sys.
  - unfold Close, Close_locked in Hexec.
    destruct (mu (sys_stream sys)) eqn:Hl; [done|]. simpl in Hexec.
    destruct (closed (sys_stream sys)) eqn:Hclosed; injection Hexec as <- <-.
    + rewrite with_mu_unlock by done. by destruct sys.
    + constructor; simpl; done.
  - injection Hexec as <- <-. constructor; simpl; done.
Qed.

Lemma sane_run (sched : list action) (sys sys' : system) (obs : list observation) :
  sane sys -> run sched sys = Some (obs, sys') -> sane sys'.
Proof.
  revert sys obs. induction sched as [|a sched IH]; intros sys obs Hsane; simpl.
  - by intros [= <- <-].
  - destruct (exec sys a) as [o sys1| |] eqn:Hexec; [| |done].
    + destruct (run sched sys1) as [[obs1 sys2]|] eqn:Hrun; [|done].
      intros [= <- <-]. eapply IH; [|done]. by eapply sane_exec.
    + by apply IH.
Qed.

(** The handle [NewStreaming] returns, launched on any wire, is sane. *)
Lemma sane_launch (ctx : context) (config : option BotProviderConfig)
    (message : option GenericBotMessage) (s : botProviderStream)
    (effs : list effect) (w : Wire) :
  NewStreaming ctx config message = (Some s, None, effs) ->
  sane (launch w s)
  ∧ closed s = false ∧ err s = None ∧ mu s = false ∧ currentEvent s = None
  ∧ chan_buf (eventChan s) = [] ∧ botProviderStream.ctx s = ctx.
Proof.
  unfold NewStreaming.
  destruct config as [config|]; [|done].
  destruct message as [message|]; [|done].
  match goal with |- context [connect ?s0] =>
    destruct (constructor.connect_cases s0) as [[e E]|[conn E]]; rewrite E
  end; [done|].
  intros [= <- _]. split; [|done].
  constructor; simpl; try done. lia.
Qed.

(** No step removes or changes a decoded event. *)
Lemma heap_exec (sys sys' : system) (a : action) (o : list observation) :
  sane sys -> exec sys a = Stepped o sys' ->
  ∃ x, sys_heap sys' = sys_heap sys ++ x.
Proof.
  intros [Hc _ _ _ _] Hexec.
  assert (∀ R (obs : R -> observation) (c : call R),
            on_call sys obs c = Stepped o sys' -> sys_heap sys' = sys_heap sys)
    as Hcall.
  { intros R obs [r s1|s1| |]; simpl; [| |done|done]; by intros [= <- <-]. }
  destruct a; simpl in Hexec;
    try (exists []; rewrite app_nil_r; by eapply Hcall).
  - pose proof (producer_step_spec (sys_heap sys) (eventChan (sys_stream sys))
                  (sys_producer sys) Hc) as Hp.
    destruct (producer_step _ _ _) as [[[h' ch'] p']| |]; [|done|done].
    injection Hexec as <- <-. by destruct Hp as (? & _).
  - destruct (mu (sys_stream sys)); [|done].
    exists []; rewrite app_nil_r; by eapply Hcall.
  - injection Hexec as <- <-. exists []. by rewrite app_nil_r.
Qed.

(** Every system a stream reaches from [NewStreaming], under any schedule
    and on any wire, is sane. *)
Lemma sane_reachable (ctx : context) (config : option BotProviderConfig)
    (message : option GenericBotMessage) (s : botProviderStream)
    (effs : list effect) (w : Wire) (sched : list action)
    (obs : list observation) (sys : system) :
  NewStreaming ctx config message = (Some s, None, effs) ->
  run sched (launch w s) = Some (obs, sys) ->
  sane sys.
Proof.
  intros Hnew Hrun. eapply sane_run; [|done].
  by destruct (sane_launch _ _ _ _ _ w Hnew) as [? _].
Qed.

(** *** Iterating over a stream *)

Section Iteration.
Variable evs : list GenericBotSseEvent.
Variable tail : list item.
Variable ending : option error.
Hypothesis deliverable : Forall (fun ev => is_run_error ev = false) evs.
Hypothesis the_end : ends_with tail ending.

Local Abbreviation all := ((item_event <$> evs) ++ tail).

Lemma drop_delivered (n : nat) (ev : GenericBotSseEvent) :
  evs !! n = Some ev ->
  drop n all = item_event ev :: drop (S n) all.
Proof.
  intros Hn. apply drop_S.
  rewrite lookup_app_l by (rewrite length_fmap; by eapply lookup_lt_Some).
  by rewrite list_lookup_fmap, Hn.
Qed.

Lemma drop_all_delivered : drop (length evs) all = tail.
Proof.
  rewrite drop_app_length'; [done|by rewrite length_fmap].
Qed.

Lemma last_take_S (n : nat) (ev : GenericBotSseEvent) :
  evs !! n = Some ev -> last (take (S n) evs) = Some ev.
Proof.
  intros Hn. rewrite (take_S_r _ _ _ Hn). apply last_snoc.
Qed.

(** What the receive case does on a tracked stream whose channel holds an
    item. *)
Lemma tracked_recv (n : nat) (sys : system) (w : GenericBotSseEventWrapper)
    (rest : list GenericBotSseEventWrapper) :
  tracks evs tail ending n false sys ->
  chan_buf (eventChan (sys_stream sys)) = w :: rest ->
  ∃ b s',
    Next_recv (sys_heap sys) (with_mu true (sys_stream sys))
      (Some w, mkChan rest (chan_cap (eventChan (sys_stream sys)))
                 (chan_closed (eventChan (sys_stream sys))))
    = Returns (b, s')
    ∧ tracks evs tail ending (if b then S n else n) (negb b)
        (mkSystem (sys_heap sys) (with_mu false s') (sys_producer sys)).
Proof.
  intros [Hsane Hopen Hctx Hn Hcur Hnil Hlive _] Hbuf.
  destruct (Hlive eq_refl) as (Herr & its & Hviews & Hits).
  rewrite Hbuf in Hviews.
  apply Forall2_cons_inv_l in Hviews as (it & its' & Hw & Hrest & ->).
  rewrite (Next_recv_item _ _ _ _ _ Hw).
  pose proof Hsane as [Hc Hcap Hmu Hitems Hcurr].
  assert (sane_after : ∀ s1,
            closed s1 = false -> 
            eventChan s1 = mkChan rest (chan_cap (eventChan (sys_stream sys)))
                             (chan_closed (eventChan (sys_stream sys))) ->
            sane (mkSystem (sys_heap sys) (with_mu false s1) (sys_producer sys))).
  { intros s1 Hs1 Hch. constructor; simpl; rewrite ?Hch; simpl; try done.
    - rewrite Hbuf in Hitems. by apply Forall_cons in Hitems as [_ ?].
    - by rewrite Hs1. }
  destruct (decide (n < length evs)%nat) as [Hlt|Hge].
  - destruct (lookup_lt_is_Some_2 evs n Hlt) as [ev Hev].
    rewrite (drop_delivered _ _ Hev) in Hits. simpl in Hits.
    injection Hits as -> Hits.
    rewrite (proj1 (Forall_lookup _ _) deliverable _ _ Hev).
    exists true. eexists. split; [done|]. simpl.
    unfold view in Hw.
    destruct (GenericBotSseEventWrapper.ConnectionError w); [done|].
    destruct (GenericBotSseEventWrapper.Event w) as [p|]; simpl in Hw; [|done].
    destruct (sys_heap sys !! p) as [ev'|] eqn:Hp; simpl in Hw; [|done].
    injection Hw as ->.
    constructor; simpl.
    + by apply sane_after.
    + done.
    + done.
    + lia.
    + unfold current_event. simpl. rewrite Hp. symmetry. by apply last_take_S.
    + done.
    + intros _. split; [done|]. by exists its'.
    + done.
  - assert (n = length evs) as -> by lia.
    rewrite drop_all_delivered in Hits.
    unfold ends_with in the_end. rewrite <- Hits in the_end. simpl in the_end.
    destruct the_end as [[e He] Hstops]. rewrite He in Hstops.
    assert (ended : ∀ s1,
              err s1 = Some e -> closed s1 = false ->
              ctx s1 = ctx (sys_stream sys) ->
              currentEvent s1 = currentEvent (sys_stream sys) ->
              eventChan s1 = mkChan rest (chan_cap (eventChan (sys_stream sys)))
                               (chan_closed (eventChan (sys_stream sys))) ->
              tracks evs tail ending (length evs) true
                (mkSystem (sys_heap sys) (with_mu false s1) (sys_producer sys))).
    { intros s1 Herr1 Hopen1 Hctx1 Hcur1 Hch1. constructor; simpl.
      - by apply sane_after.
      - done.
      - by rewrite Hctx1.
      - done.
      - unfold current_event in *. simpl in *. by rewrite Hcur1.
      - intros Hn0. rewrite Hcur1. by apply Hnil.
      - done.
      - intros _. split_and!; [done|done|by rewrite He|].
        intros Hnone. by rewrite Hnone in He. }
    destruct it as [ev|e0]; simpl in Hstops.
    + destruct (is_run_error ev); [|done].
      destruct (run_error_detail ev) as [d|]; [|done].
      injection Hstops as <-. exists false. eexists. split; [done|].
      by apply ended.
    + injection Hstops as <-. exists false. eexists. split; [done|].
      by apply ended.
Qed.

(** The select statement on a tracked stream that has not ended: it parks
    only on an empty open channel, it never panics, and what it returns
    is tracked again. *)
Lemma tracked_select (n : nat) (sys : system) (pick : select_case) :
  tracks evs tail ending n false sys ->
  match Next_select pick (sys_heap sys) (with_mu true (sys_stream sys)) with
  | Blocks =>
      chan_buf (eventChan (sys_stream sys)) = []
      ∧ chan_closed (eventChan (sys_stream sys)) = false
  | Returns (b, s') =>
      tracks evs tail ending (if b then S n else n) (negb b)
        (mkSystem (sys_heap sys) (with_mu false s') (sys_producer sys))
  | Panics => False
  end.
Proof.
  intros Htracks.
  pose proof Htracks as [Hsane Hopen Hctx Hn Hcur Hnil Hlive _].
  destruct (Hlive eq_refl) as (Herr & its & Hviews & Hits).
  unfold Next_select. simpl. rewrite Hctx. unfold chan_recv. simpl.
  destruct (chan_buf (eventChan (sys_stream sys))) as [|w rest] eqn:Hbuf.
  - destruct (chan_closed (eventChan (sys_stream sys))) eqn:Hcc; [|done].
    unfold Next_recv. simpl.
    apply Forall2_nil_inv_l in Hviews as ->.
    pose proof Hsane as [Hc Hcap Hmu Hitems Hcurr].
    rewrite (proj1 Hc Hcc) in Hits. simpl in Hits.
    assert (length (drop n all) = 0%nat) as Hlen by by rewrite <- Hits.
    rewrite length_drop, length_app, length_fmap in Hlen.
    assert (n = length evs) as -> by lia.
    assert (tail = []) as Htail by (apply nil_length_inv; lia).
    pose proof the_end as Hend. rewrite Htail in Hend. simpl in Hend.
    constructor; simpl; try done.
    intros _. split_and!; [done|done|by rewrite Hend|]. by rewrite Hbuf, Hcc.
  - destruct (tracked_recv n sys w rest Htracks Hbuf) as (b & s' & -> & ?).
    done.
Qed.

Lemma tracks_with_mu (n : nat) (sys : system) :
  tracks evs tail ending n false sys ->
  tracks evs tail ending n false
    (mkSystem (sys_heap sys) (with_mu true (sys_stream sys)) (sys_producer sys)).
Proof.
  intros [[Hc Hcap Hmu Hitems Hcurr] Hopen Hctx Hn Hcur Hnil Hlive Hfin].
  destruct (Hlive eq_refl) as (Herr & _).
  constructor; simpl; try done.
Qed.

(** One step of an iterating schedule on a tracked stream: no crash, and
    the stream is tracked again. *)
Lemma tracked_exec (n : nat) (fin : bool) (sys : system) (a : action) :
  tracks evs tail ending n fin sys ->
  iterates a = true ->
  match exec sys a with
  | Stepped o sys' =>
      ∃ n' fin', tracks evs tail ending n' fin' sys' ∧ moves sys n fin o n' fin'
  | NotEnabled => True
  | Crashed => False
  end.
Proof.
  intros Htracks Hiter.
  pose proof Htracks as [Hsane Hopen Hctx Hn Hcur Hnil Hlive Hfin].
  pose proof Hsane as [Hc Hcap Hmu Hitems Hcurr].
  destruct a; try done; simpl.
  - (* the goroutine *)
    pose proof (producer_step_spec (sys_heap sys) (eventChan (sys_stream sys))
                  (sys_producer sys) Hc) as Hp.
    destruct (producer_step _ _ _) as [[[h' ch'] p']| |] eqn:Hstep; [|done|done].
    destruct Hp as ((x & ->) & Hcap' & Hc' & _ & ws & its2 & Hbuf & Hws & Hsend).
    exists n, fin. split; [|by left].
    constructor; simpl.
    + eapply (sane_exec sys _ producer_runs); [done|]. simpl. by rewrite Hstep.
    + done.
    + done.
    + done.
    + rewrite <- Hcur. unfold current_event. simpl.
      destruct (currentEvent (sys_stream sys)) as [p|] eqn:Hp; simpl; [|done].
      destruct (sys_heap sys !! p) as [ev|] eqn:Hev.
      * by apply lookup_app_l_Some.
      * exfalso. destruct n; [discriminate (Hnil eq_refl)|].
        unfold current_event in Hcur. rewrite Hp in Hcur. simpl in Hcur.
        rewrite Hev in Hcur.
        destruct (lookup_lt_is_Some_2 evs n) as [ev Hn']; [lia|].
        by rewrite (last_take_S _ _ Hn') in Hcur.
    + done.
    + intros Hf. destruct (Hlive Hf) as (Herr & its & Hviews & Hits).
      split; [done|]. exists (its ++ its2). split.
      * rewrite Hbuf. apply Forall2_app; [|done].
        eapply Forall2_impl; [done|]. intros w it. apply view_app.
      * by rewrite <- app_assoc, Hsend.
    + intros Hf. destruct (Hfin Hf) as (-> & Hl & Herr & Hclean).
      split_and!; [done|done|done|].
      intros Hnone. destruct (Hclean Hnone) as [_ Hcc].
      rewrite (proj1 Hc Hcc) in Hstep. done.
  - (* a call of Next *)
    unfold Next. destruct (mu (sys_stream sys)) eqn:Hl; [done|].
    unfold Next_locked. simpl.
    destruct fin.
    + destruct (Hfin eq_refl) as (-> & _ & Herr & Hclean).
      rewrite Hopen. simpl.
      destruct ending as [e|] eqn:Hend.
      * rewrite Herr. simpl. rewrite with_mu_unlock by done.
        exists (length evs), true. split; [by destruct sys|]. right; right; left. done.
      * rewrite Herr. simpl. destruct (Hclean eq_refl) as [Hbuf Hcc].
        unfold Next_select, chan_recv. simpl. rewrite Hbuf, Hcc, Hctx.
        unfold Next_recv. simpl.
        exists (length evs), true. split; [|by right; right; left].
        constructor; simpl; done.
    + destruct (Hlive eq_refl) as (Herr & _).
      rewrite Hopen, Herr. simpl.
      pose proof (tracked_select n sys pick Htracks) as Hsel.
      destruct (Next_select _ _ _) as [[b s']| |]; simpl; [| |done].
      * eexists _, _. split; [done|]. destruct b; simpl.
        -- right; left. done.
        -- right; right; left. done.
      * exists n, false. split; [|by left]. by apply tracks_with_mu.
  - (* a parked Next is woken *)
    destruct (mu (sys_stream sys)) eqn:Hl; [|done].
    destruct fin; [by destruct (Hfin eq_refl) as (_ & ? & _); congruence|].
    pose proof (tracked_select n sys pick Htracks) as Hsel.
    rewrite (with_mu_id _ _ Hl) in Hsel.
    unfold Next_resume.
    destruct (Next_select _ _ _) as [[b s']| |]; simpl; [| |done].
    + eexists _, _. split; [done|]. destruct b; simpl.
      * right; left. done.
      * right; right; left. done.
    + exists n, false. split; [by destruct sys|by left].
  - unfold Current. destruct (mu (sys_stream sys)); [done|]. simpl.
    exists n, fin. split; [by destruct sys|by do 3 right; left].
  - unfold Err. destruct (mu (sys_stream sys)); [done|]. simpl.
    exists n, fin. split; [by destruct sys|by do 4 right].
Qed.

Lemma run_app (l1 l2 : list action) (sys : system) :
  run (l1 ++ l2) sys =
    match run l1 sys with
    | Some (o1, sys1) =>
        match run l2 sys1 with
        | Some (o2, sys2) => Some (o1 ++ o2, sys2)
        | None => None
        end
    | None => None
    end.
Proof.
  revert sys. induction l1 as [|a l1 IH]; intros sys; simpl.
  - by destruct (run l2 sys) as [[??]|].
  - destruct (exec sys a) as [o sys1| |]; [|by apply IH|done].
    rewrite IH. destruct (run l1 sys1) as [[o1 sys2]|]; [|done].
    destruct (run l2 sys2) as [[o2 sys3]|]; [|done].
    by rewrite app_assoc.
Qed.

Lemma Next_results_app (o1 o2 : list observation) :
  Next_results (o1 ++ o2) = Next_results o1 ++ Next_results o2.
Proof. apply omap_app. Qed.

Lemma pointer_stays (h x : list GenericBotSseEvent) (p : option nat)
    (ev : GenericBotSseEvent) :
  p ≫= (h !!.) = Some ev -> p ≫= ((h ++ x) !!.) = Some ev.
Proof.
  destruct p as [p|]; simpl; [|done]. apply lookup_app_l_Some.
Qed.

(** Safety: whatever an iterating schedule does, the stream stays tracked,
    and the calls returned what the consumer of [evs] expects: [Next] has
    returned true for the next events in order, then only false. *)
Lemma tracked_run (sched : list action) (n : nat) (fin : bool) (sys : system) :
  tracks evs tail ending n fin sys ->
  Forall (fun a => iterates a = true) sched ->
  ∃ obs sys' n' j,
    run sched sys = Some (obs, sys')
    ∧ tracks evs tail ending n' (fin || bool_decide (0 < j)%nat) sys'
    ∧ Next_results obs = replicate (n' - n) true ++ replicate j false
    ∧ (n <= n')%nat
    ∧ (∃ x, sys_heap sys' = sys_heap sys ++ x)
    ∧ observes evs ending (sys_heap sys') n fin obs.
Proof.
  revert n fin sys. induction sched as [|a sched IH]; intros n fin sys Htracks Hiter.
  - exists [], sys, n, 0%nat. simpl. rewrite orb_false_r, Nat.sub_diag.
    split_and!; try done. exists []. by rewrite app_nil_r.
  - apply Forall_cons in Hiter as [Ha Hiter]. simpl.
    pose proof (tracked_exec n fin sys a Htracks Ha) as Hexec.
    destruct (exec sys a) as [o sys1| |] eqn:Hstep; [|by apply IH|done].
    destruct Hexec as (n1 & fin1 & Htracks1 & Hmoves).
    destruct (heap_exec _ _ _ _ (tracks_sane _ _ _ _ _ _ Htracks) Hstep) as [x1 Hx1].
    destruct (IH n1 fin1 sys1 Htracks1 Hiter)
      as (obs & sys' & n' & j & -> & Htracks' & Hres & Hle & [x2 Hx2] & Hobs).
    assert (∃ x, sys_heap sys' = sys_heap sys ++ x) as Hheap.
    { exists (x1 ++ x2). by rewrite Hx2, Hx1, app_assoc. }
    pose proof Htracks as [_ _ _ Hn Hcur Hnil Hlive Hfin].
    destruct Hmoves
      as [(-> & -> & ->)
         |[(-> & -> & -> & ->)
          |[(-> & -> & ->)
           |[(-> & -> & ->)|(-> & -> & ->)]]]].
    + exists obs, sys', n', j. done.
    + exists (Next_returned true :: obs), sys', n', j.
      pose proof Htracks1 as [_ _ _ Hn1 _ _ _ _].
      split_and!; [done|done| |lia|done|].
      * simpl. rewrite Hres.
        by replace (n' - n)%nat with (S (n' - S n)) by lia.
      * simpl. split_and!; [done|lia|done].
    + simpl in Htracks'.
      destruct Htracks' as [? ? ? ? ? ? ? Hfin'].
      destruct (Hfin' eq_refl) as (-> & _).
      pose proof Htracks1 as [_ _ _ _ _ _ _ Hfin1].
      destruct (Hfin1 eq_refl) as (-> & _).
      exists (Next_returned false :: obs), sys', (length evs), (S j).
      rewrite orb_true_r.
      split_and!; [done| | |done|done|].
      * constructor; done.
      * simpl. rewrite Hres, Nat.sub_diag. done.
      * simpl. done.
    + exists (Current_returned (currentEvent (sys_stream sys)) :: obs), sys', n', j.
      split_and!; [done|done|done|done|done|].
      simpl. split; [|done].
      destruct Hheap as [x ->].
      unfold current_event in Hcur.
      destruct (last (take n evs)) as [ev|] eqn:Hlast.
      * by apply pointer_stays.
      * destruct n as [|n]; [by rewrite Hnil|].
        destruct (lookup_lt_is_Some_2 evs n) as [ev Hev]; [lia|].
        by rewrite (last_take_S _ _ Hev) in Hlast.
    + exists (Err_returned (err (sys_stream sys)) :: obs), sys', n', j.
      split_and!; [done|done|done|done|done|].
      simpl. split; [|done].
      destruct fin.
      * by destruct (Hfin eq_refl) as (_ & _ & ? & _).
      * by destruct (Hlive eq_refl) as (? & _).
Qed.

(** Liveness: from a tracked stream that has not ended, some continuation
    of the schedule delivers the remaining events and then gets false. *)
Lemma tracked_finish (k n : nat) (sys : system) :
  tracks evs tail ending n false sys ->
  (steps_left (sys_producer sys) + (length all - n) <= k)%nat ->
  ∃ ext obs sys',
    Forall (fun a => iterates a = true) ext
    ∧ run ext sys = Some (obs, sys')
    ∧ tracks evs tail ending (length evs) true sys'
    ∧ Next_results obs = replicate (length evs - n) true ++ [false].
Proof.
  revert n sys. induction (lt_wf k) as [k _ IH]. intros n sys Htracks Hk.
  pose proof Htracks as [Hsane Hopen Hctx Hn Hcur Hnil Hlive _].
  pose proof Hsane as [Hc Hcap Hmu Hitems Hcurr].
  destruct (Hlive eq_refl) as (Herr & its & Hviews & Hits).
  pose proof (tracked_select n sys case_eventChan Htracks) as Hsel.
  destruct (Next_select _ _ _) as [[b s']| |] eqn:Hselect; [| |done].
  - (* the select is ready: call Next, or wake the parked call *)
    set (a := if mu (sys_stream sys) then resumes_Next case_eventChan
              else calls_Next case_eventChan).
    assert (exec sys a
            = Stepped [Next_returned b]
                (mkSystem (sys_heap sys) (with_mu false s') (sys_producer sys)))
      as Hexec.
    { unfold a. destruct (mu (sys_stream sys)) eqn:Hl; simpl.
      - rewrite Hl. unfold Next_resume. rewrite (with_mu_id _ _ Hl) in Hselect.
        by rewrite Hselect.
      - unfold Next. rewrite Hl. unfold Next_locked. simpl.
        rewrite Hopen, Herr. simpl. by rewrite Hselect. }
    assert (iterates a = true) as Ha by (unfold a; by destruct (mu _)).
    destruct b; simpl in Hsel.
    + pose proof Hsel as [_ _ _ Hn' _ _ _ _].
      rewrite length_app, length_fmap in Hk.
      destruct (IH (k - 1)%nat) with (n := S n)
        (sys := mkSystem (sys_heap sys) (with_mu false s') (sys_producer sys))
        as (ext & obs & sys' & Hext & Hrun & Hfin & Hres);
        [lia|done|simpl; rewrite length_app, length_fmap; lia|].
      exists (a :: ext), (Next_returned true :: obs), sys'.
      split_and!; [by constructor| |done|].
      * simpl. by rewrite Hexec, Hrun.
      * simpl. rewrite Hres.
        replace (length evs - n)%nat with (S (length evs - S n)) by lia. done.
    + pose proof Hsel as [_ _ _ _ _ _ _ Hfin].
      destruct (Hfin eq_refl) as (-> & _).
      exists [a], [Next_returned false]. eexists.
      split_and!; [by constructor| |done|].
      * simpl. by rewrite Hexec.
      * by rewrite Nat.sub_diag.
  - (* the channel is empty and open: the goroutine can run *)
    destruct Hsel as [Hbuf Hcc].
    pose proof (producer_step_spec (sys_heap sys) (eventChan (sys_stream sys))
                  (sys_producer sys) Hc) as Hp.
    pose proof (tracked_exec n false sys producer_runs Htracks eq_refl) as Hexec.
    simpl in Hexec.
    destruct (producer_step _ _ _) as [[[h' ch'] p']| |] eqn:Hstep; [| |done].
    + destruct Hp as (_ & _ & _ & Hleft & _).
      destruct Hexec
        as (n' & fin' & Htracks' & [(_ & -> & ->)|[(? & _)|[(? & _)|[(? & _)|(? & _)]]]]);
        [|done|done|done|done].
      destruct (IH (k - 1)%nat) with (n := n)
        (sys := mkSystem h' (with_eventChan ch' (sys_stream sys)) p')
        as (ext & obs & sys' & Hext & Hrun & Hfin & Hres);
        [lia|done|simpl; lia|].
      exists (producer_runs :: ext), obs, sys'.
      split_and!; [by constructor| |done|done].
      simpl. by rewrite Hstep, Hrun.
    + exfalso. destruct Hp as [Hp|Hp].
      * apply Hc in Hp. congruence.
      * rewrite Hbuf in Hp. simpl in Hp. lia.
Qed.

(** Both together, from the start of the iteration. *)
Lemma iteration (sys0 : system) :
  tracks evs tail ending 0 false sys0 -> delivers sys0 evs ending.
Proof.
  intros Htracks sched Hiter.
  destruct (tracked_run sched 0 false sys0 Htracks Hiter)
    as (obs & sys1 & n & j & Hrun & Htracks1 & Hres & _ & _ & Hobs).
  rewrite Nat.sub_0_r in Hres. simpl in Htracks1.
  destruct j as [|j].
  - rewrite bool_decide_eq_false_2 in Htracks1 by lia.
    split.
    + exists obs, sys1, n, 0%nat.
      pose proof Htracks1 as [_ _ _ Hn Hcur _ Hlive _].
      destruct (Hlive eq_refl) as (Herr & _).
      split_and!; [done|done|done|done|done|done|lia].
    + destruct (tracked_finish _ n sys1 Htracks1 (Nat.le_refl _))
        as (ext & obs2 & sys2 & Hext & Hrun2 & Htracks2 & Hres2).
      pose proof Htracks1 as [_ _ _ Hn _ _ _ _].
      pose proof Htracks2 as [_ _ _ _ Hcur _ _ Hfin].
      destruct (Hfin eq_refl) as (_ & _ & Herr & _).
      exists ext, (obs ++ obs2), sys2, 0%nat.
      split_and!; [done| | |by rewrite <- (take_ge evs (length evs))|done].
      * by rewrite run_app, Hrun, Hrun2.
      * rewrite Next_results_app, Hres, Hres2. simpl. rewrite app_nil_r, app_assoc.
        rewrite <- replicate_add.
        by replace (n + (length evs - n))%nat with (length evs) by lia.
  - rewrite bool_decide_eq_true_2 in Htracks1 by lia.
    pose proof Htracks1 as [_ _ _ _ Hcur _ _ Hfin].
    destruct (Hfin eq_refl) as (-> & _ & Herr & _).
    split.
    + exists obs, sys1, (length evs), (S j).
      split_and!; [done|done|done|done|done|lia|done].
    + exists [], obs, sys1, j. rewrite app_nil_r.
      split_and!; [done|done|done|by rewrite <- (take_ge evs (length evs))|done].
Qed.

End Iteration.

(** The stream [NewStreaming] returned, launched on a wire whose items are
    [evs] followed by [tail], is tracked from the start. *)
Lemma tracks_launch (ctx : context) (config : option BotProviderConfig)
    (message : option GenericBotMessage) (s : botProviderStream)
    (effs : list effect) (w : Wire) (evs : list GenericBotSseEvent)
    (tail : list item) (ending : option error) :
  NewStreaming ctx config message = (Some s, None, effs) ->
  ctx_Err ctx = None ->
  to_send (Connecting (frames w) (result w)) = (item_event <$> evs) ++ tail ->
  tracks evs tail ending 0 false (launch w s).
Proof.
  intros Hnew Hctx Hsend.
  destruct (sane_launch _ _ _ _ _ w Hnew)
    as (Hsane & Hopen & Herr & Hmu & Hcur & Hbuf & Hc).
  constructor; simpl; try done.
  - by rewrite Hc.
  - lia.
  - unfold current_event. simpl. by rewrite Hcur.
  - intros _. split; [done|]. exists []. rewrite Hbuf. split; [constructor|done].
Qed.

Lemma decoded_events (datas : list string) (evs : list GenericBotSseEvent) :
  Forall2 (fun data ev => json_Unmarshal_event data = inl ev) datas evs ->
  decoded <$> datas = item_event <$> evs.
Proof.
  induction 1 as [|data ev datas evs Hd _ IH]; [done|].
  rewrite !fmap_cons, IH. unfold decoded. by rewrite Hd.
Qed.

Lemma not_run_error (evs : list GenericBotSseEvent) :
  Forall (fun ev => GenericBotSseEvent.EventType ev ≠ SseEventTypeRunError) evs ->
  Forall (fun ev => is_run_error ev = false) evs.
Proof.
  intros Hevs. eapply Forall_impl; [done|]. intros ev Hev. unfold is_run_error.
  by destruct (String.eqb_spec (GenericBotSseEvent.EventType ev) SseEventTypeRunError).
Qed.

(** C1: the producer decodes the frames of the wire to the events [evs],
    none of type [run.error], and the stream ends cleanly ([Connect]
    returns [io.EOF]). Then, however producer and consumer are scheduled
    (the context not cancelled, the stream not closed), the program does
    not crash and: [Next] returns true once for each event of [evs], in
    wire order, and never more often; [Current] returns the event [Next]
    delivered last; [Next] returns false only after all events were
    delivered, and [Err] is nil before and after; and the consumer never
    gets stuck short of that: every schedule can be continued until [Next]
    has returned true for all of [evs] and then false. *)
Theorem Next_in_wire_order (ctx : context) (config : option BotProviderConfig)
    (message : option GenericBotMessage) (s : botProviderStream)
    (effs : list effect) (w : Wire) (evs : list GenericBotSseEvent) :
  NewStreaming ctx config message = (Some s, None, effs) ->
  ctx_Err ctx = None ->
  Forall2 (fun data ev => json_Unmarshal_event data = inl ev) (frames w) evs ->
  Forall (fun ev => GenericBotSseEvent.EventType ev ≠ SseEventTypeRunError) evs ->
  errors_Is_EOF (result w) = true ->
  delivers (launch w s) evs None.
Proof.
  intros Hnew Hctx Hframes Hevs Heof.
  apply (iteration evs [] None); [by apply not_run_error|done|].
  eapply tracks_launch; [done|done|].
  simpl. by rewrite Heof, (decoded_events _ _ Hframes).
Qed.

(** C2: the frames before the frame [data] decode to the events [evs], none
    of type [run.error], and [data] decodes to an event of type [run.error]
    that carries its [RunError] fact. Then [Next] returns true for [evs]
    only and returns false at that frame: the event never becomes the
    current one, and [Err] is the error whose text holds the code and
    the message of the error detail. *)
Theorem Next_stops_at_run_error (ctx : context) (config : option BotProviderConfig)
    (message : option GenericBotMessage) (s : botProviderStream)
    (effs : list effect) (w : Wire) (before after : list string) (data : string)
    (evs : list GenericBotSseEvent) (ev : GenericBotSseEvent)
    (runError : GenericBotSseEventFactRunError) :
  NewStreaming ctx config message = (Some s, None, effs) ->
  ctx_Err ctx = None ->
  frames w = before ++ data :: after ->
  Forall2 (fun data ev => json_Unmarshal_event data = inl ev) before evs ->
  Forall (fun ev => GenericBotSseEvent.EventType ev ≠ SseEventTypeRunError) evs ->
  json_Unmarshal_event data = inl ev ->
  GenericBotSseEvent.EventType ev = SseEventTypeRunError ->
  GenericBotSseEventFact.RunError (GenericBotSseEvent.Fact ev) = Some runError ->
  let detail := GenericBotSseEventFactRunError.Error runError in
  delivers (launch w s) evs (Some (stream_error detail))
  ∧ strings_Contains (Error (stream_error detail)) (ErrorDetail.Code detail) = true
  ∧ strings_Contains (Error (stream_error detail)) (ErrorDetail.Message detail) = true.
Proof.
  intros Hnew Hctx Hw Hframes Hevs Hdata Hty Hfact detail.
  split.
  - apply (iteration evs
             (item_event ev ::
              (decoded <$> after) ++
              (if errors_Is_EOF (result w) then []
               else [item_error (Errorf_w "SSE connection failed: " (result w))]))
             (Some (stream_error detail))).
    + by apply not_run_error.
    + simpl. split; [done|]. unfold is_run_error, run_error_detail.
      rewrite Hty, String.eqb_refl, Hfact. done.
    + eapply tracks_launch; [done|done|].
      simpl. rewrite Hw, fmap_app, (decoded_events _ _ Hframes). simpl.
      unfold decoded at 1. rewrite Hdata. by rewrite <- app_assoc.
  - unfold stream_error, fmt_s_ErrorDetail. cbn [Error]. split.
    + apply strings.Contains_app_r, strings.Contains_app_r, strings.Contains_app_r,
        strings.Contains_app_r, strings.Contains_here.
    + apply strings.Contains_app_r, strings.Contains_app_r, strings.Contains_here.
Qed.

(** C3: the frames before the frame [data] decode to the events [evs], none
    of type [run.error], and [data] is not valid JSON. Then [Next] returns
    true for [evs] in order and false at that frame, with the decode error
    in [Err]; under no schedule is a further event delivered, whatever the
    producer sends for the frames after it. *)
Theorem Next_stops_at_malformed_frame (ctx : context)
    (config : option BotProviderConfig) (message : option GenericBotMessage)
    (s : botProviderStream) (effs : list effect) (w : Wire)
    (before after : list string) (data : string)
    (evs : list GenericBotSseEvent) (e : error) :
  NewStreaming ctx config message = (Some s, None, effs) ->
  ctx_Err ctx = None ->
  frames w = before ++ data :: after ->
  Forall2 (fun data ev => json_Unmarshal_event data = inl ev) before evs ->
  Forall (fun ev => GenericBotSseEvent.EventType ev ≠ SseEventTypeRunError) evs ->
  json_Unmarshal_event data = inr e ->
  delivers (launch w s) evs
    (Some (wrapError ("failed to unmarshal event: " +:+ Error e) e)).
Proof.
  intros Hnew Hctx Hw Hframes Hevs Hdata.
  apply (iteration evs
           (item_error (Errorf_w "failed to unmarshal event: " (Some e)) ::
            (decoded <$> after) ++
            (if errors_Is_EOF (result w) then []
             else [item_error (Errorf_w "SSE connection failed: " (result w))]))).
  - by apply not_run_error.
  - simpl. split; done.
  - eapply tracks_launch; [done|done|].
    simpl. rewrite Hw, fmap_app, (decoded_events _ _ Hframes). simpl.
    unfold decoded at 1. rewrite Hdata. by rewrite <- app_assoc.
Qed.

(** *** After [Close] *)





End Facts.

(** *** The scenarios of the specification, run *)

(** A stream of five events and a clean end. The consumer calls [Next]
    first and parks (a [Close] made then has to wait); from then on
    producer and consumer alternate. *)
Example five_events_then_end :
  let outcome :=
    @run sample.external
      ([calls_Next case_eventChan; calls_Close; producer_runs]
       ++ [resumes_Next case_eventChan; calls_Current; producer_runs]
       ++ [calls_Next case_eventChan; calls_Current; producer_runs]
       ++ [calls_Next case_eventChan; calls_Current; producer_runs]
       ++ [calls_Next case_eventChan; calls_Current; producer_runs]
       ++ [calls_Next case_eventChan; calls_Current; producer_runs; producer_runs]
       ++ [calls_Next case_eventChan; calls_Err; calls_Next case_eventChan])
      (launch
         (mkWire ["asgard.message.start"; "asgard.message.delta";
                  "asgard.message.delta"; "asgard.message.complete";
                  "asgard.run.done"] (Some io_EOF))
         sample.stream) in
  fst <$> outcome
  = Some [Next_returned true; Current_returned (Some 0%nat);
          Next_returned true; Current_returned (Some 1%nat);
          Next_returned true; Current_returned (Some 2%nat);
          Next_returned true; Current_returned (Some 3%nat);
          Next_returned true; Current_returned (Some 4%nat);
          Next_returned false; Err_returned None; Next_returned false]
  ∧ (fun r => sys_heap r.2) <$> outcome
    = Some (sample.event_of <$>
              ["asgard.message.start"; "asgard.message.delta";
               "asgard.message.delta"; "asgard.message.complete";
               "asgard.run.done"]).
Proof. split; by vm_compute. Qed.

(** The observations of that run are what a consumer of the five events
    expects. *)
Example five_events_observed :
  let evs :=
    sample.event_of <$>
      ["asgard.message.start"; "asgard.message.delta"; "asgard.message.delta";
       "asgard.message.complete"; "asgard.run.done"] in
  observes evs None evs 0 false
    [Next_returned true; Current_returned (Some 0%nat);
     Next_returned true; Current_returned (Some 1%nat);
     Next_returned true; Current_returned (Some 2%nat);
     Next_returned true; Current_returned (Some 3%nat);
     Next_returned true; Current_returned (Some 4%nat);
     Next_returned false; Err_returned None; Next_returned false].
Proof. simpl. repeat split; first [reflexivity | lia]. Qed.

(** A [run.error] event with its fact ends the iteration with an error. *)
Example run_error_ends_the_stream :
  fst <$>
    @run sample.external
      [producer_runs; producer_runs; calls_Next case_eventChan;
       calls_Next case_eventChan; calls_Current; calls_Err]
      (launch (mkWire ["asgard.run.init"; "asgard.run.error"] (Some io_EOF))
         sample.stream)
  = Some [Next_returned true; Next_returned false;
          Current_returned (Some 0%nat);
          Err_returned
            (Some (errorString
                     "SSE stream error: {quota exceeded E429  {default wf llm LLM cfg p-1}}"))].
Proof. by vm_compute. Qed.

(** A [run.error] event without its fact crashes the consumer. *)
Example run_error_without_fact_panics :
  @run sample.external
    [producer_runs; calls_Next case_eventChan]
    (launch (mkWire ["-asgard.run.error"] (Some io_EOF)) sample.stream)
  = None.
Proof. reflexivity. Qed.

(** The five-event scenario of the specification. *)
Lemma Next_in_wire_order_witness :
  @delivers sample.external
    (launch
       (mkWire ["asgard.message.start"; "asgard.message.delta";
                "asgard.message.delta"; "asgard.message.complete";
                "asgard.run.done"] (Some io_EOF))
       sample.stream)
    (sample.event_of <$>
       ["asgard.message.start"; "asgard.message.delta"; "asgard.message.delta";
        "asgard.message.complete"; "asgard.run.done"])
    None.
Proof.
  eapply (@Next_in_wire_order sample.external sample.background
            (Some sample.config) (Some sample.message));
    [reflexivity|reflexivity|repeat constructor|repeat constructor; discriminate
    |reflexivity].
Defined.

(** A [run.error] event between two other events. *)
Lemma Next_stops_at_run_error_witness :
  @delivers sample.external
    (launch (mkWire ["asgard.run.init"; "asgard.run.error"; "asgard.run.done"]
               (Some io_EOF))
       sample.stream)
    [sample.event_of "asgard.run.init"]
    (Some (stream_error sample.detail))
  ∧ strings_Contains (Error (stream_error sample.detail)) "E429" = true
  ∧ strings_Contains (Error (stream_error sample.detail)) "quota exceeded" = true.
Proof.
  eapply (@Next_stops_at_run_error sample.external sample.background
            (Some sample.config) (Some sample.message) sample.stream _
            (mkWire ["asgard.run.init"; "asgard.run.error"; "asgard.run.done"]
               (Some io_EOF))
            ["asgard.run.init"] ["asgard.run.done"] "asgard.run.error"
            [sample.event_of "asgard.run.init"]
            (sample.event_of "asgard.run.error")
            (GenericBotSseEventFactRunError.mk sample.detail));
    [reflexivity|reflexivity|reflexivity|repeat constructor
    |repeat constructor; discriminate|reflexivity|reflexivity|reflexivity].
Defined.

(** A frame that is not JSON between two events. *)
Lemma Next_stops_at_malformed_frame_witness :
  @delivers sample.external
    (launch (mkWire ["asgard.run.init"; "!"; "asgard.run.done"] (Some io_EOF))
       sample.stream)
    [sample.event_of "asgard.run.init"]
    (Some (wrapError
             ("failed to unmarshal event: " +:+
              "invalid character '!' looking for beginning of value")
             (errorString "invalid character '!' looking for beginning of value"))).
Proof.
  eapply (@Next_stops_at_malformed_frame sample.external sample.background
            (Some sample.config) (Some sample.message) sample.stream _
            (mkWire ["asgard.run.init"; "!"; "asgard.run.done"] (Some io_EOF))
            ["asgard.run.init"] ["asgard.run.done"] "!"
            [sample.event_of "asgard.run.init"]
            (errorString "invalid character '!' looking for beginning of value"));
    [reflexivity|reflexivity|reflexivity|repeat constructor
    |repeat constructor; discriminate|reflexivity].
Defined.



End running.

(** ** The synchronous calls *)

Module synchronous.
Import go models client.



Section Facts.
Context `{External}.
Variable c : BotProviderClient.
Variable ctx : context.
Variable httpClient : http_Client.
Variable resp : Response.
Variable respBytes : string.

Hypothesis has_client :
  BotProviderConfig.HTTPClient (BotProviderClient.config c) = Some httpClient.
Hypothesis request_is_built :
  ∀ method url, http_NewRequest_check ctx method url = None.
Hypothesis server_answers : ∀ req, http_Do httpClient req = inl resp.
Hypothesis body_is_read : Response.Body resp = inl respBytes.










End Facts.




(** The scenario of the specification: HTTP 200 with the envelope
    [{isSuccess:false, error:bad payload, errorCode:E400}]. *)
Example trigger_json_scenario :
  @TriggerJSON sample.external
    (NewBotProviderClientWithConfig (Some sample.config)) sample.background ∅
  = Returns (any_nil,
             Some (errorString "trigger json failed (200): bad payload (E400)"))
  ∧ strings_Contains "trigger json failed (200): bad payload (E400)" "bad payload" = true
  ∧ strings_Contains "trigger json failed (200): bad payload (E400)" "E400" = true.
Proof. split_and!; by vm_compute. Qed.

End synchronous.

(** ** The life cycle of a stream, under every schedule *)

Module lifecycle.
Import go models client botProviderStream notions methods running.

(** What the select statement did when it returned true. *)
Lemma Next_select_true (pick : select_case) (h : heap) (s s' : botProviderStream) :
  Next_select pick h s = Returns (true, s') ->
  ∃ w p ev,
    chan_buf (eventChan s) = w :: chan_buf (eventChan s')
    ∧ view h w = Some (item_event ev)
    ∧ is_run_error ev = false
    ∧ h !! p = Some ev
    ∧ currentEvent s' = Some p
    ∧ err s' = err s.
Proof.
  unfold Next_select, Next_done, Next_recv, chan_recv, view, is_run_error.
  destruct s as [c cfg m cl cn [buf cap cc] cur e clo l]; simpl.
  intros Hsel.
  repeat case_match; simplify_eq/=;
    match goal with
    | Hc : GenericBotSseEventWrapper.ConnectionError ?w = None,
      He : GenericBotSseEventWrapper.Event ?w = Some ?p,
      Hh : _ !! ?p = Some ?ev |- _ =>
        exists w, p, ev; rewrite Hc, He; simpl; rewrite Hh
    end; done.
Qed.

(** What the select statement did when it returned false: the current
    event is the one before, and either an error is stored or the channel
    is closed and drained. *)
Lemma Next_select_false (pick : select_case) (h : heap) (s s' : botProviderStream) :
  Next_select pick h s = Returns (false, s') ->
  currentEvent s' = currentEvent s
  ∧ (err s' ≠ None
     ∨ (err s' = err s
        ∧ chan_buf (eventChan s') = [] ∧ chan_closed (eventChan s') = true)).
Proof.
  unfold Next_select, Next_done, Next_recv, chan_recv.
  destruct s as [c cfg m cl cn [buf cap cc] cur e clo l]; simpl.
  intros Hsel.
  repeat case_match; simplify_eq/=; split; try done; eauto.
Qed.

(** The select statement of a stream whose context is done never parks. *)
Lemma Next_select_done_ready (pick : select_case) (h : heap) (s : botProviderStream)
    (cause : error) :
  ctx_Err (ctx s) = Some cause -> Next_select pick h s ≠ Blocks.
Proof.
  unfold Next_select, Next_done, Next_recv, chan_recv. intros ->.
  repeat case_match; simplify_eq/=; done.
Qed.

Lemma not_run_error_type (ev : GenericBotSseEvent) :
  is_run_error ev = false ->
  GenericBotSseEvent.EventType ev ≠ SseEventTypeRunError.
Proof.
  unfold is_run_error.
  by destruct (String.eqb_spec (GenericBotSseEvent.EventType ev) SseEventTypeRunError).
Qed.

Section Facts.
Context `{External}.

(** A returning [Next], called or woken, on a sane system: the select
    statement it ran, unless the stream was closed or failed. *)
Lemma Next_returned_cases (sys sys' : system) (a : action) (o : list observation)
    (b : bool) :
  sane sys ->
  exec sys a = Stepped o sys' ->
  Next_returned b ∈ o ->
  sys_heap sys' = sys_heap sys
  ∧ sys_producer sys' = sys_producer sys
  ∧ mu (sys_stream sys') = false
  ∧ ((b = false ∧ abandoned (sys_stream sys)
      ∧ mu (sys_stream sys) = false ∧ sys_stream sys' = sys_stream sys)
     ∨ (closed (sys_stream sys) = false ∧ err (sys_stream sys) = None
        ∧ ∃ pick s1,
            Next_select pick (sys_heap sys) (with_mu true (sys_stream sys))
            = Returns (b, s1)
            ∧ sys_stream sys' = with_mu false s1)).
Proof.
  intros [Hc Hcap Hmu Hitems Hcur] Hexec Hin.
  destruct a; simpl in Hexec.
  - destruct (producer_step _ _ _) as [[[h' ch'] p']| |]; [|done|done].
    injection Hexec as <- <-. by apply elem_of_nil in Hin.
  - unfold Next in Hexec. destruct (mu (sys_stream sys)) eqn:Hl; [done|].
    unfold Next_locked in Hexec. simpl in Hexec.
    destruct (closed (sys_stream sys) || bool_decide (err (sys_stream sys) ≠ None))
      eqn:Hterm; simpl in Hexec.
    + injection Hexec as <- <-. apply list_elem_of_singleton in Hin as [= ->].
      rewrite with_mu_unlock by done. simpl.
      split_and!; [done|done|done|]. left. split_and!; [done| |done|done].
      apply orb_true_iff in Hterm as [?|Herr]; [by left|right].
      by apply bool_decide_eq_true in Herr.
    + apply orb_false_elim in Hterm as [Hopen Herr].
      apply bool_decide_eq_false in Herr.
      assert (err (sys_stream sys) = None) as Herr'
        by by destruct (err (sys_stream sys)); [destruct Herr|].
      destruct (Next_select _ _ _) as [[b' s1]| |] eqn:Hsel; simpl in Hexec; [| |done].
      * injection Hexec as <- <-. apply list_elem_of_singleton in Hin as [= ->].
        simpl. split_and!; [done|done|done|]. right. eauto 10.
      * injection Hexec as <- <-. by apply elem_of_nil in Hin.
  - destruct (mu (sys_stream sys)) eqn:Hl; [|done].
    destruct (Hmu eq_refl) as [Hopen Herr].
    unfold Next_resume in Hexec.
    destruct (Next_select _ _ _) as [[b' s1]| |] eqn:Hsel; simpl in Hexec; [| |done].
    + injection Hexec as <- <-. apply list_elem_of_singleton in Hin as [= ->].
      simpl. split_and!; [done|done|done|]. right. split_and!; [done|done|].
      exists pick, s1. by rewrite with_mu_id.
    + injection Hexec as <- <-. by apply elem_of_nil in Hin.
  - unfold Current in Hexec. destruct (mu (sys_stream sys)); [done|].
    injection Hexec as <- <-. by apply list_elem_of_singleton in Hin.
  - unfold Err in Hexec. destruct (mu (sys_stream sys)); [done|].
    injection Hexec as <- <-. by apply list_elem_of_singleton in Hin.
  - unfold Close, Close_locked in Hexec.
    destruct (mu (sys_stream sys)); [done|]. simpl in Hexec.
    destruct (closed (sys_stream sys)); injection Hexec as <- <-;
      by apply list_elem_of_singleton in Hin.
  - injection Hexec as <- <-. by apply elem_of_nil in Hin.
Qed.

(** Whenever [Next] returns true, called or woken, under any schedule: it
    has taken the item at the head of the channel, a decoded event whose
    type is not [run.error]; that event is now the current one, so
    [Current] returns a non-nil pointer to it; no error is stored and the
    stream is not closed. A caller that reads [Current().EventType] after
    a true [Next] does not dereference nil, and never sees a [run.error]
    event there. *)
Theorem Next_true_sets_Current (sys sys' : system) (a : action)
    (o : list observation) :
  sane sys ->
  exec sys a = Stepped o sys' ->
  Next_returned true ∈ o ->
  ∃ w p ev,
    chan_buf (eventChan (sys_stream sys))
    = w :: chan_buf (eventChan (sys_stream sys'))
    ∧ view (sys_heap sys) w = Some (item_event ev)
    ∧ GenericBotSseEvent.EventType ev ≠ SseEventTypeRunError
    ∧ current_event sys' = Some ev
    ∧ exec sys' calls_Current = Stepped [Current_returned (Some p)] sys'
    ∧ exec sys' calls_Err = Stepped [Err_returned None] sys'
    ∧ closed (sys_stream sys') = false.
Proof.
  intros Hsane Hexec Hin.
  destruct (Next_returned_cases _ _ _ _ _ Hsane Hexec Hin)
    as (Hheap & Hprod & Hmu & [(? & _)|(Hopen & Herr & pick & s1 & Hsel & Hs')]);
    [done|].
  pose proof (Next_select_frame _ _ _ _ _ Hsel) as (Hclosed1 & _).
  apply Next_select_true in Hsel as (w & p & ev & Hbuf & Hview & Hty & Hp & Hcur & Herr1).
  exists w, p, ev. destruct sys' as [h' s' p']. simpl in *. subst h' s' p'.
  simpl in *. split_and!.
  - done.
  - done.
  - by apply not_run_error_type.
  - unfold current_event. simpl. by rewrite Hcur.
  - unfold Current. simpl. by rewrite Hcur.
  - unfold Err. simpl. by rewrite Herr1, Herr.
  - by rewrite Hclosed1.
Qed.


(** One step on a stream whose iteration is over: no crash, [Next] returns
    false, the stream stays ended, a stored error stays, and the current
    event is the one before or (after [Close]) none. *)
Lemma ended_exec (sys : system) (a : action) :
  sane sys -> ended (sys_stream sys) ->
  match exec sys a with
  | Stepped o sys' =>
      ended (sys_stream sys')
      ∧ Forall (fun b => b = false) (Next_results o)
      ∧ (∀ e, err (sys_stream sys) = Some e -> err (sys_stream sys') = Some e)
      ∧ (currentEvent (sys_stream sys') = currentEvent (sys_stream sys)
         ∨ currentEvent (sys_stream sys') = None)
  | NotEnabled => True
  | Crashed => False
  end.
Proof.
  intros Hsane Hended.
  pose proof Hsane as [Hc _ Hmu _ _].
  assert (∀ pick,
            closed (sys_stream sys) = false -> err (sys_stream sys) = None ->
            ∃ s1, Next_select pick (sys_heap sys) (sys_stream sys) = Returns (false, s1)
                  ∧ ended s1 ∧ closed s1 = false
                  ∧ currentEvent s1 = currentEvent (sys_stream sys)) as Hsel.
  { intros pick Hopen Herr.
    destruct Hended as [?|[?|[Hbuf Hcc]]]; [congruence|done|].
    unfold Next_select, chan_recv, Next_recv, Next_done. rewrite Hbuf, Hcc.
    destruct (ctx_Err (ctx (sys_stream sys))) as [e|], pick; simpl;
      eexists; (split; [done|]); unfold ended; simpl; eauto 10. }
  destruct a; simpl.
  - pose proof (producer_step_spec (sys_heap sys) (eventChan (sys_stream sys))
                  (sys_producer sys) Hc) as Hp.
    destruct (producer_step _ _ _) as [[[h' ch'] p']| |] eqn:Hstep; [|done|done].
    simpl. split_and!; [|constructor|done|by left].
    destruct Hended as [?|[?|[Hbuf Hcc]]]; [by left|by right; left|].
    rewrite (proj1 Hc Hcc) in Hstep. done.
  - destruct (mu (sys_stream sys)) eqn:Hl; [by unfold Next; rewrite Hl|].
    destruct (closed (sys_stream sys)) eqn:Hopen.
    { rewrite Next_terminal by eauto. simpl.
      split_and!; [done|by repeat constructor|done|by left]. }
    destruct (err (sys_stream sys)) as [e|] eqn:Herr.
    { rewrite Next_terminal by (try done; right; by rewrite Herr). simpl.
      split_and!; [done|by repeat constructor|congruence|by left]. }
    rewrite Next_live by done.
    destruct (Hsel pick eq_refl eq_refl) as (s1 & Hs1 & Hended1 & Hopen1 & Hcur1).
    apply (Next_select_frame _ _ _ _ _) in Hs1 as Hframe.
    assert (Next_select pick (sys_heap sys) (with_mu true (sys_stream sys))
            = Returns (false, with_mu true s1)) as ->.
    { revert Hs1. unfold Next_select, chan_recv, Next_recv, Next_done. simpl.
      intros Hs1. repeat case_match; simplify_eq/=; done. }
    simpl. split_and!; [|by repeat constructor|done|by left].
    destruct s1; exact Hended1.
  - destruct (mu (sys_stream sys)) eqn:Hl; [|done].
    destruct (Hmu eq_refl) as [Hopen Herr].
    destruct (Hsel pick Hopen Herr) as (s1 & Hs1 & Hended1 & Hopen1 & Hcur1).
    unfold Next_resume. rewrite Hs1. simpl.
    split_and!; [|by repeat constructor|by rewrite Herr|by left].
    destruct s1; exact Hended1.
  - unfold Current. destruct (mu (sys_stream sys)); [done|]. simpl.
    split_and!; [done|constructor|done|by left].
  - unfold Err. destruct (mu (sys_stream sys)); [done|]. simpl.
    split_and!; [done|constructor|done|by left].
  - unfold Close, Close_locked. destruct (mu (sys_stream sys)) eqn:Hl; [done|].
    simpl. destruct (closed (sys_stream sys)) eqn:Hclosed; simpl.
    + split_and!; [by left|constructor|done|by left].
    + split_and!; [by left|constructor|done|by right].
  - simpl. split_and!; [done|constructor|done|by left].
Qed.

(** The same for a whole schedule. *)
Lemma ended_run (sched : list action) (sys : system) :
  sane sys -> ended (sys_stream sys) ->
  ∃ obs sys',
    run sched sys = Some (obs, sys')
    ∧ sane sys'
    ∧ ended (sys_stream sys')
    ∧ Forall (fun b => b = false) (Next_results obs)
    ∧ (∀ e, err (sys_stream sys) = Some e -> err (sys_stream sys') = Some e)
    ∧ (currentEvent (sys_stream sys') = currentEvent (sys_stream sys)
       ∨ currentEvent (sys_stream sys') = None).
Proof.
  revert sys. induction sched as [|a sched IH]; intros sys Hsane Hended.
  - exists [], sys. split_and!; try done. by left.
  - simpl. pose proof (ended_exec sys a Hsane Hended) as Hexec.
    destruct (exec sys a) as [o sys1| |] eqn:Ha; [|by apply IH|done].
    destruct Hexec as (Hended1 & Ho & Herr1 & Hcur1).
    pose proof (sane_exec _ _ _ _ Hsane Ha) as Hsane1.
    destruct (IH sys1 Hsane1 Hended1) as (obs & sys' & -> & ? & ? & Hobs & Herr & Hcur).
    exists (o ++ obs), sys'.
    split_and!; [done|done|done| |by eauto|].
    + rewrite Next_results_app. by apply Forall_app.
    + destruct Hcur as [->|?]; [done|by right].
Qed.

(** Once [Next] has returned false the iteration is over for good. The
    false return left the current event as it was, and the stream is
    closed, or holds an error, or its channel is closed and drained. From
    then on, whatever is scheduled (more calls, [Close], a cancellation,
    the goroutine) the program does not crash, every [Next] returns false,
    no further event becomes current, and an error once stored stays the
    stored error. *)
Theorem Next_false_is_final (sys sys1 : system) (a : action)
    (o : list observation) :
  sane sys ->
  exec sys a = Stepped o sys1 ->
  Next_returned false ∈ o ->
  currentEvent (sys_stream sys1) = currentEvent (sys_stream sys)
  ∧ ended (sys_stream sys1)
  ∧ ∀ sched,
      ∃ obs sys2,
        run sched sys1 = Some (obs, sys2)
        ∧ Forall (fun b => b = false) (Next_results obs)
        ∧ (∀ e, err (sys_stream sys1) = Some e -> err (sys_stream sys2) = Some e)
        ∧ (currentEvent (sys_stream sys2) = currentEvent (sys_stream sys1)
           ∨ currentEvent (sys_stream sys2) = None).
Proof.
  intros Hsane Hexec Hin.
  pose proof (sane_exec _ _ _ _ Hsane Hexec) as Hsane1.
  destruct (Next_returned_cases _ _ _ _ _ Hsane Hexec Hin)
    as (Hheap & Hprod & Hmu1
        & [(_ & Hab & Hmu & Hs)|(Hopen & Herr & pick & s1 & Hsel & Hs')]).
  - assert (ended (sys_stream sys1)) as Hended.
    { rewrite Hs. destruct Hab; [by left|by right; left]. }
    split_and!; [by rewrite Hs|done|].
    intros sched.
    destruct (ended_run sched sys1 Hsane1 Hended)
      as (obs & sys2 & Hrun & Hsane2 & Hended2 & Hres & Herr & Hcur).
    by exists obs, sys2.
  - apply Next_select_false in Hsel as Hfalse.
    destruct Hfalse as (Hcur1 & Hwhy).
    assert (ended (sys_stream sys1)) as Hended.
    { rewrite Hs'. destruct Hwhy as [?|(_ & ? & ?)].
      - right; left. by destruct s1.
      - right; right. by destruct s1. }
    split_and!; [by rewrite Hs'; destruct s1|done|].
    intros sched.
    destruct (ended_run sched sys1 Hsane1 Hended)
      as (obs & sys2 & Hrun & Hsane2 & Hended2 & Hres & Herr2 & Hcur).
    by exists obs, sys2.
Qed.

(** *** The channel *)

(** No step changes the capacity of the channel or fills it beyond. *)
Lemma bounded_exec (sys sys' : system) (a : action) (o : list observation) :
  exec sys a = Stepped o sys' ->
  chan_cap (eventChan (sys_stream sys')) = chan_cap (eventChan (sys_stream sys))
  ∧ ((length (chan_buf (eventChan (sys_stream sys)))
      <= chan_cap (eventChan (sys_stream sys)))%nat ->
     (length (chan_buf (eventChan (sys_stream sys')))
      <= chan_cap (eventChan (sys_stream sys')))%nat).
Proof.
  assert (∀ pick s1 b s2,
            Next_select pick (sys_heap sys) s1 = Returns (b, s2) ->
            chan_cap (eventChan (with_mu false s2)) = chan_cap (eventChan s1)
            ∧ ((length (chan_buf (eventChan s1)) <= chan_cap (eventChan s1))%nat ->
               (length (chan_buf (eventChan (with_mu false s2)))
                <= chan_cap (eventChan (with_mu false s2)))%nat)) as Hsel.
  { intros pick s1 b s2 Hs.
    apply Next_select_frame in Hs as (_ & _ & _ & Hcap & _ & Hbuf). simpl.
    rewrite Hcap. split; [done|].
    destruct Hbuf as [->|[w ->]]; simpl; lia. }
  destruct a; simpl; intros Hexec.
  - destruct (sys_producer sys) as [[|data rest] r| |]; simpl in Hexec.
    + destruct (errors_Is_EOF r); simpl in Hexec; [by injection Hexec as <- <-|].
      unfold chan_send in Hexec.
      destruct (chan_closed _); [done|].
      destruct (Nat.ltb_spec (length (chan_buf (eventChan (sys_stream sys))))
                  (chan_cap (eventChan (sys_stream sys)))); [|done].
      injection Hexec as <- <-. simpl. rewrite length_app. simpl. split; lia.
    + unfold onEvent, chan_send in Hexec.
      destruct (json_Unmarshal_event data); simpl in Hexec;
        (destruct (chan_closed _); [done|]);
        (destruct (Nat.ltb_spec (length (chan_buf (eventChan (sys_stream sys))))
                     (chan_cap (eventChan (sys_stream sys)))); [|done]);
        injection Hexec as <- <-; simpl; rewrite length_app; simpl; split; lia.
    + unfold chan_close in Hexec. destruct (chan_closed _); [done|].
      by injection Hexec as <- <-.
    + done.
  - unfold Next, Next_locked in Hexec.
    destruct (mu (sys_stream sys)); [done|]. simpl in Hexec.
    destruct (closed (sys_stream sys) || bool_decide (err (sys_stream sys) ≠ None));
      simpl in Hexec; [by injection Hexec as <- <-|].
    destruct (Next_select _ _ _) as [[b s1]| |] eqn:Hs; simpl in Hexec; [| |done].
    + injection Hexec as <- <-. apply (Hsel _ _ _ _ Hs).
    + by injection Hexec as <- <-.
  - destruct (mu (sys_stream sys)); [|done]. unfold Next_resume in Hexec.
    destruct (Next_select _ _ _) as [[b s1]| |] eqn:Hs; simpl in Hexec; [| |done].
    + injection Hexec as <- <-. apply (Hsel _ _ _ _ Hs).
    + by injection Hexec as <- <-.
  - unfold Current in Hexec. destruct (mu (sys_stream sys)); [done|].
    by injection Hexec as <- <-.
  - unfold Err in Hexec. destruct (mu (sys_stream sys)); [done|].
    by injection Hexec as <- <-.
  - unfold Close, Close_locked in Hexec.
    destruct (mu (sys_stream sys)); [done|]. simpl in Hexec.
    destruct (closed (sys_stream sys)); by injection Hexec as <- <-.
  - by injection Hexec as <- <-.
Qed.

Lemma bounded_run (sched : list action) (sys sys' : system)
    (obs : list observation) :
  run sched sys = Some (obs, sys') ->
  chan_cap (eventChan (sys_stream sys')) = chan_cap (eventChan (sys_stream sys))
  ∧ ((length (chan_buf (eventChan (sys_stream sys)))
      <= chan_cap (eventChan (sys_stream sys)))%nat ->
     (length (chan_buf (eventChan (sys_stream sys')))
      <= chan_cap (eventChan (sys_stream sys')))%nat).
Proof.
  revert sys obs. induction sched as [|a sched IH]; intros sys obs; simpl.
  - by intros [= <- <-].
  - destruct (exec sys a) as [o sys1| |] eqn:Hexec; [| |done].
    + destruct (run sched sys1) as [[obs1 sys2]|] eqn:Hrun; [|done].
      intros [= <- <-].
      destruct (bounded_exec _ _ _ _ Hexec) as [Hcap Hlen].
      destruct (IH _ _ Hrun) as [Hcap' Hlen'].
      split; [congruence|auto].
    + apply IH.
Qed.

(** A goroutine that has an item to send finds the channel open; on a full
    channel it parks where it is. *)
Lemma full_channel_parks (sys : system) :
  sane sys ->
  to_send (sys_producer sys) ≠ [] ->
  (chan_cap (eventChan (sys_stream sys))
   <= length (chan_buf (eventChan (sys_stream sys))))%nat ->
  exec sys producer_runs = NotEnabled.
Proof.
  intros [Hc _ _ _ _] Hsend Hfull. simpl.
  assert (chan_closed (eventChan (sys_stream sys)) = false) as Hopen.
  { destruct (chan_closed _); [|done].
    rewrite (proj1 Hc eq_refl) in Hsend. done. }
  destruct (sys_producer sys) as [[|data rest] r| |]; simpl in *; [| |done|done].
  - destruct (errors_Is_EOF r); [done|]. simpl. unfold chan_send. rewrite Hopen.
    by destruct (Nat.ltb_spec (length (chan_buf (eventChan (sys_stream sys))))
                   (chan_cap (eventChan (sys_stream sys)))); [lia|].
  - unfold onEvent, chan_send. rewrite Hopen.
    destruct (json_Unmarshal_event data); simpl;
      by destruct (Nat.ltb_spec (length (chan_buf (eventChan (sys_stream sys))))
                     (chan_cap (eventChan (sys_stream sys)))); [lia|].
Qed.

(** The channel of a stream never holds more than 100 items. In every
    system a stream reaches from [NewStreaming], on any wire and under any
    schedule, the capacity is 100 and at most 100 items are queued; a
    goroutine that has an item to send while 100 are queued parks: it
    drops nothing and overwrites nothing, it waits for the consumer. *)
Theorem channel_is_bounded (ctx : context) (config : option BotProviderConfig)
    (message : option GenericBotMessage) (s : botProviderStream)
    (effs : list effect) (w : Wire) (sched : list action)
    (obs : list observation) (sys : system) :
  NewStreaming ctx config message = (Some s, None, effs) ->
  run sched (launch w s) = Some (obs, sys) ->
  chan_cap (eventChan (sys_stream sys)) = 100%nat
  ∧ (length (chan_buf (eventChan (sys_stream sys))) <= 100)%nat
  ∧ (length (chan_buf (eventChan (sys_stream sys))) = 100%nat ->
     to_send (sys_producer sys) ≠ [] ->
     exec sys producer_runs = NotEnabled).
Proof.
  intros Hnew Hrun.
  assert (chan_cap (eventChan s) = 100%nat ∧ chan_buf (eventChan s) = [])
    as [Hcap Hbuf].
  { revert Hnew. unfold NewStreaming.
    destruct config as [config|]; [|done].
    destruct message as [message|]; [|done].
    match goal with |- context [connect ?s0] =>
      destruct (constructor.connect_cases s0) as [[e E]|[conn E]]; rewrite E
    end; [done|].
    by intros [= <- _]. }
  destruct (bounded_run _ _ _ _ Hrun) as [Hcap' Hlen]. simpl in *.
  rewrite Hcap in Hcap'. rewrite Hcap' in Hlen.
  split_and!; [done|apply Hlen; rewrite Hbuf; simpl; lia|].
  intros Hfull Hsend. apply full_channel_parks; [|done|lia].
  by eapply sane_reachable.
Qed.

(** *** A stream the consumer gave up *)

(** One step on a stream that is closed or failed: nobody receives, so the
    queued items stay queued and the goroutine can only add to them. *)
Lemma abandoned_exec (sys : system) (a : action) :
  sane sys -> abandoned (sys_stream sys) ->
  match exec sys a with
  | Stepped o sys' =>
      abandoned (sys_stream sys')
      ∧ outstanding sys' = outstanding sys
      ∧ chan_buf (eventChan (sys_stream sys))
        `prefix_of` chan_buf (eventChan (sys_stream sys'))
  | NotEnabled => True
  | Crashed => False
  end.
Proof.
  intros Hsane Hab.
  pose proof Hsane as [Hc _ Hmu _ _].
  assert (mu (sys_stream sys) = false) as Hl.
  { destruct (mu (sys_stream sys)); [|done].
    destruct (Hmu eq_refl) as [? Herr]. destruct Hab; congruence. }
  destruct a; simpl.
  - pose proof (producer_step_spec (sys_heap sys) (eventChan (sys_stream sys))
                  (sys_producer sys) Hc) as Hp.
    destruct (producer_step _ _ _) as [[[h' ch'] p']| |]; [|done|done].
    destruct Hp as (_ & _ & _ & _ & ws & its & Hbuf & Hws & Hsend).
    unfold outstanding. simpl. split_and!; [done| |by exists ws].
    rewrite Hbuf, <- Hsend, !length_app, (Forall2_length _ _ _ Hws). lia.
  - rewrite Next_terminal by done. simpl. done.
  - by rewrite Hl.
  - unfold Current. rewrite Hl. simpl. done.
  - unfold Err. rewrite Hl. simpl. done.
  - unfold Close, Close_locked. rewrite Hl. simpl.
    destruct (closed (sys_stream sys)); simpl; split_and!; try done. by left.
  - simpl. done.
Qed.

(** [Close] and a stored error do not reach the goroutine, and nothing
    drains the channel afterwards. On a stream that is closed or failed,
    under every schedule: the program does not crash, the items queued
    stay queued (the goroutine only appends), and nothing is received, so
    the number of items queued or still to send stays what it was. If that
    number exceeds the capacity of the channel the goroutine never gets to
    the end: it stays inside [Connect], and the channel is never closed. *)
Theorem abandoned_stream_is_not_drained (sys : system) (sched : list action) :
  sane sys ->
  abandoned (sys_stream sys) ->
  (length (chan_buf (eventChan (sys_stream sys)))
   <= chan_cap (eventChan (sys_stream sys)))%nat ->
  ∃ obs sys',
    run sched sys = Some (obs, sys')
    ∧ abandoned (sys_stream sys')
    ∧ outstanding sys' = outstanding sys
    ∧ chan_buf (eventChan (sys_stream sys))
      `prefix_of` chan_buf (eventChan (sys_stream sys'))
    ∧ ((chan_cap (eventChan (sys_stream sys)) < outstanding sys)%nat ->
       chan_closed (eventChan (sys_stream sys')) = false
       ∧ ∃ frames r, sys_producer sys' = Connecting frames r).
Proof.
  intros Hsane Hab Hlen.
  assert (∃ obs sys',
            run sched sys = Some (obs, sys')
            ∧ sane sys'
            ∧ abandoned (sys_stream sys')
            ∧ outstanding sys' = outstanding sys
            ∧ chan_buf (eventChan (sys_stream sys))
              `prefix_of` chan_buf (eventChan (sys_stream sys')))
    as (obs & sys' & Hrun & Hsane' & Hab' & Hout & Hpre).
  { clear Hlen. revert sys Hsane Hab.
    induction sched as [|a sched IH]; intros sys Hsane Hab.
    - by exists [], sys.
    - simpl. pose proof (abandoned_exec sys a Hsane Hab) as Hexec.
      destruct (exec sys a) as [o sys1| |] eqn:Ha; [|by apply IH|done].
      destruct Hexec as (Hab1 & Hout1 & Hpre1).
      pose proof (sane_exec _ _ _ _ Hsane Ha) as Hsane1.
      destruct (IH sys1 Hsane1 Hab1) as (obs & sys' & -> & ? & ? & Hout & Hpre).
      exists (o ++ obs), sys'. split_and!; [done|done|done|congruence|].
      by etrans. }
  exists obs, sys'. split_and!; [done|done|done|done|].
  intros Hmore.
  destruct (bounded_run _ _ _ _ Hrun) as [Hcap' Hlen'].
  specialize (Hlen' Hlen).
  assert (to_send (sys_producer sys') ≠ []) as Hsend.
  { intros Hnil. unfold outstanding in Hout. rewrite Hnil in Hout. simpl in Hout.
    unfold outstanding in Hmore. lia. }
  destruct (sys_producer sys') as [frames r| |] eqn:Hp; [|done|done].
  split; [|by eauto].
  destruct (chan_closed _) eqn:Hcc; [|done].
  by rewrite (proj1 (sane_closed _ Hsane') Hcc) in Hp.
Qed.

(** *** What can crash *)

(** The select statement panics only on a [run.error] event without its
    fact, when the items of the channel are what a sane system holds. *)
Lemma Next_select_panics (pick : select_case) (h : heap) (s : botProviderStream) :
  Forall (fun w => is_Some (view h w)) (chan_buf (eventChan s)) ->
  Next_select pick h s = Panics ->
  ∃ w rest ev,
    chan_buf (eventChan s) = w :: rest
    ∧ view h w = Some (item_event ev)
    ∧ is_run_error ev = true
    ∧ run_error_detail ev = None.
Proof.
  intros Hitems Hsel.
  destruct (chan_buf (eventChan s)) as [|w rest] eqn:Hbuf.
  - revert Hsel. unfold Next_select, chan_recv, Next_recv, Next_done. rewrite Hbuf.
    repeat case_match; simplify_eq/=; done.
  - apply Forall_cons in Hitems as [[it Hit] _].
    revert Hsel. unfold Next_select, chan_recv, Next_done. rewrite Hbuf.
    rewrite (Next_recv_item _ _ _ _ _ Hit).
    destruct it as [ev|e].
    + destruct (is_run_error ev) eqn:Hty, (run_error_detail ev) eqn:Hd;
        repeat case_match; simplify_eq/=; try done; eauto 10.
    + repeat case_match; simplify_eq/=; done.
Qed.

(** The only crash. A step of a sane system crashes only when it is
    [Next], called or woken, receiving an event of type [run.error] whose
    [RunError] fact is nil. The goroutine never panics (it does not send
    on a closed channel and closes it once), and neither do [Current],
    [Err], [Close] or a cancellation. *)
Theorem crash_is_a_missing_fact (sys : system) (a : action) :
  sane sys ->
  exec sys a = Crashed ->
  (∃ pick, a = calls_Next pick ∨ a = resumes_Next pick)
  ∧ ∃ w rest ev,
      chan_buf (eventChan (sys_stream sys)) = w :: rest
      ∧ view (sys_heap sys) w = Some (item_event ev)
      ∧ GenericBotSseEvent.EventType ev = SseEventTypeRunError
      ∧ GenericBotSseEventFact.RunError (GenericBotSseEvent.Fact ev) = None.
Proof.
  intros [Hc _ Hmu Hitems _] Hexec.
  assert (∀ pick s1,
            eventChan s1 = eventChan (sys_stream sys) ->
            Next_select pick (sys_heap sys) s1 = Panics ->
            ∃ w rest ev,
              chan_buf (eventChan (sys_stream sys)) = w :: rest
              ∧ view (sys_heap sys) w = Some (item_event ev)
              ∧ GenericBotSseEvent.EventType ev = SseEventTypeRunError
              ∧ GenericBotSseEventFact.RunError (GenericBotSseEvent.Fact ev) = None)
    as Hsel.
  { intros pick s1 Hch Hs.
    apply Next_select_panics in Hs as (w & rest & ev & Hbuf & Hview & Hty & Hd);
      [|by rewrite Hch].
    rewrite Hch in Hbuf. exists w, rest, ev. split_and!; [done|done| |].
    - unfold is_run_error in Hty. by apply String.eqb_eq in Hty.
    - unfold run_error_detail in Hd.
      by destruct (GenericBotSseEventFact.RunError _). }
  destruct a; simpl in Hexec.
  - pose proof (producer_step_spec (sys_heap sys) (eventChan (sys_stream sys))
                  (sys_producer sys) Hc) as Hp.
    by destruct (producer_step _ _ _) as [[[h' ch'] p']| |].
  - split; [by eauto|].
    unfold Next, Next_locked in Hexec.
    destruct (mu (sys_stream sys)); [done|]. simpl in Hexec.
    destruct (closed (sys_stream sys) || bool_decide (err (sys_stream sys) ≠ None));
      [done|].
    destruct (Next_select _ _ _) as [[b s1]| |] eqn:Hs; [done|done|].
    exact (Hsel pick (with_mu true (sys_stream sys)) eq_refl Hs).
  - split; [by eauto|].
    destruct (mu (sys_stream sys)); [|done]. unfold Next_resume in Hexec.
    destruct (Next_select _ _ _) as [[b s1]| |] eqn:Hs; [done|done|].
    exact (Hsel pick (sys_stream sys) eq_refl Hs).
  - unfold Current in Hexec. by destruct (mu (sys_stream sys)).
  - unfold Err in Hexec. by destruct (mu (sys_stream sys)).
  - unfold Close, Close_locked in Hexec.
    destruct (mu (sys_stream sys)); [done|]. simpl in Hexec.
    by destruct (closed (sys_stream sys)).
  - done.
Qed.

Lemma view_in_heap (h : heap) (w : GenericBotSseEventWrapper)
    (ev : GenericBotSseEvent) :
  view h w = Some (item_event ev) -> ev ∈ h.
Proof.
  unfold view. destruct (GenericBotSseEventWrapper.ConnectionError w); [done|].
  destruct (GenericBotSseEventWrapper.Event w) as [p|]; simpl; [|done].
  destruct (h !! p) as [ev'|] eqn:Hp; simpl; [|done].
  intros [= <-]. by eapply list_elem_of_lookup_2.
Qed.

(** Only the goroutine touches the heap of decoded events and its own
    state. *)
Lemma exec_consumer (sys sys' : system) (a : action) (o : list observation) :
  a ≠ producer_runs ->
  exec sys a = Stepped o sys' ->
  sys_heap sys' = sys_heap sys ∧ sys_producer sys' = sys_producer sys.
Proof.
  intros Ha Hexec.
  assert (∀ R (obs : R -> observation) (c : call R),
            on_call sys obs c = Stepped o sys' ->
            sys_heap sys' = sys_heap sys ∧ sys_producer sys' = sys_producer sys)
    as Hcall.
  { intros R obs [r s1|s1| |]; simpl; [| |done|done]; by intros [= <- <-]. }
  destruct a; simpl in Hexec; try done; try (by eapply Hcall).
  - destruct (mu (sys_stream sys)); [|done]. by eapply Hcall.
  - by injection Hexec as <- <-.
Qed.

(** Every step keeps a system safe, and no step of a safe system crashes. *)
Lemma safe_exec (sys : system) (a : action) :
  safe sys ->
  match exec sys a with
  | Stepped o sys' => safe sys'
  | NotEnabled => True
  | Crashed => False
  end.
Proof.
  intros [Hsane Hheap Hframes].
  destruct (exec sys a) as [o sys'| |] eqn:Hexec; [|done|].
  - pose proof (sane_exec _ _ _ _ Hsane Hexec) as Hsane'.
    assert (a = producer_runs ∨ a ≠ producer_runs) as [->|Ha]
      by (destruct a; eauto).
    + simpl in Hexec. revert Hexec.
      destruct (sys_producer sys) as [[|data rest] r| |]; simpl.
      * destruct (errors_Is_EOF r); simpl; [by intros [= <- <-]|].
        destruct (chan_send _ _); simpl; [|done|done]. by intros [= <- <-].
      * simpl in Hframes. apply Forall_cons in Hframes as [Hdata Hrest].
        unfold onEvent.
        destruct (json_Unmarshal_event data) as [ev|e] eqn:Hev; simpl;
          (destruct (chan_send _ _); simpl; [|done|done]); intros [= <- <-];
          (constructor; [done| |done]); simpl; [|done].
        apply Forall_app. split; [done|]. constructor; [|done].
        by apply Hdata.
      * destruct (chan_close _); simpl; [|done|done]. by intros [= <- <-].
      * done.
    + destruct (exec_consumer _ _ _ _ Ha Hexec) as [Hh Hp].
      constructor; [done|by rewrite Hh|by rewrite Hp].
  - destruct (crash_is_a_missing_fact sys a Hsane Hexec)
      as (_ & w & rest & ev & _ & Hview & Hty & Hfact).
    apply view_in_heap in Hview.
    pose proof (proj1 (Forall_forall _ _) Hheap ev Hview) as Hev.
    unfold carries_fact, is_run_error, run_error_detail in Hev.
    rewrite Hty, String.eqb_refl, Hfact in Hev.
    by destruct (Hev eq_refl).
Qed.

(** No schedule crashes a stream whose [run.error] events carry their
    fact. The stream is the one [NewStreaming] returned, on a wire each
    of whose frames, if it decodes at all, decodes to an event that is not
    of type [run.error] or has its [RunError] fact. Then every schedule of
    goroutine steps, [Next], [Current], [Err] and [Close] calls and
    cancellations runs through: no send on a closed channel, no second
    close, no nil pointer followed. *)
Theorem no_schedule_crashes (ctx : context) (config : option BotProviderConfig)
    (message : option GenericBotMessage) (s : botProviderStream)
    (effs : list effect) (w : Wire) (sched : list action) :
  NewStreaming ctx config message = (Some s, None, effs) ->
  Forall well_formed (frames w) ->
  ∃ obs sys, run sched (launch w s) = Some (obs, sys) ∧ safe sys.
Proof.
  intros Hnew Hframes.
  assert (safe (launch w s)) as Hsafe.
  { constructor; [|done|done].
    by destruct (sane_launch _ _ _ _ _ w Hnew) as [? _]. }
  clear Hnew Hframes. revert Hsafe. generalize (launch w s).
  induction sched as [|a sched IH]; intros sys Hsafe; simpl.
  - by exists [], sys.
  - pose proof (safe_exec sys a Hsafe) as Hexec.
    destruct (exec sys a) as [o sys1| |]; [|by apply IH|done].
    destruct (IH sys1 Hexec) as (obs & sys' & -> & ?).
    by exists (o ++ obs), sys'.
Qed.

(** *** A connection that fails *)

(** The frames decode to the events [evs], none of type [run.error], and
    then [Connect] returns an error other than [io.EOF] (or nil). Then
    [Next] returns true for [evs] in wire order and then false, and [Err]
    is the error the goroutine composed, which wraps the one [Connect]
    returned. *)
Theorem Next_stops_at_connection_error (ctx : context)
    (config : option BotProviderConfig) (message : option GenericBotMessage)
    (s : botProviderStream) (effs : list effect) (w : Wire)
    (evs : list GenericBotSseEvent) :
  NewStreaming ctx config message = (Some s, None, effs) ->
  ctx_Err ctx = None ->
  Forall2 (fun data ev => json_Unmarshal_event data = inl ev) (frames w) evs ->
  Forall (fun ev => GenericBotSseEvent.EventType ev ≠ SseEventTypeRunError) evs ->
  errors_Is_EOF (result w) = false ->
  delivers (launch w s) evs (Some (Errorf_w "SSE connection failed: " (result w)))
  ∧ (∀ e, result w = Some e ->
          errors_Unwrap (Errorf_w "SSE connection failed: " (result w)) = Some e
          ∧ Error (Errorf_w "SSE connection failed: " (result w))
            = "SSE connection failed: " +:+ Error e).
Proof.
  intros Hnew Hctx Hframes Hevs Heof. split.
  - apply (iteration evs
             [item_error (Errorf_w "SSE connection failed: " (result w))]).
    + by apply not_run_error.
    + simpl. split; done.
    + eapply tracks_launch; [done|done|].
      simpl. by rewrite Heof, (decoded_events _ _ Hframes).
  - by intros e ->.
Qed.

(** *** Cancellation wakes [Next] *)

(** On a stream whose context is done [Next] does not park: a call made
    with the mutex free, and a call parked in the select and woken, both
    return or panic at once. So a consumer blocked in [Next] on an idle
    connection is released by cancelling the context. *)
Theorem Next_does_not_park_when_done (pick : select_case) (h : heap)
    (s : botProviderStream) (cause : error) :
  ctx_Err (ctx s) = Some cause ->
  (∀ s', Next pick h s ≠ Parked s')
  ∧ (∀ s', Next_resume pick h s ≠ Parked s').
Proof.
  intros Hctx. split; intros s'.
  - unfold Next, Next_locked. destruct (mu s); [done|].
    destruct (closed _ || bool_decide _); [done|].
    pose proof (Next_select_done_ready pick h (with_mu true s) cause Hctx).
    by destruct (Next_select _ _ _) as [[b s1]| |].
  - unfold Next_resume.
    pose proof (Next_select_done_ready pick h s cause Hctx).
    by destruct (Next_select _ _ _) as [[b s1]| |].
Qed.

End Facts.

(** The systems of the scenarios are sane. *)
Lemma sane_after (sched : list action) (w : Wire) :
  @sane (scenario.after sched w).
Proof.
  unfold scenario.after.
  destruct (@run sample.external sched (launch w sample.stream))
    as [[obs sys]|] eqn:Hrun.
  - eapply (@sane_reachable sample.external sample.background
              (Some sample.config) (Some sample.message)); [reflexivity|done].
  - eapply (@sane_launch sample.external sample.background
              (Some sample.config) (Some sample.message)). reflexivity.
Qed.

(** One event is queued and [Next] is called. *)
Lemma Next_true_sets_Current_witness :
  let sys := scenario.after [producer_runs] scenario.one_event in
  let sys' :=
    scenario.after [producer_runs; calls_Next case_eventChan] scenario.one_event in
  ∃ w p ev,
    chan_buf (eventChan (sys_stream sys))
    = w :: chan_buf (eventChan (sys_stream sys'))
    ∧ view (sys_heap sys) w = Some (item_event ev)
    ∧ GenericBotSseEvent.EventType ev ≠ SseEventTypeRunError
    ∧ current_event sys' = Some ev
    ∧ @exec sample.external sys' calls_Current
      = Stepped [Current_returned (Some p)] sys'
    ∧ @exec sample.external sys' calls_Err = Stepped [Err_returned None] sys'
    ∧ closed (sys_stream sys') = false.
Proof.
  apply (@Next_true_sets_Current sample.external _ _ (calls_Next case_eventChan)
           [Next_returned true]);
    [apply sane_after|reflexivity|apply list_elem_of_singleton; reflexivity].
Defined.

(** The stream ended cleanly and [Next] is called. *)
Lemma Next_false_is_final_witness :
  let sys := scenario.after [producer_runs; producer_runs] scenario.no_event in
  let sys1 :=
    scenario.after [producer_runs; producer_runs; calls_Next case_eventChan]
      scenario.no_event in
  currentEvent (sys_stream sys1) = currentEvent (sys_stream sys)
  ∧ ended (sys_stream sys1)
  ∧ ∀ sched,
      ∃ obs sys2,
        @run sample.external sched sys1 = Some (obs, sys2)
        ∧ Forall (fun b => b = false) (Next_results obs)
        ∧ (∀ e, err (sys_stream sys1) = Some e -> err (sys_stream sys2) = Some e)
        ∧ (currentEvent (sys_stream sys2) = currentEvent (sys_stream sys1)
           ∨ currentEvent (sys_stream sys2) = None).
Proof.
  apply (@Next_false_is_final sample.external _ _ (calls_Next case_eventChan)
           [Next_returned false]);
    [apply sane_after|reflexivity|apply list_elem_of_singleton; reflexivity].
Defined.

(** The sample stream after one step of the goroutine. *)
Lemma channel_is_bounded_witness :
  let sys := scenario.after [producer_runs] scenario.one_event in
  chan_cap (eventChan (sys_stream sys)) = 100%nat
  ∧ (length (chan_buf (eventChan (sys_stream sys))) <= 100)%nat
  ∧ (length (chan_buf (eventChan (sys_stream sys))) = 100%nat ->
     @to_send sample.external (sys_producer sys) ≠ [] ->
     @exec sample.external sys producer_runs = NotEnabled).
Proof.
  apply (@channel_is_bounded sample.external sample.background
           (Some sample.config) (Some sample.message) sample.stream
           [go_Connect
              (sse_Connection.mk (sse_Client.mk None (-1))
                 (Request.mk "POST"
                    "http://localhost:8080/ns/default/bot-provider/my-bot/message/sse"
                    [("Content-Type", "application/json"); ("x-api-key", "key")]
                    (BytesBody "hi"))
                 (1024 * 1024) (1024 * 1024 * 10))]
           scenario.one_event [producer_runs] []);
    reflexivity.
Defined.

(** The consumer closes a stream of 101 events at once: however long the
    goroutine runs, it sends 100 of them and stays inside [Connect]. *)
Lemma abandoned_stream_is_not_drained_witness :
  let sys := scenario.after [calls_Close] scenario.many_events in
  ∃ obs sys',
    @run sample.external (replicate 200 producer_runs) sys = Some (obs, sys')
    ∧ chan_closed (eventChan (sys_stream sys')) = false
    ∧ ∃ frames r, sys_producer sys' = Connecting frames r.
Proof.
  intros sys.
  destruct (@abandoned_stream_is_not_drained sample.external sys
              (replicate 200 producer_runs))
    as (obs & sys' & Hrun & _ & _ & _ & Hstuck);
    [apply sane_after|by left|vm_compute; lia|].
  exists obs, sys'. split; [done|]. apply Hstuck. vm_compute. lia.
Defined.

(** A [run.error] event with an empty fact object is queued and [Next] is
    called. *)
Lemma crash_is_a_missing_fact_witness :
  let sys := scenario.after [producer_runs] scenario.bare_run_error in
  (∃ pick, calls_Next case_eventChan = calls_Next pick
           ∨ calls_Next case_eventChan = resumes_Next pick)
  ∧ ∃ w rest ev,
      chan_buf (eventChan (sys_stream sys)) = w :: rest
      ∧ view (sys_heap sys) w = Some (item_event ev)
      ∧ GenericBotSseEvent.EventType ev = SseEventTypeRunError
      ∧ GenericBotSseEventFact.RunError (GenericBotSseEvent.Fact ev) = None.
Proof.
  apply (@crash_is_a_missing_fact sample.external);
    [apply sane_after|reflexivity].
Defined.

(** A [run.error] event that carries its fact, cancelled and closed while
    it is queued. *)
Lemma no_schedule_crashes_witness :
  ∃ obs sys,
    @run sample.external
      [producer_runs; ctx_cancelled context_Canceled; calls_Next case_eventChan;
       calls_Close; producer_runs; producer_runs; calls_Next case_ctxDone]
      (launch (mkWire ["asgard.run.error"] (Some io_EOF)) sample.stream)
    = Some (obs, sys)
    ∧ @safe sample.external sys.
Proof.
  eapply (@no_schedule_crashes sample.external sample.background
            (Some sample.config) (Some sample.message)); [reflexivity|].
  constructor; [|constructor].
  intros ev [= <-] _. by eexists.
Defined.

(** One event, then the connection breaks. *)
Lemma Next_stops_at_connection_error_witness :
  @delivers sample.external (launch scenario.broken sample.stream)
    [sample.event_of "asgard.run.init"]
    (Some (Errorf_w "SSE connection failed: " (Some (errorString "unexpected EOF"))))
  ∧ (∀ e, Some (errorString "unexpected EOF") = Some e ->
          errors_Unwrap
            (Errorf_w "SSE connection failed: " (Some (errorString "unexpected EOF")))
          = Some e
          ∧ Error (Errorf_w "SSE connection failed: "
                     (Some (errorString "unexpected EOF")))
            = "SSE connection failed: " +:+ Error e).
Proof.
  eapply (@Next_stops_at_connection_error sample.external sample.background
            (Some sample.config) (Some sample.message) sample.stream _
            scenario.broken [sample.event_of "asgard.run.init"]);
    [reflexivity|reflexivity|repeat constructor|repeat constructor; discriminate
    |reflexivity].
Defined.

(** The sample stream, its context cancelled before any frame arrived. *)
Lemma Next_does_not_park_when_done_witness :
  (∀ s', Next case_eventChan [] (sample.cancelled sample.stream) ≠ Parked s')
  ∧ (∀ s', Next_resume case_eventChan [] (sample.cancelled sample.stream)
           ≠ Parked s').
Proof.
  apply (Next_does_not_park_when_done case_eventChan []
           (sample.cancelled sample.stream) context_Canceled).
  reflexivity.
Defined.

End lifecycle.

(** ** The synchronous calls: what is sent, what comes back *)

Module calls.
Import go models client notions.

(** A header just set is in the request. *)
Lemma Header_Set_elem `{External} (req : Request) (key value : string) :
  (CanonicalMIMEHeaderKey key, value) ∈ Request.Header (Header_Set req key value).
Proof. unfold Header_Set. simpl. apply elem_of_app. right. by left. Qed.

Lemma good_response (status : Z) (isSuccess : bool) :
  status = 200 -> isSuccess = true ->
  negb (status =? 200) || negb isSuccess = false.
Proof. by intros -> ->. Qed.

Lemma length_zero (s : string) : (String.length s =? 0)%nat = true <-> s = "".
Proof. by destruct s. Qed.

Section Facts.
Context `{External}.
Variable c : BotProviderClient.
Variable ctx : context.

Lemma posted_built (url : string) (body : Body) (contentType : string) :
  posted c url body
    (Header_Set (Header_Set (Request.mk "POST" url [] body)
                   "Content-Type" contentType)
       "X-API-KEY"
       (BotProviderConfig.BotProviderApiKey (BotProviderClient.config c))).
Proof. split_and!; [done|done|done|]. apply Header_Set_elem. Qed.

(** What the triggers make of a response with status 200 and [isSuccess]
    true. *)
Lemma trigger_response_ok (what : string) (resp : Response) (respBytes : string)
    (wrapper : apiResponse string) :
  Response.Body resp = inl respBytes ->
  json_Unmarshal_raw respBytes = inl wrapper ->
  Response.StatusCode resp = 200 ->
  apiResponse.IsSuccess wrapper = true ->
  let data := apiResponse.Data wrapper in
  (data = "" ∨ data = "null" ->
   trigger_response what (inl resp) = (any_nil, None))
  ∧ (data ≠ "" -> data ≠ "null" ->
     ∀ v, json_Unmarshal_any data = inl v ->
          trigger_response what (inl resp) = (v, None))
  ∧ (data ≠ "" -> data ≠ "null" ->
     ∀ e, json_Unmarshal_any data = inr e ->
          trigger_response what (inl resp)
          = (any_nil, Some (wrapError ("failed to decode response data: " +:+ Error e) e))).
Proof.
  intros Hbody Hwrapper Hstatus Hok data.
  unfold trigger_response.
  rewrite Hbody, Hwrapper, (good_response _ _ Hstatus Hok). fold data.
  split_and!.
  - intros [Hd|Hd]; rewrite Hd; done.
  - intros Hd1 Hd2 v Hv.
    destruct (String.length data =? 0)%nat eqn:Hlen;
      [by apply length_zero in Hlen|].
    destruct (String.eqb_spec data "null"); [done|]. simpl. by rewrite Hv.
  - intros Hd1 Hd2 e He.
    destruct (String.length data =? 0)%nat eqn:Hlen;
      [by apply length_zero in Hlen|].
    destruct (String.eqb_spec data "null"); [done|]. simpl. by rewrite He.
Qed.

(** [SendMessage] on the way that succeeds. The message is marshalled and
    posted to the message endpoint ([?is_debug=true] appended in debug
    mode) with the API key; if the server answers requests of that shape
    with status 200 and an envelope with [isSuccess] true, the call
    returns the reply of the envelope and no error. *)
Theorem SendMessage_returns_the_reply (httpClient : http_Client)
    (message : GenericBotMessage) (isDebug : bool) (body : string)
    (resp : Response) (respBytes : string) (payload : apiResponse GenericBotReply) :
  BotProviderConfig.HTTPClient (BotProviderClient.config c) = Some httpClient ->
  json_Marshal_message message = inl body ->
  let url :=
    if isDebug then endpoint c "/message" +:+ "?is_debug=true"
    else endpoint c "/message" in
  http_NewRequest_check ctx "POST" url = None ->
  (∀ req, posted c url (BytesBody body) req -> http_Do httpClient req = inl resp) ->
  Response.Body resp = inl respBytes ->
  json_Unmarshal_reply respBytes = inl payload ->
  Response.StatusCode resp = 200 ->
  apiResponse.IsSuccess payload = true ->
  SendMessage c ctx (Some message) isDebug
  = Returns (Some (apiResponse.Data payload), None).
Proof.
  intros Hclient Hbody url Hcheck Hdo Hresp Hpayload Hstatus Hok.
  unfold SendMessage, http_NewRequestWithContext, Do.
  rewrite Hbody. fold url. rewrite Hcheck, Hclient. simpl.
  rewrite (Hdo _ (posted_built _ _ _)), Hresp, Hpayload,
    (good_response _ _ Hstatus Hok).
  done.
Qed.

(** [UploadBlob] on the way that succeeds. The form posted to the blob
    endpoint has the channel id first and the file second; on status 200
    and [isSuccess] true the call returns the first blob of the list, and
    when the list is empty no blob and an error of its own. *)
Theorem UploadBlob_returns_the_first_blob (httpClient : http_Client)
    (customChannelID reader filename : string) (mime : option string)
    (resp : Response) (respBytes : string) (payload : apiResponse (list Blob)) :
  BotProviderConfig.HTTPClient (BotProviderClient.config c) = Some httpClient ->
  http_NewRequest_check ctx "POST" (endpoint c "/blob") = None ->
  (∀ req,
     posted c (endpoint c "/blob")
       (PipeBody [FormField "customChannelId" customChannelID;
                  file_part filename mime reader]) req ->
     http_Do httpClient req = inl resp) ->
  Response.Body resp = inl respBytes ->
  json_Unmarshal_blobs respBytes = inl payload ->
  Response.StatusCode resp = 200 ->
  apiResponse.IsSuccess payload = true ->
  UploadBlob c ctx customChannelID (Some reader) filename mime
  = Returns
      (head (apiResponse.Data payload),
       if apiResponse.Data payload is [] then
         Some (errorString "upload blob succeeded but no blob metadata returned")
       else None).
Proof.
  intros Hclient Hcheck Hdo Hresp Hpayload Hstatus Hok.
  unfold UploadBlob, http_NewRequestWithContext, Do.
  rewrite Hcheck, Hclient. simpl.
  rewrite (Hdo _ (posted_built _ _ _)), Hresp, Hpayload,
    (good_response _ _ Hstatus Hok).
  by destruct (apiResponse.Data payload).
Qed.

(** The triggers on the way that succeeds. [TriggerJSON] posts the
    marshalled payload; [TriggerForm] posts a form whose first part is the
    field [json] with the marshalled payload, followed by the file part
    exactly when a reader is given. On status 200 and [isSuccess] true:
    when the data of the envelope are absent or the JSON [null] the call
    returns nil and no error, without decoding; otherwise it returns the
    decoded data, or the decode error wrapped. *)
Theorem triggers_return_the_data (httpClient : http_Client)
    (payload : gmap string any) (reader : option string) (filename : string)
    (mime : option string) (body : string)
    (resp : Response) (respBytes : string) (wrapper : apiResponse string) :
  BotProviderConfig.HTTPClient (BotProviderClient.config c) = Some httpClient ->
  json_Marshal_payload payload = inl body ->
  (∀ url, http_NewRequest_check ctx "POST" url = None) ->
  (∀ req,
     posted c (endpoint c "/json") (BytesBody body) req
     ∨ posted c (endpoint c "/form")
         (PipeBody (FormField "json" body ::
                    match reader with
                    | Some data => [file_part filename mime data]
                    | None => []
                    end)) req ->
     http_Do httpClient req = inl resp) ->
  Response.Body resp = inl respBytes ->
  json_Unmarshal_raw respBytes = inl wrapper ->
  Response.StatusCode resp = 200 ->
  apiResponse.IsSuccess wrapper = true ->
  let data := apiResponse.Data wrapper in
  ∃ r,
    TriggerJSON c ctx payload = Returns r
    ∧ TriggerForm c ctx payload reader filename mime = Returns r
    ∧ (data = "" ∨ data = "null" -> r = (any_nil, None))
    ∧ (data ≠ "" -> data ≠ "null" ->
       ∀ v, json_Unmarshal_any data = inl v -> r = (v, None))
    ∧ (data ≠ "" -> data ≠ "null" ->
       ∀ e, json_Unmarshal_any data = inr e ->
            r = (any_nil,
                 Some (wrapError ("failed to decode response data: " +:+ Error e) e))).
Proof.
  intros Hclient Hbody Hcheck Hdo Hresp Hwrapper Hstatus Hok data.
  destruct (trigger_response_ok "trigger json" resp respBytes wrapper
              Hresp Hwrapper Hstatus Hok) as (Hnull & Hval & Herr).
  exists (trigger_response "trigger json" (inl resp)).
  split_and!; [| |done|done|done].
  - unfold TriggerJSON, http_NewRequestWithContext, Do.
    rewrite Hbody, Hcheck, Hclient. simpl.
    by rewrite (Hdo _ (or_introl (posted_built _ _ _))).
  - unfold TriggerForm, http_NewRequestWithContext, Do.
    rewrite Hbody, Hcheck, Hclient. simpl.
    rewrite (Hdo _ (or_intror (posted_built _ _ _))).
    unfold trigger_response.
    by rewrite Hresp, Hwrapper, (good_response _ _ Hstatus Hok).
Qed.

(** A transport failure keeps its cause. When the HTTP client returns an
    error for the request (the connection is refused, the context is
    cancelled, the timeout strikes), each call returns no value and an
    error that wraps that error: [errors.Unwrap] yields it, and its text
    is the text of the cause after the name of the step. *)
Theorem transport_error_is_wrapped (httpClient : http_Client) (e : error) :
  BotProviderConfig.HTTPClient (BotProviderClient.config c) = Some httpClient ->
  (∀ url, http_NewRequest_check ctx "POST" url = None) ->
  (∀ req, http_Do httpClient req = inr e) ->
  (∀ message isDebug body,
     json_Marshal_message message = inl body ->
     SendMessage c ctx (Some message) isDebug
     = Returns (None, Some (wrapError ("failed to send message: " +:+ Error e) e)))
  ∧ (∀ payload body,
       json_Marshal_payload payload = inl body ->
       TriggerJSON c ctx payload
       = Returns (any_nil,
                  Some (wrapError ("failed to trigger json api: " +:+ Error e) e))
       ∧ ∀ reader filename mime,
           TriggerForm c ctx payload reader filename mime
           = Returns (any_nil,
                      Some (wrapError ("failed to trigger form api: " +:+ Error e) e)))
  ∧ (∀ customChannelID reader filename mime,
       UploadBlob c ctx customChannelID (Some reader) filename mime
       = Returns (None, Some (wrapError ("failed to upload blob: " +:+ Error e) e)))
  ∧ (∀ step, errors_Unwrap (wrapError (step +:+ Error e) e) = Some e).
Proof.
  intros Hclient Hcheck Hdo. split_and!.
  - intros message isDebug body Hbody.
    unfold SendMessage, http_NewRequestWithContext, Do.
    rewrite Hbody, Hcheck, Hclient. simpl. by rewrite Hdo.
  - intros payload body Hbody. split; [|intros reader filename mime].
    + unfold TriggerJSON, http_NewRequestWithContext, Do.
      rewrite Hbody, Hcheck, Hclient. simpl. by rewrite Hdo.
    + unfold TriggerForm, http_NewRequestWithContext, Do.
      rewrite Hbody, Hcheck, Hclient. simpl. by rewrite Hdo.
  - intros customChannelID reader filename mime.
    unfold UploadBlob, http_NewRequestWithContext, Do.
    rewrite Hcheck, Hclient. simpl. by rewrite Hdo.
  - done.
Qed.

(** A value or an error, not both. Whenever [SendMessage] or [UploadBlob]
    returns, the reply (the blob) is non-nil exactly when the error is nil,
    so a caller that has checked the error may follow the pointer. The
    triggers return nil data with every error (nil data with a nil error
    is possible: the server sent none). *)
Theorem value_exactly_without_error :
  (∀ message isDebug v e,
     SendMessage c ctx message isDebug = Returns (v, e) -> is_Some v <-> e = None)
  ∧ (∀ customChannelID reader filename mime v e,
       UploadBlob c ctx customChannelID reader filename mime = Returns (v, e) ->
       is_Some v <-> e = None)
  ∧ (∀ payload v e,
       TriggerJSON c ctx payload = Returns (v, e) -> e ≠ None -> v = any_nil)
  ∧ (∀ payload reader filename mime v e,
       TriggerForm c ctx payload reader filename mime = Returns (v, e) ->
       e ≠ None -> v = any_nil).
Proof.
  assert (∀ what r v e, trigger_response what r = (v, e) -> e ≠ None -> v = any_nil)
    as Htrigger.
  { intros what r v e. unfold trigger_response.
    repeat case_match; intros; simplify_eq/=; done. }
  split_and!.
  - intros message isDebug v e.
    unfold SendMessage, Do.
    repeat (case_match; simpl); unfold mret, outcome_ret; intros; simplify_eq/=;
      (split; [by intros [? ?]|done]) || (split; [done|by eauto]).
  - intros customChannelID reader filename mime v e.
    unfold UploadBlob, Do.
    repeat (case_match; simpl); unfold mret, outcome_ret; intros; simplify_eq/=;
      (split; [by intros [? ?]|done]) || (split; [done|by eauto]).
  - intros payload v e. unfold TriggerJSON, Do.
    repeat (case_match; simpl); unfold mret, outcome_ret; intros;
      simplify_eq/=; try done; by eapply Htrigger.
  - intros payload reader filename mime v e. unfold TriggerForm, Do.
    repeat (case_match; simpl); unfold mret, outcome_ret; intros;
      simplify_eq/=; try done; by eapply Htrigger.
Qed.


(** With an HTTP client in its configuration the only panic left is the
    copy from a nil reader in the goroutine of [UploadBlob]. *)
Lemma calls_do_not_panic (httpClient : http_Client) :
  BotProviderConfig.HTTPClient (BotProviderClient.config c) = Some httpClient ->
  (∀ req, Do c req = Returns (http_Do httpClient req))
  ∧ (∀ message isDebug, ∃ r, SendMessage c ctx message isDebug = Returns r)
  ∧ (∀ payload, ∃ r, TriggerJSON c ctx payload = Returns r)
  ∧ (∀ payload reader filename mime,
       ∃ r, TriggerForm c ctx payload reader filename mime = Returns r)
  ∧ (∀ customChannelID data filename mime,
       ∃ r, UploadBlob c ctx customChannelID (Some data) filename mime = Returns r)
  ∧ (∀ customChannelID filename mime,
       http_NewRequest_check ctx "POST" (endpoint c "/blob") = None ->
       (∀ req, http_reads_body httpClient req = true) ->
       UploadBlob c ctx customChannelID None filename mime = Panics).
Proof.
  intros Hclient. split_and!; intros.
  - unfold Do. by rewrite Hclient.
  - unfold SendMessage, Do. rewrite Hclient.
    repeat (case_match; simpl); eauto.
  - unfold TriggerJSON, Do. rewrite Hclient.
    repeat (case_match; simpl); eauto.
  - unfold TriggerForm, Do. rewrite Hclient.
    repeat (case_match; simpl); eauto.
  - unfold UploadBlob, http_NewRequestWithContext, Do, writer_panics.
    rewrite Hclient.
    destruct (http_NewRequest_check _ _ _); simpl; [by eauto|].
    repeat (case_match; simpl); eauto.
  - unfold UploadBlob, http_NewRequestWithContext, Do, writer_panics.
    rewrite Hclient. simpl.
    match goal with Hcheck : http_NewRequest_check _ _ _ = None |- _ =>
      rewrite Hcheck end.
    cbn.
    match goal with Hreads : ∀ req, http_reads_body _ req = true |- _ =>
      by rewrite Hreads end.
Qed.

(** Neither [SendMessage] nor [UploadBlob] returns nil with a nil error. *)
Lemma never_nil_nil :
  (∀ message isDebug, SendMessage c ctx message isDebug ≠ Returns (None, None))
  ∧ (∀ customChannelID reader filename mime,
       UploadBlob c ctx customChannelID reader filename mime ≠ Returns (None, None)).
Proof.
  split; intros.
  - unfold SendMessage, Do.
    repeat (case_match; simpl); unfold mret, outcome_ret; congruence.
  - unfold UploadBlob, Do.
    repeat (case_match; simpl); unfold mret, outcome_ret; congruence.
Qed.

End Facts.

(** A client made by the constructor always has an HTTP client: the one of
    the configuration, or a new one with a timeout of 300 seconds; and
    constructing again from its configuration gives the same client. So
    [Do] never follows a nil pointer, and no call on the client panics,
    whatever configuration was given (nil included), but for one:
    [UploadBlob] given a nil reader, whose goroutine copies from it
    without a check, crashes the program once the transport has read the
    form as far as the file. [TriggerForm] checks its reader and does not.
    Whether a call returns in time is up to the transport and is not
    stated here. *)
Theorem constructed_client_has_a_transport `{External}
    (config : option BotProviderConfig) (ctx : context) :
  let c := NewBotProviderClientWithConfig config in
  let httpClient :=
    default (mkClient 300000000000) (config ≫= BotProviderConfig.HTTPClient) in
  BotProviderConfig.HTTPClient (BotProviderClient.config c) = Some httpClient
  ∧ NewBotProviderClientWithConfig (Some (BotProviderClient.config c)) = c
  ∧ (∀ req, Do c req ≠ Panics)
  ∧ (∀ message isDebug, SendMessage c ctx message isDebug ≠ Panics)
  ∧ (∀ payload, TriggerJSON c ctx payload ≠ Panics)
  ∧ (∀ payload reader filename mime,
       TriggerForm c ctx payload reader filename mime ≠ Panics)
  ∧ (∀ customChannelID data filename mime,
       UploadBlob c ctx customChannelID (Some data) filename mime ≠ Panics)
  ∧ (∀ customChannelID filename mime,
       http_NewRequest_check ctx "POST" (endpoint c "/blob") = None ->
       (∀ req, http_reads_body httpClient req = true) ->
       UploadBlob c ctx customChannelID None filename mime = Panics).
Proof.
  intros c httpClient.
  assert (BotProviderConfig.HTTPClient (BotProviderClient.config c)
          = Some httpClient) as Hclient.
  { subst c httpClient. unfold NewBotProviderClientWithConfig.
    destruct config as [[[hc|] ? ? ? ?]|]; done. }
  split; [done|]. split.
  - subst c. unfold NewBotProviderClientWithConfig.
    destruct config as [[[hc|] ? ? ? ?]|]; done.
  - destruct (calls_do_not_panic c ctx httpClient Hclient)
      as (HDo & Hsend & Hjson & Hform & Hblob & Hnil).
    split_and!; [by intros req; rewrite HDo| | | | |done]; intros.
    + by destruct (Hsend message isDebug) as [r ->].
    + by destruct (Hjson payload) as [r ->].
    + by destruct (Hform payload reader filename mime) as [r ->].
    + by destruct (Hblob customChannelID data filename mime) as [r ->].
Qed.

(** The file part of a form always names a content type: the one the
    caller gave, or [application/octet-stream] when the caller gave none
    or an empty one. Its disposition carries the file name. *)
Theorem file_part_has_a_content_type (filename : string) (mime : option string)
    (data : string) :
  ∃ disposition contentType,
    file_part filename mime data = FilePart disposition contentType data
    ∧ contentType ≠ ""
    ∧ (∀ m, mime = Some m -> m ≠ "" -> contentType = m)
    ∧ (mime = None ∨ mime = Some "" -> contentType = "application/octet-stream")
    ∧ strings_Contains disposition filename = true.
Proof.
  unfold file_part. eexists _, _. split; [done|]. split_and!.
  - destruct mime as [m|]; [|done].
    by destruct (String.eqb_spec m "").
  - intros m -> Hm. by destruct (String.eqb_spec m "").
  - by intros [-> | ->].
  - do 6 apply strings.Contains_app_r. apply strings.Contains_here.
Qed.


(** The sample message, sent in debug mode to a server that accepts. *)
Lemma SendMessage_returns_the_reply_witness :
  @SendMessage accepting.external
    (NewBotProviderClientWithConfig (Some sample.config)) sample.background
    (Some sample.message) true
  = Returns (Some accepting.reply, None).
Proof.
  apply (@SendMessage_returns_the_reply accepting.external
           (NewBotProviderClientWithConfig (Some sample.config)) sample.background
           (mkClient defaultHTTPTimeout) sample.message true "hi"
           (Response.mk 200 (inl "{}")) "{}"
           (apiResponse.mk true accepting.reply None None));
    first [reflexivity | intros; reflexivity].
Defined.

(** A file uploaded to a server that accepts. *)
Lemma UploadBlob_returns_the_first_blob_witness :
  @UploadBlob accepting.external
    (NewBotProviderClientWithConfig (Some sample.config)) sample.background
    "c1" (Some "bytes") "a.bin" None
  = Returns (Some accepting.blob, None).
Proof.
  apply (@UploadBlob_returns_the_first_blob accepting.external
           (NewBotProviderClientWithConfig (Some sample.config)) sample.background
           (mkClient defaultHTTPTimeout) "c1" "bytes" "a.bin" None
           (Response.mk 200 (inl "{}")) "{}"
           (apiResponse.mk true [accepting.blob] None None));
    first [reflexivity | intros; reflexivity].
Defined.

(** Both triggers, answered by a server that accepts. *)
Lemma triggers_return_the_data_witness :
  ∃ r,
    @TriggerJSON accepting.external
      (NewBotProviderClientWithConfig (Some sample.config)) sample.background ∅
    = Returns r
    ∧ @TriggerForm accepting.external
        (NewBotProviderClientWithConfig (Some sample.config)) sample.background ∅
        (Some "bytes") "a.bin" None
      = Returns r
    ∧ r = (any_string "{}", None).
Proof.
  destruct (@triggers_return_the_data accepting.external
              (NewBotProviderClientWithConfig (Some sample.config))
              sample.background (mkClient defaultHTTPTimeout) ∅
              (Some "bytes") "a.bin" None "{}"
              (Response.mk 200 (inl "{}")) "{}"
              (apiResponse.mk true "{}" None None)
              eq_refl eq_refl (fun _ => eq_refl) (fun _ _ => eq_refl)
              eq_refl eq_refl eq_refl eq_refl)
    as (r & Hjson & Hform & _ & Hval & _).
  exists r. split_and!; [done|done|].
  by apply Hval.
Defined.

(** The four calls against a server that cannot be reached. *)
Lemma transport_error_is_wrapped_witness :
  @SendMessage refusing.external
    (NewBotProviderClientWithConfig (Some sample.config)) sample.background
    (Some sample.message) false
  = Returns (None,
             Some (wrapError
                     "failed to send message: dial tcp: connection refused"
                     refusing.cause))
  ∧ @UploadBlob refusing.external
      (NewBotProviderClientWithConfig (Some sample.config)) sample.background
      "c1" (Some "bytes") "a.bin" None
    = Returns (None,
               Some (wrapError
                       "failed to upload blob: dial tcp: connection refused"
                       refusing.cause)).
Proof.
  pose proof (@transport_error_is_wrapped refusing.external
                (NewBotProviderClientWithConfig (Some sample.config))
                sample.background (mkClient defaultHTTPTimeout) refusing.cause
                eq_refl (fun _ => eq_refl) (fun _ => eq_refl))
    as (Hsend & _ & Hblob & _).
  split; [by apply (Hsend sample.message false "hi")|apply Hblob].
Defined.

End calls.

(** ** The text of an error detail *)

Module details.
Import go models.

(** The text of [Error] on an error detail names where the error arose:
    it starts with the code and the message, and holds the namespace, the
    workflow, the name and the type of the processor, and the inner cause
    when there is one. *)
Theorem ErrorDetail_Error_names_the_place (d : ErrorDetail) :
  let text := ErrorDetail_Error d in
  let loc := ErrorDetail.Location d in
  String.prefix (ErrorDetail.Code d +:+ ": " +:+ ErrorDetail.Message d) text = true
  ∧ strings_Contains text ("namespace=" +:+ ErrorLocation.Namespace loc) = true
  ∧ strings_Contains text ("workflowName=" +:+ ErrorLocation.WorkflowName loc) = true
  ∧ strings_Contains text ("processorName=" +:+ ErrorLocation.ProcessorName loc) = true
  ∧ strings_Contains text ("processorType=" +:+ ErrorLocation.ProcessorType loc) = true
  ∧ (ErrorDetail.Inner d ≠ "" ->
     strings_Contains text ("caused by: " +:+ ErrorDetail.Inner d) = true)
  ∧ (ErrorDetail.Inner d = "" ->
     text = ErrorDetail.Code d +:+ ": " +:+ ErrorDetail.Message d
            +:+ " (at namespace=" +:+ ErrorLocation.Namespace loc
            +:+ ", workflowName=" +:+ ErrorLocation.WorkflowName loc
            +:+ ", processorName=" +:+ ErrorLocation.ProcessorName loc
            +:+ ", processorType=" +:+ ErrorLocation.ProcessorType loc +:+ ")").
Proof.
  intros text loc. subst text. unfold ErrorDetail_Error. fold loc.
  assert (∀ a s sub, strings_Contains s sub = true ->
                     strings_Contains (String a s) sub = true) as Hcons.
  { intros a s sub Hs. rewrite strings.Contains_unfold, Hs. apply strings.if_same. }
  assert (∀ a b c, String.prefix b c = true ->
                   String.prefix (a +:+ b) (a +:+ c) = true) as Hpre.
  { intros a b c Hbc. induction a as [|x a IH]; [done|]. simpl.
    by destruct (Ascii.ascii_dec x x). }
  destruct (String.eqb_spec (ErrorDetail.Inner d) "") as [Hin|Hin];
    (split; [do 2 apply Hpre; apply strings.prefix_refl_app|]);
    split_and!; try done.
  all: try (intros _).
  all: repeat
         (first
            [ match goal with
              | |- strings_Contains (_ +:+ _ +:+ ?post) ?sub = true =>
                  cbn [String.append];
                  let rec strip :=
                    first [exact (strings.Contains_here sub post)
                          | apply Hcons; strip] in
                  strip
              | |- strings_Contains (_ +:+ _) ?sub = true =>
                  cbn [String.append];
                  let rec strip :=
                    first [exact (strings.Contains_refl sub)
                          | apply Hcons; strip] in
                  strip
              end
            | apply strings.Contains_app_r ]).
Qed.

End details.

(** ** Opening a stream *)

Module connecting.
Import go models client botProviderStream notions.

Section Facts.
Context `{External}.

(** The address [connect] posts to. *)
Local Abbreviation address config :=
  (BotProviderConfig.EdgeServerHost config +:+ "/ns/"
     +:+ BotProviderConfig.Namespace config +:+ "/bot-provider/"
     +:+ BotProviderConfig.BotProviderName config +:+ "/message/sse").

(** The two ways [connect] fails. *)
Lemma connect_failure (s : botProviderStream) (cause : error) :
  json_Marshal_message (message s) = inr cause
  ∨ (∃ body, json_Marshal_message (message s) = inl body
             ∧ http_NewRequest_check (botProviderStream.ctx s) "POST"
                 (address (botProviderStream.config s)) = Some cause) ->
  ∃ step,
    connect s = (s, Some (wrapError (step +:+ Error cause) cause), [])
    ∧ (step = "failed to marshal bot message: "
       ∨ step = "failed to create SSE request: ").
Proof.
  unfold connect, http_NewRequestWithContext.
  intros [Hm|(body & Hm & Hcheck)]; rewrite Hm; [|rewrite Hcheck];
    eexists; (split; [done|]); eauto.
Qed.

(** The connection [connect] makes. *)
Lemma connect_success (s : botProviderStream) (body : string) :
  json_Marshal_message (message s) = inl body ->
  http_NewRequest_check (botProviderStream.ctx s) "POST"
    (address (botProviderStream.config s)) = None ->
  let conn :=
    sse_Connection.mk (sseClient s)
      (Header_Set
         (Header_Set
            (Request.mk "POST" (address (botProviderStream.config s)) []
               (BytesBody body))
            "Content-Type" "application/json")
         "x-api-key"
         (BotProviderConfig.BotProviderApiKey (botProviderStream.config s)))
      (1024 * 1024) (1024 * 1024 * 10) in
  connect s = (with_connection (Some conn) s, None, [go_Connect conn]).
Proof.
  intros Hm Hcheck. unfold connect, http_NewRequestWithContext.
  by rewrite Hm, Hcheck.
Qed.

(** [NewStreaming] reports why it failed. When the message cannot be
    marshalled, or the request cannot be created, it returns no handle and
    starts nothing, and its error wraps the error of [connect], which
    wraps the cause: two [errors.Unwrap] steps lead to the error the
    library returned, and the text names both steps. *)
Theorem NewStreaming_keeps_the_cause (ctx : context) (config : BotProviderConfig)
    (message : GenericBotMessage) (cause : error) :
  json_Marshal_message message = inr cause
  ∨ (∃ body, json_Marshal_message message = inl body
             ∧ http_NewRequest_check ctx "POST" (address config) = Some cause) ->
  ∃ e step,
    NewStreaming ctx (Some config) (Some message) = (None, Some e, [])
    ∧ (errors_Unwrap e ≫= errors_Unwrap) = Some cause
    ∧ Error e = "failed to establish SSE connection: " +:+ step +:+ Error cause
    ∧ (step = "failed to marshal bot message: "
       ∨ step = "failed to create SSE request: ").
Proof.
  intros Hwhy. unfold NewStreaming.
  match goal with |- context [connect ?s0] =>
    destruct (connect_failure s0 cause Hwhy) as (step & -> & Hstep)
  end.
  eexists _, step. by split_and!.
Qed.

(** [NewStreaming] on the way that succeeds: when the message marshals and
    the request can be created it returns a handle and starts exactly one
    goroutine. The request is a POST of the marshalled message to the
    streaming address and carries the API key; the address holds the
    namespace and the name of the bot provider as they are (the
    synchronous calls escape them, so the two agree only when escaping
    changes neither); the SSE client uses the HTTP client of the
    configuration (none, if the configuration has none) and never retries
    a connection it has lost; the handle starts with an empty open channel
    of capacity 100, no current event, no error, not closed, the mutex
    free. *)
Theorem NewStreaming_opens_one_connection (ctx : context)
    (config : BotProviderConfig) (message : GenericBotMessage) (body : string) :
  json_Marshal_message message = inl body ->
  http_NewRequest_check ctx "POST" (address config) = None ->
  ∃ s conn,
    NewStreaming ctx (Some config) (Some message) = (Some s, None, [go_Connect conn])
    ∧ connection s = Some conn
    ∧ Request.Method (sse_Connection.request conn) = "POST"
    ∧ Request.URL (sse_Connection.request conn) = address config
    ∧ (url_PathEscape (BotProviderConfig.Namespace config)
       = BotProviderConfig.Namespace config ->
       url_PathEscape (BotProviderConfig.BotProviderName config)
       = BotProviderConfig.BotProviderName config ->
       Request.URL (sse_Connection.request conn)
       = endpoint (BotProviderClient.mk config) "/message/sse")
    ∧ Request.Body (sse_Connection.request conn) = BytesBody body
    ∧ (CanonicalMIMEHeaderKey "x-api-key", BotProviderConfig.BotProviderApiKey config)
      ∈ Request.Header (sse_Connection.request conn)
    ∧ sse_Connection.client conn = sseClient s
    ∧ sseClient s = sse_Client.mk (BotProviderConfig.HTTPClient config) (-1)
    ∧ eventChan s = mkChan [] 100 false
    ∧ currentEvent s = None ∧ err s = None ∧ closed s = false ∧ mu s = false
    ∧ botProviderStream.ctx s = ctx
    ∧ botProviderStream.config s = config
    ∧ botProviderStream.message s = message.
Proof.
  intros Hm Hcheck. unfold NewStreaming.
  match goal with |- context [connect ?s0] =>
    rewrite (connect_success s0 body Hm Hcheck)
  end.
  eexists _, _. split; [done|]. simpl. split_and!; try done.
  - unfold endpoint. simpl. by intros -> ->.
  - apply elem_of_app. right. by left.
Qed.

(** A stream opened through a bot agent. The agent's client always has a
    configuration and an HTTP client, so [NewStreamer] fails on a nil
    message, or with a wrapped cause, never for a missing configuration;
    and the stream it returns reads the connection through an HTTP client
    whose timeout is 300 seconds (for an agent made by [NewBotAgent]). *)
Theorem agent_stream_uses_the_client (edgeServerHost namespace botProviderName
    botProviderAPIKey : string) (ctx : context) :
  let a := NewBotAgent edgeServerHost namespace botProviderName botProviderAPIKey in
  botAgent_NewStreamer a ctx None
  = (None, Some (errorString "message cannot be nil"), [])
  ∧ ∀ message,
      (∃ s conn,
         botAgent_NewStreamer a ctx (Some message) = (Some s, None, [go_Connect conn])
         ∧ sse_Connection.client conn
           = sse_Client.mk (Some (mkClient 300000000000)) (-1)
         ∧ sseClient s = sse_Connection.client conn
         ∧ botProviderStream.config s
           = BotProviderConfig.mk (Some (mkClient 300000000000)) edgeServerHost
               namespace botProviderName botProviderAPIKey)
      ∨ (∃ e cause,
           botAgent_NewStreamer a ctx (Some message) = (None, Some e, [])
           ∧ (errors_Unwrap e ≫= errors_Unwrap) = Some cause).
Proof.
  intros a. split; [done|]. intros message.
  change (botAgent_NewStreamer a ctx (Some message))
    with (NewStreaming ctx
            (Some (BotProviderConfig.mk (Some (mkClient 300000000000))
                     edgeServerHost namespace botProviderName botProviderAPIKey))
            (Some message)).
  unfold NewStreaming.
  match goal with |- context [connect ?s0] => set (s := s0) end.
  destruct (json_Marshal_message message) as [body|cause] eqn:Hm.
  - destruct (http_NewRequest_check ctx "POST" (address (botProviderStream.config s)))
      as [cause|] eqn:Hc.
    + right.
      destruct (connect_failure s cause) as (step & -> & _); [right; eauto|].
      by eexists _, cause.
    + left. rewrite (connect_success s body Hm Hc). by eexists _, _.
  - right.
    destruct (connect_failure s cause) as (step & -> & _); [by left|].
    by eexists _, cause.
Qed.

End Facts.

(** A message that cannot be marshalled. *)
Lemma NewStreaming_keeps_the_cause_witness :
  ∃ e step,
    @NewStreaming unmarshallable.external sample.background (Some sample.config)
      (Some sample.message)
    = (None, Some e, [])
    ∧ (errors_Unwrap e ≫= errors_Unwrap) = Some unmarshallable.cause
    ∧ Error e = "failed to establish SSE connection: " +:+ step
                +:+ Error unmarshallable.cause
    ∧ (step = "failed to marshal bot message: "
       ∨ step = "failed to create SSE request: ").
Proof.
  apply (@NewStreaming_keeps_the_cause unmarshallable.external). by left.
Defined.

(** The sample message on the sample configuration. *)
Lemma NewStreaming_opens_one_connection_witness :
  ∃ s conn,
    @NewStreaming sample.external sample.background (Some sample.config)
      (Some sample.message)
    = (Some s, None, [go_Connect conn])
    ∧ connection s = Some conn
    ∧ Request.Method (sse_Connection.request conn) = "POST"
    ∧ Request.URL (sse_Connection.request conn)
      = "http://localhost:8080/ns/default/bot-provider/my-bot/message/sse"
    ∧ (@url_PathEscape sample.external "default" = "default" ->
       @url_PathEscape sample.external "my-bot" = "my-bot" ->
       Request.URL (sse_Connection.request conn)
       = @endpoint sample.external (BotProviderClient.mk sample.config)
           "/message/sse")
    ∧ Request.Body (sse_Connection.request conn) = BytesBody "hi"
    ∧ ("x-api-key", "key") ∈ Request.Header (sse_Connection.request conn)
    ∧ sse_Connection.client conn = sseClient s
    ∧ sseClient s = sse_Client.mk None (-1)
    ∧ eventChan s = mkChan [] 100 false
    ∧ currentEvent s = None ∧ err s = None ∧ closed s = false ∧ mu s = false
    ∧ botProviderStream.ctx s = sample.background
    ∧ botProviderStream.config s = sample.config
    ∧ botProviderStream.message s = sample.message.
Proof.
  apply (@NewStreaming_opens_one_connection sample.external sample.background
           sample.config sample.message "hi");
    reflexivity.
Defined.

End connecting.

(** ** What is delivered, under every schedule *)

Module delivery.
Import go models client botProviderStream notions methods running lifecycle.

(** What the select statement did when it returned false. *)
Lemma Next_select_false_cases (pick : select_case) (h : heap)
    (s s' : botProviderStream) :
  Next_select pick h s = Returns (false, s') ->
  currentEvent s' = currentEvent s
  ∧ ((err s' ≠ None
      ∧ (chan_buf (eventChan s') = chan_buf (eventChan s)
         ∨ ∃ w, chan_buf (eventChan s) = w :: chan_buf (eventChan s')))
     ∨ (err s' = err s ∧ chan_buf (eventChan s) = []
        ∧ chan_buf (eventChan s') = [])).
Proof.
  unfold Next_select, Next_done, Next_recv, chan_recv.
  destruct s as [c cfg m cl cn [buf cap cc] cur e clo l]; simpl.
  intros Hsel.
  repeat case_match; simplify_eq/=; split; try done; eauto 10.
Qed.

Section Facts.
Context `{External}.
Variable all : list item.

(** A returning select statement on a stream that follows the wire. *)
Lemma follows_select (n : nat) (sys : system) (pick : select_case)
    (s1 s2 : botProviderStream) (b : bool) :
  follows all n sys ->
  closed (sys_stream sys) = false -> err (sys_stream sys) = None ->
  with_mu false s1 = with_mu false (sys_stream sys) ->
  Next_select pick (sys_heap sys) s1 = Returns (b, s2) ->
  sane (mkSystem (sys_heap sys) (with_mu false s2) (sys_producer sys)) ->
  follows all (n + if b then 1 else 0)
    (mkSystem (sys_heap sys) (with_mu false s2) (sys_producer sys)).
Proof.
  intros [Hsane Hnil (dl & Hlen & Htake & Hdl & Hcur) (m & its & Hnm & Hviews & Hits & Hm)]
    Hopen Herr Hs1 Hsel Hsane'.
  assert (m = n) as -> by (destruct Hm as [?|[?|?]]; [done|congruence|congruence]).
  assert (chan_buf (eventChan s1) = chan_buf (eventChan (sys_stream sys))
          ∧ currentEvent s1 = currentEvent (sys_stream sys)
          ∧ err s1 = err (sys_stream sys)
          ∧ closed s1 = closed (sys_stream sys)) as (Hbuf1 & Hcur1 & Herr1 & Hclosed1).
  { destruct s1, (sys_stream sys). simpl in *. by simplify_eq. }
  pose proof (Next_select_frame _ _ _ _ _ Hsel) as (Hclosed2 & _).
  destruct b.
  - apply Next_select_true in Hsel
      as (w & p & ev & Hbuf & Hview & Hty & Hp & Hcur2 & Herr2).
    rewrite Hbuf1 in Hbuf. rewrite Hbuf in Hviews.
    apply Forall2_cons_inv_l in Hviews as (it & its' & Hw & Hrest & ->).
    rewrite Hview in Hw. injection Hw as <-.
    assert (all !! n = Some (item_event ev)) as Hn.
    { rewrite <- (Nat.add_0_r n), <- lookup_drop, <- Hits. done. }
    constructor; simpl.
    + done.
    + lia.
    + exists (dl ++ [ev]). split_and!.
      * rewrite length_app. simpl. lia.
      * replace (n + 1)%nat with (S n) by lia.
        by rewrite (take_S_r _ _ _ Hn), Htake, fmap_app.
      * apply Forall_app. by split; [|constructor].
      * intros _. unfold current_event. simpl. rewrite Hcur2. simpl.
        by rewrite Hp, last_snoc.
    + exists (n + 1)%nat, its'. split_and!; [lia|done| |by left].
      replace (n + 1)%nat with (S n) by lia.
      rewrite (drop_S _ _ _ Hn) in Hits. by injection Hits.
  - apply Next_select_false_cases in Hsel as (Hcur2 & Hwhy).
    rewrite Nat.add_0_r.
    constructor; simpl.
    + done.
    + intros Hn. rewrite Hcur2, Hcur1. by apply Hnil.
    + exists dl. split_and!; [done|done|done|].
      intros _. unfold current_event in *. simpl. rewrite Hcur2, Hcur1.
      by apply Hcur.
    + destruct Hwhy as [[Herr2 [Hbuf|[w Hbuf]]]|(Herr2 & Hbuf & Hbuf2)].
      * exists n, its. rewrite Hbuf, Hbuf1.
        split_and!; [done|done|done|by right; right].
      * rewrite Hbuf1 in Hbuf. rewrite Hbuf in Hviews.
        apply Forall2_cons_inv_l in Hviews as (it & its' & Hw & Hrest & ->).
        exists (S n), its'. split_and!; [lia|done| |by right; right].
        destruct (all !! n) as [x|] eqn:Hn.
        -- rewrite (drop_S _ _ _ Hn) in Hits. by injection Hits.
        -- apply lookup_ge_None in Hn. rewrite drop_ge in Hits by done. done.
      * exists n, its. rewrite Hbuf2. rewrite Hbuf1 in Hbuf. rewrite Hbuf in Hviews.
        split_and!; [done|done|done|by left].
Qed.

(** Every step keeps the stream on the wire, and counts a delivery for
    each true [Next]. *)
Lemma follows_exec (n : nat) (sys sys' : system) (a : action)
    (o : list observation) :
  follows all n sys ->
  exec sys a = Stepped o sys' ->
  follows all (n + deliveries o) sys'.
Proof.
  intros Hfollows Hexec.
  pose proof Hfollows as
    [Hsane Hnil (dl & Hlen & Htake & Hdl & Hcur) (m & its & Hnm & Hviews & Hits & Hm)].
  pose proof (sane_exec _ _ _ _ Hsane Hexec) as Hsane'.
  pose proof Hsane as [Hc _ Hmu _ _].
  assert (∀ s', follows all n sys ->
                sane (mkSystem (sys_heap sys) s' (sys_producer sys)) ->
                currentEvent s' = currentEvent (sys_stream sys) ->
                closed s' = closed (sys_stream sys) ->
                err s' = err (sys_stream sys) ->
                eventChan s' = eventChan (sys_stream sys) ->
                follows all (n + 0) (mkSystem (sys_heap sys) s' (sys_producer sys)))
    as Hsame.
  { clear. intros s'
      [_ Hnil (dl & Hlen & Htake & Hdl & Hcur) (m & its & Hnm & Hviews & Hits & Hm)]
      Hsane' Hcur' Hclosed' Herr' Hch'.
    rewrite Nat.add_0_r. constructor; simpl.
    - done.
    - rewrite Hcur'. done.
    - exists dl. split_and!; [done|done|done|].
      unfold current_event in *. simpl. rewrite Hcur', Hclosed'. done.
    - exists m, its. rewrite Hch'. split_and!; [done|done|done|].
      unfold abandoned. rewrite Hclosed', Herr'. done. }
  destruct a; simpl in Hexec.
  - pose proof (producer_step_spec (sys_heap sys) (eventChan (sys_stream sys))
                  (sys_producer sys) Hc) as Hp.
    destruct (producer_step _ _ _) as [[[h' ch'] p']| |]; [|done|done].
    injection Hexec as <- <-.
    destruct Hp as ((x & ->) & _ & _ & _ & ws & its2 & Hbuf & Hws & Hsend).
    unfold deliveries. simpl. rewrite Nat.add_0_r.
    constructor; simpl.
    + done.
    + done.
    + exists dl. split_and!; [done|done|done|].
      intros Hopen. rewrite <- (Hcur Hopen). unfold current_event. simpl.
      destruct (currentEvent (sys_stream sys)) as [p|] eqn:Hp; simpl; [|done].
      destruct (sys_heap sys !! p) as [ev|] eqn:Hev.
      * by apply lookup_app_l_Some.
      * exfalso. specialize (Hcur Hopen). unfold current_event in Hcur.
        rewrite Hp in Hcur. simpl in Hcur. rewrite Hev in Hcur.
        destruct dl as [|ev dl _] using rev_ind.
        -- simpl in Hlen. subst n. by discriminate (Hnil eq_refl).
        -- by rewrite last_snoc in Hcur.
    + exists m, (its ++ its2). split_and!; [done| | |done].
      * rewrite Hbuf. apply Forall2_app; [|done].
        eapply Forall2_impl; [done|]. intros w it. apply view_app.
      * by rewrite <- app_assoc, Hsend.
  - unfold Next in Hexec. destruct (mu (sys_stream sys)) eqn:Hl; [done|].
    unfold Next_locked in Hexec. simpl in Hexec.
    destruct (closed (sys_stream sys) || bool_decide (err (sys_stream sys) ≠ None))
      eqn:Hterm; simpl in Hexec.
    + injection Hexec as <- <-. rewrite with_mu_unlock in * by done.
      unfold deliveries. simpl. destruct sys. apply Hsame; done.
    + apply orb_false_elim in Hterm as [Hopen Herr].
      apply bool_decide_eq_false in Herr.
      assert (err (sys_stream sys) = None) as Herr'
        by by destruct (err (sys_stream sys)); [destruct Herr|].
      destruct (Next_select _ _ _) as [[b s1]| |] eqn:Hsel; simpl in Hexec; [| |done].
      * injection Hexec as <- <-.
        replace (deliveries [Next_returned b]) with (if b then 1%nat else 0%nat)
          by by destruct b.
        eapply follows_select; [done|done|done| |done|done].
        by destruct (sys_stream sys).
      * injection Hexec as <- <-. unfold deliveries. simpl. by apply Hsame.
  - destruct (mu (sys_stream sys)) eqn:Hl; [|done].
    destruct (Hmu eq_refl) as [Hopen Herr].
    unfold Next_resume in Hexec.
    destruct (Next_select _ _ _) as [[b s1]| |] eqn:Hsel; simpl in Hexec; [| |done].
    + injection Hexec as <- <-.
      replace (deliveries [Next_returned b]) with (if b then 1%nat else 0%nat)
        by by destruct b.
      by eapply follows_select.
    + injection Hexec as <- <-. unfold deliveries. simpl. by apply Hsame.
  - unfold Current in Hexec. destruct (mu (sys_stream sys)); [done|].
    injection Hexec as <- <-. unfold deliveries. simpl. by apply Hsame.
  - unfold Err in Hexec. destruct (mu (sys_stream sys)); [done|].
    injection Hexec as <- <-. unfold deliveries. simpl. by apply Hsame.
  - unfold Close, Close_locked in Hexec.
    destruct (mu (sys_stream sys)) eqn:Hl; [done|]. simpl in Hexec.
    destruct (closed (sys_stream sys)) eqn:Hclosed; injection Hexec as <- <-.
    + rewrite with_mu_unlock in * by done.
      unfold deliveries. simpl. destruct sys. by apply Hsame.
    + unfold deliveries. simpl. rewrite Nat.add_0_r. constructor; simpl.
      * done.
      * done.
      * exists dl. by split_and!.
      * exists m, its. split_and!; [done|done|done|by right; left].
  - injection Hexec as <- <-. unfold deliveries. simpl. by apply Hsame.
Qed.

Lemma deliveries_app (o1 o2 : list observation) :
  deliveries (o1 ++ o2) = (deliveries o1 + deliveries o2)%nat.
Proof. unfold deliveries. by rewrite Next_results_app, sum_list_with_app. Qed.

Lemma follows_run (sched : list action) (n : nat) (sys sys' : system)
    (obs : list observation) :
  follows all n sys ->
  run sched sys = Some (obs, sys') ->
  follows all (n + deliveries obs) sys'.
Proof.
  revert n sys obs. induction sched as [|a sched IH]; intros n sys obs Hf; simpl.
  - intros [= <- <-]. by rewrite Nat.add_0_r.
  - destruct (exec sys a) as [o sys1| |] eqn:Hexec; [| |done].
    + destruct (run sched sys1) as [[obs1 sys2]|] eqn:Hrun; [|done].
      intros [= <- <-]. rewrite deliveries_app, Nat.add_assoc.
      eapply IH; [|done]. by eapply follows_exec.
    + by apply IH.
Qed.

End Facts.

(** Whatever happens to a stream, what it delivers is a prefix of the
    wire. The stream is the one [NewStreaming] returned, on any wire and
    under any schedule that does not crash: [Next] and the other methods
    called in any order, the goroutine running whenever it does, the
    context cancelled and the stream closed at any moment. Then the events
    for which [Next] returned true are the first items the goroutine had
    to send, in their order: each is a decoded event not of type
    [run.error], none was skipped, repeated or reordered; and unless the
    stream was closed the current event is the last of them. *)
Theorem delivered_is_a_prefix `{External} (ctx : context)
    (config : option BotProviderConfig) (message : option GenericBotMessage)
    (s : botProviderStream) (effs : list effect) (w : Wire)
    (sched : list action) (obs : list observation) (sys : system) :
  NewStreaming ctx config message = (Some s, None, effs) ->
  run sched (launch w s) = Some (obs, sys) ->
  ∃ delivered,
    length delivered = deliveries obs
    ∧ (item_event <$> delivered) `prefix_of` items_of w
    ∧ Forall (fun ev => GenericBotSseEvent.EventType ev ≠ SseEventTypeRunError)
        delivered
    ∧ (closed (sys_stream sys) = false -> current_event sys = last delivered).
Proof.
  intros Hnew Hrun.
  destruct (sane_launch _ _ _ _ _ w Hnew)
    as (Hsane & Hopen & Herr & Hmu & Hcur & Hbuf & Hc).
  assert (follows (items_of w) 0 (launch w s)) as Hf.
  { constructor; simpl.
    - done.
    - done.
    - exists []. split_and!; [done|by rewrite take_0|done|].
      intros _. unfold current_event. simpl. by rewrite Hcur.
    - exists 0%nat, []. rewrite Hbuf. split_and!; [done|constructor|done|by left]. }
  pose proof (follows_run _ _ _ _ _ _ Hf Hrun) as [_ _ (dl & Hlen & Htake & Hdl & Hlast) _].
  simpl in *. exists dl. split_and!; [done| | |done].
  - rewrite <- Htake. apply prefix_take.
  - eapply Forall_impl; [done|]. intros ev. apply not_run_error_type.
Qed.

(** The consumer cancels after the first of three events and goes on
    calling [Next]. *)
Lemma delivered_is_a_prefix_witness :
  let w := mkWire ["asgard.run.init"; "asgard.message.delta"; "asgard.run.done"]
             (Some io_EOF) in
  let sched :=
    [producer_runs; producer_runs; calls_Next case_eventChan;
     ctx_cancelled context_Canceled; calls_Next case_eventChan;
     calls_Next case_ctxDone; calls_Next case_eventChan] in
  ∃ delivered,
    length delivered
    = deliveries
        [Next_returned true; Next_returned true; Next_returned false;
         Next_returned false]
    ∧ (item_event <$> delivered) `prefix_of` @items_of sample.external w
    ∧ Forall (fun ev => GenericBotSseEvent.EventType ev ≠ SseEventTypeRunError)
        delivered
    ∧ (closed (sys_stream (scenario.after sched w)) = false ->
       current_event (scenario.after sched w) = last delivered).
Proof.
  intros w sched.
  apply (@delivered_is_a_prefix sample.external sample.background
           (Some sample.config) (Some sample.message) sample.stream
           [go_Connect
              (sse_Connection.mk (sse_Client.mk None (-1))
                 (Request.mk "POST"
                    "http://localhost:8080/ns/default/bot-provider/my-bot/message/sse"
                    [("Content-Type", "application/json"); ("x-api-key", "key")]
                    (BytesBody "hi"))
                 (1024 * 1024) (1024 * 1024 * 10))]
           w sched
           [Next_returned true; Next_returned true; Next_returned false;
            Next_returned false]
           (scenario.after sched w));
    by vm_compute.
Defined.

End delivery.

(** ** The command-line client *)

Module repl.
Import go models client cli cli.botSession notions.

Lemma int_wrap_succ (n : Z) :
  - 2 ^ 63 <= n < 2 ^ 63 ->
  int_wrap (n + 1) ≠ n ∧ (n < 2 ^ 63 - 1 -> int_wrap (n + 1) = n + 1).
Proof.
  intros Hn. unfold int_wrap. split.
  - destruct (decide (n = 2 ^ 63 - 1)) as [->|Hmax].
    + by vm_compute.
    + rewrite Z.mod_small by lia. lia.
  - intros Hlt. rewrite Z.mod_small by lia. lia.
Qed.

Lemma append_cancel (p s t : string) : p +:+ s = p +:+ t -> s = t.
Proof. induction p as [|a p IH]; simpl; [done|]. intros [= Hst]. auto. Qed.

Section Facts.
Context `{External} `{Runtime}.

(** [sendBotMessage] changes the counter of the session and nothing
    else, whether the message goes through or not. *)
Lemma sendBotMessage_session (ctx : context) (a : botAgent) (session : botSession)
    (text : string) (action : PostBackAction) (now : Z)
    (session' : botSession) (err : option error) :
  sendBotMessage ctx a session text action now = Returns (session', err) ->
  session' = with_seq (int_wrap (seq session + 1)) session.
Proof.
  unfold sendBotMessage, mret, outcome_ret. simpl.
  destruct (String.eqb (transport session) "rest").
  - destruct (sendByREST _ _ _ _); simpl; [|done|done]. by intros [= <- _].
  - destruct (String.eqb (transport session) "sse").
    + destruct (sendBySSE _ _ _); simpl; [|done|done]. by intros [= <- _].
    + by intros [= <- _].
Qed.

(** A command leaves the transport as it is or sets it to one of the two
    the client knows. *)
Lemma handleBotCommand_transport (ctx : context) (a : botAgent)
    (session : botSession) (input : string) (now : Z)
    (session' : botSession) (keepGoing : bool) (err : option error) :
  handleBotCommand ctx a session input now = Returns (session', keepGoing, err) ->
  transport session' = transport session
  ∨ transport session' = "sse" ∨ transport session' = "rest".
Proof.
  unfold handleBotCommand, mret, outcome_ret.
  destruct (strings_Fields input) as [|cmd args]; [done|].
  assert (∀ s k e, transport s = transport session ->
                   Returns (s, k, e) = Returns (session', keepGoing, err) ->
                   transport session' = transport session
                   ∨ transport session' = "sse" ∨ transport session' = "rest")
    as Hsame.
  { intros s k e Hs [= <- _ _]. by left. }
  destruct (String.eqb cmd "/help"); [by apply Hsame|].
  destruct (String.eqb cmd "/exit" || String.eqb cmd "/quit"); [by apply Hsame|].
  destruct (String.eqb cmd "/transport").
  { destruct args as [|t [|? ?]]; [by apply Hsame| |by apply Hsame].
    destruct (String.eqb_spec t "sse") as [->|];
      [intros [= <- _ _]; by right; left|].
    destruct (String.eqb_spec t "rest") as [->|]; [|by apply Hsame].
    intros [= <- _ _]. by right; right. }
  destruct (String.eqb cmd "/debug").
  { destruct args as [|d [|? ?]]; [by apply Hsame| |by apply Hsame].
    destruct (String.eqb d "on" || String.eqb d "off"); by apply Hsame. }
  destruct (String.eqb cmd "/blob").
  { destruct args as [|path more]; [by apply Hsame|].
    destruct (uploadBlob _ _ _ _ _) as [[[blob|] [e|]]| |];
      cbn [mbind outcome_bind]; try done; by apply Hsame. }
  destruct (String.eqb cmd "/blobs"); [by apply Hsame|].
  destruct (String.eqb cmd "/clear-blobs"); [by apply Hsame|].
  destruct (String.eqb cmd "/channel"); [destruct args; by apply Hsame|].
  destruct (String.eqb cmd "/reset"); [|by apply Hsame].
  destruct (sendBotMessage _ _ _ _ _ _) as [[s1 e]| |] eqn:Hsend;
    cbn [mbind outcome_bind]; [|done|done].
  apply sendBotMessage_session in Hsend as ->. by apply Hsame.
Qed.

(** What one turn of the loop leaves of the transport. *)
Lemma turn_transport (ctx : context) (a : botAgent) (session : botSession)
    (line : string) (now : Z) (session' : botSession) (keepGoing : bool)
    (err : option error) :
  runBotREPL_turn ctx a session line now = Returns (session', keepGoing, err) ->
  valid_transport session -> valid_transport session'.
Proof.
  unfold runBotREPL_turn, valid_transport.
  destruct (String.eqb _ ""); [by intros [= <- _ _]|].
  destruct (String.prefix "/" _).
  - intros Hcmd. apply handleBotCommand_transport in Hcmd as [->|?]; tauto.
  - destruct (sendBotMessage _ _ _ _ _ _) as [[s1 e]| |] eqn:Hsend; simpl;
      [|done|done].
    apply sendBotMessage_session in Hsend as ->. by intros [= <- _ _].
Qed.

(** The transport of a session is always one of the two the client knows.
    [runBot] starts the loop only with [sse] or [rest], and whatever lines
    the loop reads, the session it is left with has one of them: the only
    command that sets it checks its argument. So the last branch of
    [sendBotMessage], the error for an unsupported transport, is never
    taken on it: the message goes to [sendByREST] or to [sendBySSE]. *)
Theorem transport_stays_valid (a : botAgent)
    (channelFlag transportFlag : string) (debugFlag : bool) (start : Z)
    (turns : list (context * string * Z)) (finally : context)
    (scanErr : option error) (session session' : botSession) (err : option error) :
  runBot_session channelFlag transportFlag debugFlag start = Some session ->
  runBotREPL a session turns finally scanErr = Returns (session', err) ->
  valid_transport session
  ∧ valid_transport session'
  ∧ ∀ ctx text action now,
      let next := with_seq (int_wrap (seq session' + 1)) session' in
      let msg :=
        GenericBotMessage.mk (channelID next) (messageID now (seq next)) text
          action (blobIDs next) ∅ in
      sendBotMessage ctx a session' text action now
      = e ← (if String.eqb (transport session') "rest"
             then sendByREST ctx a msg (debug next)
             else sendBySSE ctx a msg);
        mret (next, e).
Proof.
  intros Hstart Hrun.
  assert (valid_transport session) as Hvalid.
  { revert Hstart. unfold runBot_session, valid_transport.
    destruct (String.eqb_spec (strings_ToLower (strings_TrimSpace transportFlag)) "sse")
      as [Hsse|]; simpl; [intros [= <-]; by left|].
    destruct (String.eqb_spec (strings_ToLower (strings_TrimSpace transportFlag)) "rest")
      as [Hrest|]; simpl; [intros [= <-]; by right|done]. }
  assert (valid_transport session') as Hvalid'.
  { clear Hstart. revert session Hvalid Hrun.
    induction turns as [|[[ctx line] now] turns IH]; intros session Hvalid; simpl.
    - destruct (ctx_Err finally); [by intros [= <- _]|].
      destruct scanErr; by intros [= <- _].
    - destruct (ctx_Err ctx); [by intros [= <- _]|].
      destruct (runBotREPL_turn _ _ _ _ _) as [[[s1 k] e]| |] eqn:Hturn;
        [|done|done].
      pose proof (turn_transport _ _ _ _ _ _ _ _ Hturn Hvalid) as Hvalid1.
      destruct k; [by apply IH|]. by intros [= <- _]. }
  split_and!; [done|done|].
  intros ctx text action now. unfold sendBotMessage. simpl.
  destruct Hvalid' as [-> | ->]; done.
Qed.

(** Only [/exit] and [/quit] end the loop, and a command that fails
    changes nothing but, for [/reset], the message counter. When
    [handleBotCommand] tells the loop to stop, the command was [/exit] or
    [/quit], the session is as before and there is no error; when it
    returns an error the loop goes on with the same channel, transport,
    debug flag and attached blobs. The counter moves by at most one. *)
Theorem only_exit_stops (ctx : context) (a : botAgent) (session : botSession)
    (input : string) (now : Z) (session' : botSession) (keepGoing : bool)
    (err : option error) :
  handleBotCommand ctx a session input now = Returns (session', keepGoing, err) ->
  (keepGoing = false ->
   session' = session ∧ err = None
   ∧ ∃ args, strings_Fields input = "/exit" :: args
             ∨ strings_Fields input = "/quit" :: args)
  ∧ (err ≠ None ->
     keepGoing = true
     ∧ channelID session' = channelID session
     ∧ transport session' = transport session
     ∧ debug session' = debug session
     ∧ blobIDs session' = blobIDs session)
  ∧ (seq session' = seq session ∨ seq session' = int_wrap (seq session + 1)).
Proof.
  unfold handleBotCommand, mret, outcome_ret.
  destruct (strings_Fields input) as [|cmd args]; [done|].
  match goal with |- _ = _ -> ?G =>
    assert (∀ s k e,
              (k = false -> s = session ∧ e = None
                            ∧ (cmd = "/exit" ∨ cmd = "/quit")) ->
              (e ≠ None ->
               k = true
               ∧ channelID s = channelID session
               ∧ transport s = transport session
               ∧ debug s = debug session
               ∧ blobIDs s = blobIDs session) ->
              (seq s = seq session ∨ seq s = int_wrap (seq session + 1)) ->
              Returns (s, k, e) = Returns (session', keepGoing, err) -> G)
      as Hcase
  end.
  { intros s k e Hstop Herr Hseq [= <- <- <-]. split_and!; [|done|done].
    intros Hk. destruct (Hstop Hk) as (-> & -> & [-> | ->]); eauto 10. }
  assert (∀ P : Prop, true = false -> P) as Hgo by done.
  assert (∀ P : Prop, @None error ≠ None -> P) as Hok by done.
  destruct (String.eqb_spec cmd "/help");
    [apply Hcase; [apply Hgo|apply Hok|by left]|].
  destruct (String.eqb_spec cmd "/exit");
    [apply Hcase; [intros _; split_and!; [done|done|by left]
                  |apply Hok|by left]|].
  destruct (String.eqb_spec cmd "/quit");
    [apply Hcase; [intros _; split_and!; [done|done|by right]
                  |apply Hok|by left]|].
  cbn [orb].
  match goal with |- _ = _ -> ?G =>
    assert (∀ e, Returns (session, true, Some e)
                 = Returns (session', keepGoing, err) -> G) as Hfail
  end.
  { intros e. apply Hcase; [apply Hgo|intros _; by split_and!|by left]. }
  destruct (String.eqb cmd "/transport").
  { destruct args as [|t [|? ?]]; [apply Hfail| |apply Hfail].
    destruct (String.eqb_spec t "sse") as [->|].
    { apply Hcase; [apply Hgo|apply Hok|by left]. }
    destruct (String.eqb_spec t "rest") as [->|]; [|apply Hfail].
    apply Hcase; [apply Hgo|apply Hok|by left]. }
  destruct (String.eqb cmd "/debug").
  { destruct args as [|d [|? ?]]; [apply Hfail| |apply Hfail].
    destruct (String.eqb d "on" || String.eqb d "off"); [|apply Hfail].
    apply Hcase; [apply Hgo|apply Hok|by left]. }
  destruct (String.eqb cmd "/blob").
  { destruct args as [|path more]; [apply Hfail|].
    destruct (uploadBlob _ _ _ _ _) as [[[blob|] [e|]]| |];
      cbn [mbind outcome_bind]; try done; try apply Hfail.
    apply Hcase; [apply Hgo|apply Hok|by left]. }
  destruct (String.eqb cmd "/blobs");
    [apply Hcase; [apply Hgo|apply Hok|by left]|].
  destruct (String.eqb cmd "/clear-blobs");
    [apply Hcase; [apply Hgo|apply Hok|by left]|].
  destruct (String.eqb cmd "/channel").
  { destruct args; apply Hcase; [apply Hgo|apply Hok|by left
                                 |apply Hgo|apply Hok|by left]. }
  destruct (String.eqb cmd "/reset"); [|apply Hfail].
  destruct (sendBotMessage _ _ _ _ _ _) as [[s1 e]| |] eqn:Hsend;
    cbn [mbind outcome_bind]; [|done|done].
  apply sendBotMessage_session in Hsend as ->.
  apply Hcase; [apply Hgo|intros _; by split_and!|by right].
Qed.

(** Every message of a session gets a number of its own. [sendBotMessage]
    moves the counter by one whether the message goes through or not and
    leaves channel, transport, debug flag and attached blobs as they are
    (the blobs stay attached to the messages that follow); the number it
    gives differs from the one before, and two messages sent within the
    same second carry different ids exactly because their numbers differ. *)
Theorem messages_are_numbered (ctx : context) (a : botAgent)
    (session : botSession) (text : string) (action : PostBackAction) (now : Z)
    (session' : botSession) (err : option error) :
  - 2 ^ 63 <= seq session < 2 ^ 63 ->
  sendBotMessage ctx a session text action now = Returns (session', err) ->
  session' = with_seq (seq session') session
  ∧ seq session' ≠ seq session
  ∧ (seq session < 2 ^ 63 - 1 -> seq session' = seq session + 1)
  ∧ messageID now (seq session') ≠ messageID now (seq session)
  ∧ ∀ n m, messageID now n = messageID now m -> n = m.
Proof.
  intros Hseq Hsend. apply sendBotMessage_session in Hsend as ->. simpl.
  destruct (int_wrap_succ _ Hseq) as [Hne Hsucc].
  assert (∀ n m, messageID now n = messageID now m -> n = m) as Hinj.
  { intros n m. unfold messageID. intros Hid.
    do 3 apply append_cancel in Hid. by apply pretty_Z_inj in Hid. }
  split_and!; [done|done|done| |done].
  intros Hid. by apply Hinj in Hid.
Qed.

(** [Close] called with the mutex free returns. *)
Lemma Close_returns (s : botProviderStream) :
  botProviderStream.mu s = false -> ∃ r s', Close s = Done r s'.
Proof.
  intros Hmu. unfold Close. rewrite Hmu.
  destruct (Close_locked _) as [r s']. eauto.
Qed.

Lemma sendBySSE_return_returns (s : botProviderStream) (out : list string)
    (err : option error) :
  botProviderStream.mu s = false ->
  sendBySSE_return s out err = Returns (Returned out err).
Proof.
  intros Hmu. unfold sendBySSE_return.
  by destruct (Close_returns s Hmu) as (r & s' & ->).
Qed.

(** The call of [Next] the loop makes is a step of the system. *)
Lemma loop_Next_exec (pick : select_case) (sys : system) :
  exec sys (if botProviderStream.mu (sys_stream sys)
            then resumes_Next pick else calls_Next pick)
  = on_call sys Next_returned
      (if botProviderStream.mu (sys_stream sys)
       then Next_resume pick (sys_heap sys) (sys_stream sys)
       else Next pick (sys_heap sys) (sys_stream sys)).
Proof. by destruct (botProviderStream.mu (sys_stream sys)) eqn:Hmu; simpl; rewrite ?Hmu. Qed.

(** What the loop finds when its call of [Next] returned: the mutex is
    free; after true the current event is in the heap and is not of type
    [run.error]. *)
Lemma loop_Next_returned (pick : select_case) (sys : system) (b : bool)
    (s1 : botProviderStream) :
  sane sys ->
  (if botProviderStream.mu (sys_stream sys)
   then Next_resume pick (sys_heap sys) (sys_stream sys)
   else Next pick (sys_heap sys) (sys_stream sys)) = Done b s1 ->
  botProviderStream.mu s1 = false
  ∧ (b = true ->
     ∃ p ev, botProviderStream.currentEvent s1 = Some p
             ∧ sys_heap sys !! p = Some ev
             ∧ is_run_error ev = false).
Proof.
  intros Hsane Hcall.
  pose proof (loop_Next_exec pick sys) as Hexec. rewrite Hcall in Hexec.
  simpl in Hexec.
  destruct (lifecycle.Next_returned_cases _ _ _ _ b Hsane Hexec)
    as (_ & _ & Hmu & Hcases); [by apply list_elem_of_singleton|].
  simpl in Hmu. split; [done|]. intros ->.
  destruct Hcases as [[? _]|(_ & _ & pick' & s' & Hsel & Hs1)]; [done|].
  simpl in Hs1. subst s1.
  destruct (lifecycle.Next_select_true _ _ _ _ Hsel)
    as (w & p & ev & _ & _ & Hty & Hp & Hcur & _).
  exists p, ev. by split_and!.
Qed.

(** A step of the loop keeps a safe system safe and does not panic. *)
Lemma sendBySSE_step_safe (pick : select_case) (sys : system) (out : list string) :
  safe sys ->
  match sendBySSE_step pick sys out with
  | Returns (Looping sys' _) => safe sys'
  | Returns (Returned _ _) => True
  | Blocks => True
  | Panics => False
  end.
Proof.
  intros Hsafe.
  pose proof (lifecycle.safe_exec sys
                (if botProviderStream.mu (sys_stream sys)
                 then resumes_Next pick else calls_Next pick) Hsafe) as Hexec.
  rewrite loop_Next_exec in Hexec.
  pose proof (loop_Next_returned pick sys) as Hret.
  unfold sendBySSE_step.
  destruct (if botProviderStream.mu (sys_stream sys) then _ else _)
    as [b s1|s1| |]; simpl in Hexec; [|done|done|done].
  destruct (Hret b s1 (safe_sane _ Hsafe) eq_refl) as [Hmu Htrue].
  destruct b.
  - destruct (Htrue eq_refl) as (p & ev & Hcur & Hp & _).
    unfold Current. rewrite Hmu, Hcur, Hp.
    destruct (sendBySSE_body ev) as [printed [err|]]; [|done].
    by rewrite sendBySSE_return_returns.
  - unfold Err. rewrite Hmu. by rewrite sendBySSE_return_returns.
Qed.

(** The loop of [sendBySSE] does not panic on a safe system, whatever the
    interleaving. *)
Lemma sendBySSE_loop_safe (sched : list tick) (sys : system) (out : list string) :
  safe sys -> sendBySSE_loop sched sys out ≠ Panics.
Proof.
  revert sys out. induction sched as [|[|pick|cause] sched IH]; intros sys out Hsafe;
    cbn [sendBySSE_loop]; [done| | |].
  - pose proof (lifecycle.safe_exec sys producer_runs Hsafe) as Hexec.
    destruct (exec sys producer_runs); [by apply IH|by apply IH|done].
  - pose proof (sendBySSE_step_safe pick sys out Hsafe) as Hstep.
    destruct (sendBySSE_step pick sys out) as [[sys' out'|out' err]| |];
      [by apply IH|done|done|done].
  - pose proof (lifecycle.safe_exec sys (ctx_cancelled cause) Hsafe) as Hexec.
    destruct (exec sys (ctx_cancelled cause)); [by apply IH|by apply IH|done].
Qed.

(** [sendBySSE] does not panic when no frame of the answer decodes to a
    [run.error] event without its fact. *)
Lemma sendBySSE_safe (ctx : context) (a : botAgent) (msg : GenericBotMessage) :
  Forall well_formed (frames (sse_Wire msg)) ->
  sendBySSE ctx a msg ≠ Panics.
Proof.
  intros Hframes. unfold sendBySSE, sendBySSE_output.
  destruct (botAgent_NewStreamer a ctx (Some msg)) as [[[stream|] [err|]] effs] eqn:Hnew;
    [done| |done|].
  - assert (safe (launch (sse_Wire msg) stream)) as Hsafe.
    { constructor; [|done|done].
      by destruct (running.sane_launch _ _ _ _ _ (sse_Wire msg) Hnew) as [? _]. }
    pose proof (sendBySSE_loop_safe (sse_schedule msg) _ [] Hsafe) as Hloop.
    by destruct (sendBySSE_loop _ _ _).
  - revert Hnew.
    unfold botAgent_NewStreamer, BotProviderClient_NewStreamer, NewStreaming.
    by destruct (connect _) as [[? [?|]] ?].
Qed.

(** The loop of [sendBySSE] is left only after [Next] returned false, and
    the function then returns what [Err] reports: its branch for events
    of type [run.error], the only [return] inside the loop, is never
    taken, because [Next] does not return true on such an event (it
    stores the error and returns false). On every system a stream can
    reach, a step of the loop that returns has written nothing and
    returns the stored error of the stream; a step that goes on either
    parked in [Next] or handled the current event, which is not of type
    [run.error], and wrote what the body writes for it. *)
Theorem sendBySSE_leaves_on_false (pick : select_case) (sys : system)
    (out : list string) :
  sane sys ->
  (∀ out' err,
     sendBySSE_step pick sys out = Returns (Returned out' err) ->
     out' = out
     ∧ ∃ s1,
         (if botProviderStream.mu (sys_stream sys)
          then Next_resume pick (sys_heap sys) (sys_stream sys)
          else Next pick (sys_heap sys) (sys_stream sys)) = Done false s1
         ∧ err = botProviderStream.err s1)
  ∧ (∀ sys' out',
       sendBySSE_step pick sys out = Returns (Looping sys' out') ->
       (botProviderStream.mu (sys_stream sys') = true ∧ out' = out)
       ∨ ∃ ev,
           current_event sys' = Some ev
           ∧ is_run_error ev = false
           ∧ sendBySSE_body ev = ((sendBySSE_body ev).1, None)
           ∧ out' = out ++ (sendBySSE_body ev).1).
Proof.
  intros Hsane.
  pose proof (loop_Next_returned pick sys) as Hret.
  pose proof (loop_Next_exec pick sys) as Hexec.
  unfold sendBySSE_step.
  destruct (if botProviderStream.mu (sys_stream sys) then _ else _)
    as [b s1|s1| |] eqn:Hcall; [| |done|done].
  - destruct (Hret b s1 Hsane eq_refl) as [Hmu Htrue].
    destruct b.
    + destruct (Htrue eq_refl) as (p & ev & Hcur & Hp & Hty).
      unfold Current. rewrite Hmu, Hcur, Hp.
      assert (sendBySSE_body ev = ((sendBySSE_body ev).1, None)) as Hbody.
      { unfold sendBySSE_body. unfold is_run_error in Hty. rewrite Hty.
        repeat case_match; done. }
      rewrite Hbody. cbn [fst]. split; [done|].
      intros sys' out' [= <- <-]. right. exists ev.
      unfold current_event. simpl. rewrite Hcur. simpl. by rewrite Hp.
    + unfold Err. rewrite Hmu, sendBySSE_return_returns by done.
      split; [|done]. intros out' err [= <- <-]. split; [done|]. by exists s1.
  - split; [done|]. intros sys' out' [= <- <-]. left. split; [|done]. simpl.
    revert Hcall. unfold Next, Next_resume.
    destruct (botProviderStream.mu (sys_stream sys)) eqn:Hmu.
    * destruct (Next_select _ _ _) as [[? ?]| |]; [done| |done]. by intros [= <-].
    * destruct (Next_locked _ _ _) as [[? ?]| |]; [done| |done]. by intros [= <-].
Qed.

(** A turn of the loop with an agent made by [NewBotAgent] does not
    panic, provided [strings.Fields] finds a field in an input that
    starts with a slash and the server sends no [run.error] event without
    its fact. The client the agent wraps has an HTTP client, and its calls
    return a reply (a blob) whenever they return no error, so no nil
    pointer is followed in [sendByREST] or after [uploadBlob], [parts[0]]
    is there, and [sendBySSE] finds an event behind the pointer [Current]
    returns after [Next] returned true. *)
Lemma turn_does_not_crash (edgeServerHost namespace botProviderName
    botProviderAPIKey : string) (ctx : context) (session : botSession)
    (line : string) (now : Z) :
  (∀ input, String.prefix "/" input = true -> strings_Fields input ≠ []) ->
  (∀ msg, Forall well_formed (frames (sse_Wire msg))) ->
  runBotREPL_turn ctx
    (NewBotAgent edgeServerHost namespace botProviderName botProviderAPIKey)
    session line now ≠ Panics.
Proof.
  intros Hfields Hwire.
  set (a := NewBotAgent _ _ _ _).
  assert (∀ ctx a msg, sendBySSE ctx a msg ≠ Panics) as Hsse
    by (intros; by apply sendBySSE_safe).
  destruct (calls.calls_do_not_panic (botAgent.client a) ctx
              (mkClient defaultHTTPTimeout) eq_refl)
    as (_ & Hsend & _ & _ & Hblob & _).
  destruct (calls.never_nil_nil (botAgent.client a) ctx) as [Hsend' Hblob'].
  assert (∀ msg debug, sendByREST ctx a msg debug ≠ Panics) as Hrest.
  { intros msg dbg. unfold sendByREST, botAgent_SendMessage.
    destruct (Hsend (Some msg) dbg) as [[v e] Hr].
    specialize (Hsend' (Some msg) dbg). rewrite Hr in *. simpl.
    destruct v, e; done. }
  assert (∀ s text action, sendBotMessage ctx a s text action now ≠ Panics) as Hmsg.
  { intros s text action. unfold sendBotMessage. simpl.
    destruct (String.eqb (transport s) "rest").
    - match goal with |- context [sendByREST ?c ?x ?m ?d] =>
        pose proof (Hrest m d); destruct (sendByREST c x m d) end; done.
    - destruct (String.eqb (transport s) "sse"); [|done].
      match goal with |- context [sendBySSE ?c ?x ?m] =>
        pose proof (Hsse c x m); destruct (sendBySSE c x m) end; done. }
  assert (∀ channel path mimeType,
            uploadBlob ctx a channel path mimeType ≠ Panics
            ∧ uploadBlob ctx a channel path mimeType ≠ Returns (None, None))
    as Hupload.
  { intros channel path mimeType. unfold uploadBlob, botAgent_UploadBlob.
    destruct (os_Open path) as [file|e]; [|done].
    match goal with |- context [UploadBlob ?c ?x ?ch (Some ?r) ?f ?m] =>
      destruct (Hblob ch r f m) as [r' Hr]; pose proof (Hblob' ch (Some r) f m);
      rewrite Hr in *
    end. done. }
  unfold runBotREPL_turn.
  destruct (String.eqb _ ""); [done|].
  destruct (String.prefix "/" (strings_TrimSpace line)) eqn:Hslash.
  - unfold handleBotCommand. specialize (Hfields _ Hslash).
    destruct (strings_Fields (strings_TrimSpace line)) as [|cmd args]; [done|].
    repeat (match goal with
            | |- context [if ?b then _ else _] => destruct b
            | |- context [match ?l with [] => _ | _ :: _ => _ end] => destruct l
            end; try done).
    + destruct (Hupload (channelID session) s "") as [Hp Hnn].
      destruct (uploadBlob _ _ _ _ _) as [[[?|] [?|]]| |]; done.
    + destruct (Hupload (channelID session) s s0) as [Hp Hnn].
      destruct (uploadBlob _ _ _ _ _) as [[[?|] [?|]]| |]; done.
    + pose proof (Hmsg session "reset" PostBackActionResetChanel) as Hr.
      by destruct (sendBotMessage _ _ _ _ _ _) as [[? ?]| |].
    + match goal with |- context [sendBotMessage ?c ?x ?s ?t ?ac ?n] =>
        pose proof (Hmsg s t ac) as Hr; destruct (sendBotMessage c x s t ac n) as [[? ?]| |]
      end; done.
  - pose proof (Hmsg session (strings_TrimSpace line) PostBackActionNone) as Hr.
    by destruct (sendBotMessage _ _ _ _ _ _) as [[? ?]| |].
Qed.

(** The loop of the client does not panic, as long as the server sends no
    [run.error] event without its fact. With an agent made by
    [NewBotAgent], whatever lines are read and however the goroutines of
    the streams are scheduled: [parts[0]] is there, the reply of
    [SendMessage] and the blob of [UploadBlob] are non-nil whenever their
    error is nil, the HTTP client is never nil, the file [uploadBlob]
    passes on is not nil, and in [sendBySSE] the pointer [Current] returns
    after [Next] returned true has an event behind it. [strings.Fields] is
    assumed to find a field in an input that starts with a slash. *)
Theorem repl_does_not_crash (edgeServerHost namespace botProviderName
    botProviderAPIKey : string) (session : botSession)
    (turns : list (context * string * Z)) (finally : context)
    (scanErr : option error) :
  (∀ input, String.prefix "/" input = true -> strings_Fields input ≠ []) ->
  (∀ msg, Forall well_formed (frames (sse_Wire msg))) ->
  runBotREPL
    (NewBotAgent edgeServerHost namespace botProviderName botProviderAPIKey)
    session turns finally scanErr ≠ Panics.
Proof.
  intros Hfields Hwire. revert session.
  induction turns as [|[[ctx line] now] turns IH]; intros session; simpl.
  - destruct (ctx_Err finally); [done|]. by destruct scanErr.
  - destruct (ctx_Err ctx); [done|].
    pose proof (turn_does_not_crash edgeServerHost namespace botProviderName
                  botProviderAPIKey ctx session line now Hfields Hwire) as Hturn.
    destruct (runBotREPL_turn _ _ _ _ _) as [[[s1 k] e]| |]; [|done|done].
    destruct k; [apply IH|done].
Qed.

End Facts.

(** The console finds a field in every input that starts with a slash. *)
Lemma console_fields (input : string) :
  String.prefix "/" input = true -> console.fields input "" ≠ [].
Proof.
  assert (∀ s cur, cur ≠ "" -> console.fields s cur ≠ []) as Hcur.
  { induction s as [|c rest IH]; intros cur Hne; simpl.
    - by destruct (String.eqb_spec cur "").
    - destruct (Ascii.eqb c _).
      + by destruct (String.eqb_spec cur "").
      + apply IH. by destruct cur. }
  destruct input as [|c rest]; [done|]. intros Hslash.
  cbn [console.fields].
  destruct (Ascii.eqb_spec c (Ascii.ascii_of_nat 32)) as [->|_].
  - by simpl in Hslash.
  - by apply Hcur.
Qed.

(** No frame of the answer of the console's server is a [run.error]
    event. *)
Lemma console_answer :
  Forall (@well_formed accepting.external) (frames console.answer).
Proof.
  repeat constructor; intros ev [= <-]; by vm_compute.
Qed.

(** A session that switches to REST and sends a message. *)
Lemma transport_stays_valid_witness :
  let session' := botSession.mk "cli-channel-0" "rest" false [] 1 in
  valid_transport console.session
  ∧ valid_transport session'
  ∧ ∀ ctx text action now,
      let next := with_seq (int_wrap (seq session' + 1)) session' in
      let msg :=
        GenericBotMessage.mk (channelID next) (messageID now (seq next)) text
          action (blobIDs next) ∅ in
      @sendBotMessage accepting.external console.runtime ctx console.agent
        session' text action now
      = e ← (if String.eqb (transport session') "rest"
             then @sendByREST accepting.external ctx console.agent msg (debug next)
             else @sendBySSE accepting.external console.runtime ctx console.agent msg);
        mret (next, e).
Proof.
  apply (@transport_stays_valid accepting.external console.runtime console.agent
           "" "sse" false 0
           [(sample.background, "/transport rest", 1);
            (sample.background, "hello", 2)]
           sample.background None console.session _ None);
    by vm_compute.
Defined.

(** The command [/exit]. *)
Lemma only_exit_stops_witness :
  (false = false ->
   console.session = console.session ∧ @None error = None
   ∧ ∃ args, @strings_Fields console.runtime "/exit" = "/exit" :: args
             ∨ @strings_Fields console.runtime "/exit" = "/quit" :: args)
  ∧ (@None error ≠ None ->
     false = true
     ∧ channelID console.session = channelID console.session
     ∧ transport console.session = transport console.session
     ∧ debug console.session = debug console.session
     ∧ blobIDs console.session = blobIDs console.session)
  ∧ (seq console.session = seq console.session
     ∨ seq console.session = int_wrap (seq console.session + 1)).
Proof.
  apply (@only_exit_stops accepting.external console.runtime sample.background
           console.agent console.session "/exit" 0 console.session false None).
  by vm_compute.
Defined.

(** The first message of a session. *)
Lemma messages_are_numbered_witness :
  let session' := botSession.mk "cli-channel-0" "sse" false [] 1 in
  session' = with_seq (seq session') console.session
  ∧ seq session' ≠ seq console.session
  ∧ (seq console.session < 2 ^ 63 - 1 -> seq session' = seq console.session + 1)
  ∧ messageID 7 (seq session') ≠ messageID 7 (seq console.session)
  ∧ ∀ n m, messageID 7 n = messageID 7 m -> n = m.
Proof.
  apply (@messages_are_numbered accepting.external console.runtime
           sample.background console.agent console.session "hello"
           PostBackActionNone 7 _ None);
    [by vm_compute|by vm_compute].
Defined.

(** The end of a stream of one event: the event was handled, the
    goroutine has closed the channel, and the loop calls [Next] again. *)
Lemma sendBySSE_leaves_on_false_witness :
  let sys :=
    scenario.after
      [producer_runs; calls_Next case_eventChan; producer_runs; producer_runs]
      scenario.one_event in
  sendBySSE_step case_eventChan sys [] = Returns (Returned [] None)
  ∧ (∀ out' err,
     sendBySSE_step case_eventChan sys [] = Returns (Returned out' err) ->
     out' = []
     ∧ ∃ s1,
         (if botProviderStream.mu (sys_stream sys)
          then Next_resume case_eventChan (sys_heap sys) (sys_stream sys)
          else Next case_eventChan (sys_heap sys) (sys_stream sys)) = Done false s1
         ∧ err = botProviderStream.err s1)
  ∧ (∀ sys' out',
       sendBySSE_step case_eventChan sys [] = Returns (Looping sys' out') ->
       (botProviderStream.mu (sys_stream sys') = true ∧ out' = [])
       ∨ ∃ ev,
           current_event sys' = Some ev
           ∧ is_run_error ev = false
           ∧ sendBySSE_body ev = ((sendBySSE_body ev).1, None)
           ∧ out' = [] ++ (sendBySSE_body ev).1).
Proof.
  split; [by vm_compute|].
  apply (@sendBySSE_leaves_on_false sample.external case_eventChan _ []).
  apply lifecycle.sane_after.
Defined.

(** [sendBySSE] at the console: the answer is read to its end, one line
    break is written for the completed message, and no error is
    returned. *)
Example sendBySSE_reads_the_answer :
  @sendBySSE_output accepting.external console.runtime sample.background
    console.agent sample.message
  = Returns ([newline], None).
Proof. by vm_compute. Qed.

(** A server that reports a run error with its fact: [sendBySSE] returns
    the error [Next] stored, not the one of its own [run.error] branch. *)
Example sendBySSE_returns_the_stream_error :
  @sendBySSE accepting.external
    (console.runtime_on (mkWire ["asgard.run.init"; "asgard.run.error"] (Some io_EOF))
       console.interleaving)
    sample.background console.agent sample.message
  = Returns (Some (stream_error sample.detail)).
Proof. by vm_compute. Qed.

(** A server that stays silent: the loop of [sendBySSE] parks in [Next]
    and has not returned after being given the processor a hundred
    times. *)
Example sendBySSE_waits_for_a_silent_server :
  @sendBySSE accepting.external
    (console.runtime_on scenario.one_event (replicate 100 (loop_runs case_eventChan)))
    sample.background console.agent sample.message
  = Blocks.
Proof. by vm_compute. Qed.

(** A server that sends a [run.error] event without its fact crashes the
    client: the condition on the server cannot be dropped. *)
Example bare_run_error_crashes_the_client :
  @runBotREPL accepting.external
    (console.runtime_on scenario.bare_run_error console.interleaving)
    console.agent console.session [(sample.background, "hello", 1)]
    sample.background None
  = Panics.
Proof. by vm_compute. Qed.

(** The console, on four lines. *)
Lemma repl_does_not_crash_witness :
  let turns :=
    [(sample.background, "/blob a.bin", 1); (sample.background, "/reset", 2);
     (sample.background, "hello", 3); (sample.background, "/exit", 4)] in
  @runBotREPL accepting.external console.runtime console.agent console.session
    turns sample.background None
  ≠ Panics
  ∧ @runBotREPL accepting.external console.runtime console.agent console.session
      turns sample.background None
    = Returns (botSession.mk "cli-channel-0" "sse" false ["blob-1"] 2, None).
Proof.
  split; [|by vm_compute].
  apply (@repl_does_not_crash accepting.external console.runtime
           "http://localhost:8080" "default" "my-bot" "key" console.session);
    [apply console_fields|intros msg; apply console_answer].
Defined.

End repl.
